(** * CodeDiary: the PR enrichment, payload assembly and sync pipeline

    A shallow embedding of the JavaScript sources
    - [src/scripts/sync.js] and [src/scripts/export-llm-payloads.js]
      ([prToStem], [prToLLMPackage], [runSync]),
    - [src/github/pr-fetcher.js] ([fetchMergedPRsForUser], [enrichPR] and the
      three facet getters),
    - [src/notion/blocks.js] ([markdownToNotionBlocks]),
    - [src/notion/sync.js] ([appendSummaryToPage], [syncSummariesToNotion])
      and [src/notion/client.js] ([createPage]),
    - [src/notion/cache.js] ([loadCache], [saveCache]),
    - [src/services/pr-summarizer.js] ([getClient], [summarizePR]) and
    - [src/auth/github-oauth.js], [src/config.js] (the device-flow login),
    together with the properties the specification states about them and
    further properties of the code around them.

    Conventions of the embedding.
    - A JavaScript string is a Rocq [string]; its characters are the code
      units of the source string, which for the ASCII data handled here
      (repository names, ISO timestamps, markdown markers) are bytes.
    - A JavaScript number that holds a PR, issue or hunk counter is an [N];
      its conversion to text is the decimal rendering.
    - A property that may be [undefined] or [null] is an [option].
    - An [await]ed remote call is a value of [result]: the resolved value or
      the thrown error, whose [message] is a string. *)

From Stdlib Require Import String Ascii List NArith Lia Bool.
From Stdlib Require Import DecimalString DecimalN.
From stdpp Require Import gmap strings list.

Open Scope string_scope.
Open Scope list_scope.

(** ** JavaScript primitives used by the sources *)

Module JS.

(** [s.replace(/c/g, d)] for a one-character pattern. *)
Fixpoint replaceAll (c : ascii) (d : string) (s : string) : string :=
  match s with
  | EmptyString => EmptyString
  | String a s' =>
      if Ascii.eqb a c then d +:+ replaceAll c d s'
      else String a (replaceAll c d s')
  end.

(** [s.slice(0, n)]. *)
Fixpoint slice0 (n : nat) (s : string) : string :=
  match n, s with
  | S n', String a s' => String a (slice0 n' s')
  | _, _ => EmptyString
  end.

(** [`${n}`] for a counter. *)
Definition numberToString (n : N) : string :=
  NilEmpty.string_of_uint (N.to_uint n).

(** A non-negative integer as a number of JavaScript, which is a double:
    one of the integers a double represents, or [Infinity]. *)
Inductive Double :=
| Finite (n : N)
| Infinity.

(** The double nearest to the integer [n], a tie going to the even
    mantissa: an integer of at most 53 bits is itself; a longer one keeps
    its 53 leading bits, rounded by the bits that are cut; from 2^1024 on
    the result is [Infinity]. *)
Definition toDouble (n : N) : Double :=
  let bits := N.size n in
  if (bits <=? 53)%N then Finite n
  else
    let shift := (bits - 53)%N in
    let mantissa := N.shiftr n shift in
    let cut := (n - N.shiftl mantissa shift)%N in
    let half := N.shiftl 1 (shift - 1) in
    let rounded :=
      if (half <? cut)%N || ((cut =? half)%N && N.odd mantissa)
      then (mantissa + 1)%N
      else mantissa in
    let value := N.shiftl rounded shift in
    if (N.shiftl 1 1024 <=? value)%N then Infinity else Finite value.

(** Truthiness of a possibly missing string: [undefined], [null] and the
    empty string are falsy. *)
Definition truthy (v : option string) : bool :=
  match v with
  | Some (String _ _) => true
  | _ => false
  end.

(** [a || b] on possibly missing strings. *)
Definition or (a b : option string) : option string :=
  if truthy a then a else b.

(** [v || d] where [d] is a string literal. *)
Definition orDefault (v : option string) (d : string) : string :=
  match v with
  | Some (String a s) => String a s
  | _ => d
  end.

(** Does the character occur in the string? *)
Fixpoint occurs (c : ascii) (s : string) : bool :=
  match s with
  | EmptyString => false
  | String a s' => Ascii.eqb a c || occurs c s'
  end.

End JS.

(** ** Pull-request records (the fields the pipeline reads) *)

Record PullRequest := mkPR {
  repoFullName : option string;        (* pr.repoFullName *)
  base_repo_full_name : option string; (* pr.base?.repo?.full_name *)
  number : N;                          (* pr.number *)
  merged_at : option string;           (* pr.merged_at *)
  title : string;                      (* pr.title *)
  body : option string;                (* pr.body *)
  html_url : string                    (* pr.html_url *)
}.

(** ** Identity / stem deriver: [prToStem] *)

Module Stem.

(** [pr.repoFullName || pr.base?.repo?.full_name || 'unknown'] *)
Definition repoName (pr : PullRequest) : string :=
  JS.orDefault (JS.or (repoFullName pr) (base_repo_full_name pr)) "unknown".

(** [pr.merged_at ? pr.merged_at.slice(0, 10) : 'unknown'] *)
Definition merged (pr : PullRequest) : string :=
  match merged_at pr with
  | Some (String a s) => JS.slice0 10 (String a s)
  | _ => "unknown"
  end.

Definition prToStem (pr : PullRequest) : string :=
  let safeRepo := JS.replaceAll "/" "_" (repoName pr) in
  safeRepo +:+ "_PR" +:+ JS.numberToString (number pr) +:+ "_" +:+ merged pr.

(** A repository full name of the form [owner/repo]: one slash, and no
    underscore in the owner part. *)
Definition OwnerSlashRepo (name : string) : Prop :=
  exists owner repo,
    name = owner +:+ "/" +:+ repo
    /\ JS.occurs "_" owner = false
    /\ JS.occurs "/" owner = false
    /\ JS.occurs "/" repo = false.

(** The identity the stem is derived from. *)
Definition identity (pr : PullRequest) : option string * N * option string :=
  (JS.or (repoFullName pr) (base_repo_full_name pr), number pr, merged_at pr).

End Stem.

(** ** Enriched pull requests and the payload assembler: [prToLLMPackage] *)

Record LinkedIssue := mkIssue {
  issue_number : JS.Double;            (* what [parseInt] gave *)
  issue_title : option string;
  issue_body : option string
}.

Record ChangedFile := mkFile {
  filename : string;
  status : string;
  additions : N;
  deletions : N;
  patch : option string
}.

Record ReviewComment := mkComment {
  path : string;
  comment_body : string;
  diff_hunk : option string
}.

(** [{ ...pr, diff, reviewComments, linkedIssues, listFiles }] *)
Record EnrichedPR := mkEnriched {
  pr_base : PullRequest;
  diff : option string;
  reviewComments : list ReviewComment;
  linkedIssues : list LinkedIssue;
  listFiles : list ChangedFile
}.

Module Payload.

Record FilePatch := mkFilePatch {
  fp_filename : string;
  fp_status : string;
  fp_additions : N;
  fp_deletions : N;
  fp_patch : option string
}.

(** [{ path, body }] with [hunkRef] set only when the comment has a
    diff hunk. *)
Record Comment := mkOut {
  out_path : string;
  out_body : string;
  hunkRef : option string
}.

Record Metadata := mkMeta {
  meta_title : string;
  meta_body : string;
  mergedAt : option string;
  meta_number : N;
  htmlUrl : string
}.

(** [diffHunks] is a plain object whose keys are the identifiers, in the
    order they were first assigned; the field is absent when no
    identifier was assigned. *)
Record LLMPackage := mkPkg {
  pkg_linkedIssues : list LinkedIssue;
  metadata : Metadata;
  filesAndPatches : list FilePatch;
  comments : list Comment;
  diffHunks : option (list (string * string))
}.

(** [obj[key] = value] on a plain object kept in insertion order: an
    existing key keeps its place, a new key goes last. *)
Fixpoint objSet (key value : string) (obj : list (string * string))
  : list (string * string) :=
  match obj with
  | [] => [(key, value)]
  | (k, v) :: rest =>
      if String.eqb k key then (k, value) :: rest
      else (k, v) :: objSet key value rest
  end.

(** [`hunk_${n}`] *)
Definition hunkId (n : N) : string := "hunk_" +:+ JS.numberToString n.

(** The three variables the scanning loop updates. *)
Record HunkState := mkHunks {
  hunkToId : gmap string string;      (* new Map() *)
  hunkTable : list (string * string); (* const diffHunks = {} *)
  hunkIndex : N                       (* let hunkIndex = 0 *)
}.

Definition noHunks : HunkState := mkHunks ∅ [] 0.

(** One iteration of [for (const c of rawComments)]. *)
Definition scanComment (st : HunkState) (c : ReviewComment) : HunkState :=
  match diff_hunk c with
  | Some (String a s) =>
      let h := String a s in
      match hunkToId st !! h with
      | Some _ => st
      | None =>
          let idx := (hunkIndex st + 1)%N in
          let id := hunkId idx in
          mkHunks (<[h := id]> (hunkToId st)) (objSet id h (hunkTable st)) idx
      end
  | _ => st                           (* if (!h) continue *)
  end.

Definition scanComments (rawComments : list ReviewComment) : HunkState :=
  fold_left scanComment rawComments noHunks.

Definition outComment (ids : gmap string string) (c : ReviewComment) : Comment :=
  mkOut (path c) (comment_body c)
        (match diff_hunk c with
         | Some (String a s) => ids !! String a s
         | _ => None
         end).

Definition prToLLMPackage (e : EnrichedPR) : LLMPackage :=
  let st := scanComments (reviewComments e) in
  mkPkg
    (List.map (fun i => mkIssue (issue_number i) (issue_title i) (issue_body i))
              (linkedIssues e))
    (mkMeta (title (pr_base e))
            (JS.orDefault (body (pr_base e)) EmptyString)
            (merged_at (pr_base e))
            (number (pr_base e))
            (html_url (pr_base e)))
    (List.map (fun f => mkFilePatch (filename f) (status f) (additions f) (deletions f)
                               (if JS.truthy (patch f) then patch f else None))
              (listFiles e))
    (List.map (outComment (hunkToId st)) (reviewComments e))
    (match hunkTable st with
     | [] => None
     | _ :: _ => Some (hunkTable st)
     end).

(** The distinct elements of a list in the order of their first
    occurrence. *)
Fixpoint firstSeen (l : list string) : list string :=
  match l with
  | [] => []
  | x :: l' => x :: filter (fun y => y <> x) (firstSeen l')
  end.

(** The non-empty diff contexts of the comments, in comment order. *)
Definition contexts (cs : list ReviewComment) : list string :=
  omap (fun c => match diff_hunk c with
                 | Some (String a s) => Some (String a s)
                 | _ => None
                 end) cs.

(** The table that numbers a list of texts from [start + 1] on. *)
Fixpoint numbered (start : N) (l : list string) : list (string * string) :=
  match l with
  | [] => []
  | h :: l' =>
      (hunkId (start + 1), h) :: numbered (start + 1) l'
  end.

(** What the scanning loop has built after the comments [cs]. *)
Record Scanned (cs : list ReviewComment) (st : HunkState) : Prop := {
  scanned_table : hunkTable st = numbered 0 (firstSeen (contexts cs));
  scanned_index : hunkIndex st = N.of_nat (length (firstSeen (contexts cs)));
  scanned_ids : forall h id,
      hunkToId st !! h = Some id <-> (id, h) ∈ hunkTable st
}.

End Payload.

(** ** Remote calls *)

(** The outcome of an awaited call: the value it resolves to, or the error
    it throws. *)
Inductive result (A : Type) : Type :=
| Ok (value : A)
| Err (message : string).
Arguments Ok {A} value.
Arguments Err {A} message.

(** ** The remote collector: [src/github/pr-fetcher.js] *)

Module Fetcher.

(** A search hit (an issue-shaped record). *)
Record SearchItem := mkItem {
  repository_url : string;
  item_number : N
}.

(** The body of the response to the diff request: text, or anything else
    ([typeof data === 'string'] tells them apart). *)
Inductive DiffData := DiffText (text : string) | DiffOther.

Record IssueData := mkIssueData {
  data_title : option string;
  data_body : option string
}.

(** The endpoints of the host that the module calls.  A request names the
    owner and the repository; the repository is [undefined] when a full
    name has no slash. *)
Record Octokit := mkOctokit {
  users_getAuthenticated : result string;
  search_issuesAndPullRequests : string -> N -> N -> result (list SearchItem);
  pulls_get : string -> option string -> N -> result PullRequest;
  pulls_get_diff : string -> option string -> N -> result DiffData;
  pulls_listFiles :
    string -> option string -> N -> result (option (list ChangedFile));
  pulls_listReviewComments :
    string -> option string -> N -> result (option (list ReviewComment));
  issues_get : string -> option string -> JS.Double -> result IssueData
}.

(** [s.split(c)] for a one-character separator. *)
Fixpoint split (c : ascii) (s : string) : list string :=
  match s with
  | EmptyString => [EmptyString]
  | String a s' =>
      if Ascii.eqb a c then EmptyString :: split c s'
      else match split c s' with
           | h :: t => String a h :: t
           | [] => [String a EmptyString]
           end
  end.

(** [parts.slice(-2)[0]] *)
Definition secondToLast (parts : list string) : option string :=
  match rev parts with
  | _ :: x :: _ => Some x
  | [x] => Some x
  | [] => None
  end.

(** [parts.slice(-1)[0]] *)
Definition lastPart (parts : list string) : option string :=
  match rev parts with
  | x :: _ => Some x
  | [] => None
  end.

Definition perPage : N := 30.

(** [`author:${login} is:merged type:pr`] *)
Definition query (login : string) : string :=
  "author:" +:+ login +:+ " is:merged type:pr".

(** [{ ...full.data, repoFullName: full.data.base.repo.full_name }]; the
    host's full records always carry [base.repo], so the access does not
    throw. *)
Definition withRepoFullName (full : PullRequest) : PullRequest :=
  mkPR (base_repo_full_name full) (base_repo_full_name full) (number full)
       (merged_at full) (title full) (body full) (html_url full).

(** The request for the full record of a hit: owner and repository are
    the last two segments of its [repository_url]. *)
Definition getFull (octokit : Octokit) (item : SearchItem) : result PullRequest :=
  let parts := split "/" (repository_url item) in
  pulls_get octokit
    (default EmptyString (secondToLast parts))
    (lastPart parts)
    (item_number item).

(** [for (const item of data.items)]: resolve each hit, keep the merged. *)
Fixpoint resolveItems (octokit : Octokit) (items : list SearchItem)
         (prs : list PullRequest) : result (list PullRequest) :=
  match items with
  | [] => Ok prs
  | item :: rest =>
      match getFull octokit item with
      | Err e => Err e
      | Ok full =>
          resolveItems octokit rest
            (if JS.truthy (merged_at full)
             then prs ++ [withRepoFullName full]
             else prs)
      end
  end.

(** [while (true)] over the pages.  [None]: the loop has not stopped
    within [fuel] pages. *)
Fixpoint searchLoop (fuel : nat) (octokit : Octokit) (login : string)
         (page : N) (prs : list PullRequest)
  : option (result (list PullRequest)) :=
  match fuel with
  | O => None
  | S fuel' =>
      match search_issuesAndPullRequests octokit (query login) perPage page with
      | Err e => Some (Err e)
      | Ok items =>
          match items with
          | [] => Some (Ok prs)
          | _ :: _ =>
              match resolveItems octokit items prs with
              | Err e => Some (Err e)
              | Ok prs' =>
                  if (N.of_nat (length items) <? perPage)%N then Some (Ok prs')
                  else searchLoop fuel' octokit login (page + 1)%N prs'
              end
          end
      end
  end.

Definition fetchMergedPRsForUser (fuel : nat) (octokit : Octokit)
  : option (result (list PullRequest)) :=
  match users_getAuthenticated octokit with
  | Err e => Some (Err e)
  | Ok login => searchLoop fuel octokit login 1%N []
  end.

Definition getPRListFiles (octokit : Octokit) (owner : string)
           (repo : option string) (pullNumber : N) : list ChangedFile :=
  match pulls_listFiles octokit owner repo pullNumber with
  | Ok (Some data) => data
  | Ok None => []
  | Err _ => []
  end.

Definition getPRDiff (octokit : Octokit) (owner : string)
           (repo : option string) (pullNumber : N) : option string :=
  match pulls_get_diff octokit owner repo pullNumber with
  | Ok (DiffText data) => Some data
  | Ok DiffOther => None
  | Err _ => None
  end.

Definition getReviewComments (octokit : Octokit) (owner : string)
           (repo : option string) (pullNumber : N) : list ReviewComment :=
  match pulls_listReviewComments octokit owner repo pullNumber with
  | Ok (Some data) => data
  | Ok None => []
  | Err _ => []
  end.

Definition isDigit (a : ascii) : bool :=
  (48 <=? nat_of_ascii a)%nat && (nat_of_ascii a <=? 57)%nat.

Definition digitValue (a : ascii) : N := N.of_nat (nat_of_ascii a - 48).

(** The global scan for [#] and digits: a reference is a [#] followed by its
    longest run of digits; [pending] is [Some None] right after a [#] and
    [Some (Some n)] while the digits read so far spell [n].  What is
    pushed is [parseInt(m[1], 10)]: the double nearest to [n]. *)
Fixpoint scanRefs (pending : option (option N)) (s : string) : list JS.Double :=
  let flush :=
    match pending with
    | Some (Some n) => [JS.toDouble n]
    | _ => []
    end in
  match s with
  | EmptyString => flush
  | String a s' =>
      if Ascii.eqb a "#" then flush ++ scanRefs (Some None) s'
      else if isDigit a then
        match pending with
        | Some None => scanRefs (Some (Some (digitValue a))) s'
        | Some (Some n) => scanRefs (Some (Some (10 * n + digitValue a)%N)) s'
        | None => scanRefs None s'
        end
      else flush ++ scanRefs None s'
  end.

Definition extractLinkedIssues (body : string) : list JS.Double :=
  scanRefs None body.

(** The issue lookup of one reference, with its own [try]/[catch]. *)
Definition resolveIssue (octokit : Octokit) (owner : string)
           (repo : option string) (n : JS.Double) : LinkedIssue :=
  match issues_get octokit owner repo n with
  | Ok data =>
      mkIssue n (Some (default EmptyString (data_title data)))
                (Some (default EmptyString (data_body data)))
  | Err _ => mkIssue n None None
  end.

(** [const [owner, repo] = (pr.repoFullName || pr.base?.repo?.full_name || '').split('/')] *)
Definition ownerRepo (pr : PullRequest) : string * option string :=
  let parts :=
    split "/" (JS.orDefault (JS.or (repoFullName pr) (base_repo_full_name pr))
                            EmptyString) in
  (default EmptyString (parts !! 0%nat), parts !! 1%nat).

Definition enrichPR (octokit : Octokit) (pr : PullRequest) : EnrichedPR :=
  let '(owner, repo) := ownerRepo pr in
  let pullNumber := number pr in
  let pullPatch := getPRDiff octokit owner repo pullNumber in
  let reviewComments := getReviewComments octokit owner repo pullNumber in
  let listFiles := getPRListFiles octokit owner repo pullNumber in
  let rawLinked := extractLinkedIssues (JS.orDefault (body pr) EmptyString) in
  let linkedIssues := List.map (resolveIssue octokit owner repo) rawLinked in
  mkEnriched pr pullPatch reviewComments linkedIssues listFiles.

(** Page [page] of a list of hits served in pages of [size]: the hits
    [(page-1)*size .. page*size - 1]. *)
Definition pageOf (hits : list SearchItem) (size page : N) : list SearchItem :=
  take (N.to_nat size) (drop (N.to_nat size * (N.to_nat page - 1)) hits).

(** A record the collector may return: the full record of some hit, merged,
    with its repository name copied to [repoFullName]. *)
Definition Resolved (octokit : Octokit) (pr : PullRequest) : Prop :=
  JS.truthy (merged_at pr) = true
  /\ exists item full,
      getFull octokit item = Ok full /\ pr = withRepoFullName full.

(** The records the collector keeps of a list of resolved hits. *)
Definition mergedOnly (fulls : list PullRequest) : list PullRequest :=
  withRepoFullName <$> filter (fun pr => JS.truthy (merged_at pr) = true) fulls.

End Fetcher.

(** ** Markdown to blocks: [src/notion/blocks.js] *)

Module Blocks.

Definition LF : ascii := ascii_of_nat 10.
Definition CR : ascii := ascii_of_nat 13.

(** [\s] on code units below 256: tab, line feed, vertical tab, form
    feed, carriage return, space and no-break space. *)
Definition isSpace (a : ascii) : bool :=
  let n := nat_of_ascii a in
  ((9 <=? n)%nat && (n <=? 13)%nat) || (n =? 32)%nat || (n =? 160)%nat.

Definition isLineTerminator (a : ascii) : bool :=
  Ascii.eqb a LF || Ascii.eqb a CR.

(** *** The regular expressions of the module

    Only the constructs that occur in the two patterns: a one-character
    class, a quantified one-character class ([*], [+], lazy [+?]), an
    optional non-capturing group, the capture group, concatenation and
    [$].  Both patterns start with [^] and carry no flag, so a match is a
    match at position 0. *)

Inductive charClass :=
| Lit (c : ascii)   (* an escaped or plain character *)
| Whitespace        (* \s *)
| AnyChar.          (* . *)

Definition inClass (k : charClass) (a : ascii) : bool :=
  match k with
  | Lit c => Ascii.eqb a c
  | Whitespace => isSpace a
  | AnyChar => negb (isLineTerminator a)
  end.

Inductive regex :=
| Atom (k : charClass)
| Repeat (k : charClass) (min : nat) (greedy : bool)
| Optional (r : regex)
| Group (r : regex)
| Cat (r1 r2 : regex)
| EndOfInput.

(** [s.slice(n)] *)
Fixpoint sliceFrom (n : nat) (s : string) : string :=
  match n, s with
  | S n', String _ s' => sliceFrom n' s'
  | _, _ => s
  end.

Section Backtracking.
(** The matcher is written in continuation-passing style: [k] is the rest
    of the pattern, and an alternative is abandoned when [k] fails. *)
Context {R : Type}.

(** [k*] and [k+]: take as many characters as possible, give them back
    one at a time. *)
Fixpoint repeatGreedy (c : charClass) (min : nat) (s : string)
         (k : string -> option R) : option R :=
  let stop := match min with O => k s | S _ => None end in
  match s with
  | String a s' =>
      if inClass c a then
        match repeatGreedy c (pred min) s' k with
        | Some r => Some r
        | None => stop
        end
      else stop
  | EmptyString => stop
  end.

(** [k+?]: take as few characters as possible, take one more when the
    rest of the pattern fails. *)
Fixpoint repeatLazy (c : charClass) (min : nat) (s : string)
         (k : string -> option R) : option R :=
  let more :=
    match s with
    | String a s' => if inClass c a then repeatLazy c (pred min) s' k else None
    | EmptyString => None
    end in
  match min with
  | O => match k s with Some r => Some r | None => more end
  | S _ => more
  end.
End Backtracking.

(** [run r s cap k]: match [r] at the front of [s]; [cap] is the text of
    the capture group so far. *)
Fixpoint run (r : regex) (s : string) (cap : option string)
         (k : string -> option string -> option (option string))
  : option (option string) :=
  match r with
  | Atom c =>
      match s with
      | String a s' => if inClass c a then k s' cap else None
      | EmptyString => None
      end
  | Repeat c min true => repeatGreedy c min s (fun s' => k s' cap)
  | Repeat c min false => repeatLazy c min s (fun s' => k s' cap)
  | Optional r' =>
      match run r' s cap k with
      | Some m => Some m
      | None => k s cap
      end
  | Group r' =>
      run r' s cap
          (fun s' _ => k s' (Some (JS.slice0 (String.length s - String.length s') s)))
  | Cat r1 r2 => run r1 s cap (fun s' cap' => run r2 s' cap' k)
  | EndOfInput =>
      match s with
      | EmptyString => k s cap
      | String _ _ => None
      end
  end.

(** [s.match(r)]: [None] is JavaScript's [null]; [Some cap] is a match
    whose element [1] is [cap]. *)
Definition regexMatch (r : regex) (s : string) : option (option string) :=
  run r s None (fun _ cap => Some cap).

Definition star : ascii := "*".

(** The heading pattern, token by token:
    [^ (?: - \s* )? \* \* ( .+? ) \* \* \s* $]. *)
Definition headingRe : regex :=
  Cat (Optional (Cat (Atom (Lit "-")) (Repeat Whitespace 0 true)))
 (Cat (Atom (Lit star))
 (Cat (Atom (Lit star))
 (Cat (Group (Repeat AnyChar 1 false))
 (Cat (Atom (Lit star))
 (Cat (Atom (Lit star))
 (Cat (Repeat Whitespace 0 true)
      EndOfInput)))))).

(** The bullet pattern, token by token: [^ \*+ \s* ( .+ ) $]. *)
Definition bulletRe : regex :=
  Cat (Repeat (Lit star) 1 true)
 (Cat (Repeat Whitespace 0 true)
 (Cat (Group (Repeat AnyChar 1 true))
      EndOfInput)).

(** *** Blocks *)

Inductive BlockType := heading_2 | bulleted_list_item | paragraph | divider.

(** A text object; [bold] is [None] when the object carries no
    [annotations]. *)
Record RichText := mkText {
  content : string;
  bold : option bool
}.

Record Block := mkBlock {
  block_type : BlockType;
  rich_text : list RichText
}.

Definition RICH_TEXT_LIMIT : nat := 2000.

(** [while (remaining.length > 0)]; every turn removes a non-empty chunk,
    so [String.length content] turns are enough. *)
Fixpoint richTextLoop (turns : nat) (remaining : string) (bold : bool)
  : list RichText :=
  match turns, remaining with
  | S turns', String _ _ =>
      mkText (JS.slice0 RICH_TEXT_LIMIT remaining) (Some bold)
      :: richTextLoop turns' (sliceFrom RICH_TEXT_LIMIT remaining) bold
  | _, _ => []
  end.

Definition richText (content : string) (bold : bool) : list RichText :=
  richTextLoop (String.length content) content bold.

Definition block (type : BlockType) (content : string) (bold : bool) : Block :=
  mkBlock type (richText content bold).

Fixpoint trimStart (s : string) : string :=
  match s with
  | String a s' => if isSpace a then trimStart s' else s
  | EmptyString => EmptyString
  end.

Fixpoint trimEnd (s : string) : string :=
  match s with
  | String a s' =>
      match trimEnd s' with
      | EmptyString => if isSpace a then EmptyString else String a EmptyString
      | t => String a t
      end
  | EmptyString => EmptyString
  end.

(** [s.trim()] *)
Definition trim (s : string) : string := trimEnd (trimStart s).

Definition consHead (a : ascii) (parts : list string) : list string :=
  match parts with
  | h :: t => String a h :: t
  | [] => [String a EmptyString]
  end.

(** [markdown.split] on a line feed with an optional carriage return
    before it. *)
Fixpoint splitLines (s : string) : list string :=
  match s with
  | EmptyString => [EmptyString]
  | String a s' =>
      if Ascii.eqb a LF then EmptyString :: splitLines s'
      else
        match s' with
        | String b s'' =>
            if Ascii.eqb a CR && Ascii.eqb b LF
            then EmptyString :: splitLines s''
            else consHead a (splitLines s')
        | EmptyString => [String a EmptyString]
        end
  end.

(** The body of the loop for one line: the blocks it pushes.  Element
    [1] of a match is the text of the capture group, which takes part in
    every match of either pattern. *)
Definition lineBlocks (line : string) : list Block :=
  let trimmed := trim line in
  match trimmed with
  | EmptyString => []                      (* if (!trimmed) continue *)
  | String _ _ =>
      match regexMatch headingRe trimmed with
      | Some headingMatch =>
          [block heading_2 (default EmptyString headingMatch) false]
      | None =>
          match regexMatch bulletRe trimmed with
          | Some bulletMatch =>
              [block bulleted_list_item (default EmptyString bulletMatch) false]
          | None => [block paragraph trimmed false]
          end
      end
  end.

Definition markdownToNotionBlocks (markdown : string) : list Block :=
  flat_map lineBlocks (splitLines markdown).

(** *** The line shapes, in words

    Used to state what the two patterns accept. *)

(** Every character of [s] is in the class [k]. *)
Fixpoint allIn (k : charClass) (s : string) : bool :=
  match s with
  | EmptyString => true
  | String a s' => inClass k a && allIn k s'
  end.

(** [s] starts with a character of the class [k]. *)
Definition startsIn (k : charClass) (s : string) : bool :=
  match s with
  | String a _ => inClass k a
  | EmptyString => false
  end.

(** [n] asterisks. *)
Fixpoint stars (n : nat) : string :=
  match n with
  | O => EmptyString
  | S n' => String star (stars n')
  end.

(** The last character of [s] is white space. *)
Fixpoint endsWithSpace (s : string) : bool :=
  match s with
  | EmptyString => false
  | String a EmptyString => isSpace a
  | String _ s' => endsWithSpace s'
  end.

(** [s] is two asterisks followed by white space only. *)
Definition closes (s : string) : bool :=
  match s with
  | String a (String b ws) =>
      Ascii.eqb a star && Ascii.eqb b star && allIn Whitespace ws
  | _ => false
  end.

(** [t] is the text [x], not empty and without a carriage return or line
    feed, wrapped in double asterisks, with nothing or a hyphen and white
    space before it. *)
Definition HeadingShape (t x : string) : Prop :=
  x <> EmptyString
  /\ allIn AnyChar x = true
  /\ exists lead,
      (lead = EmptyString
       \/ exists ws, allIn Whitespace ws = true /\ lead = String "-" ws)
      /\ t = lead +:+ "**" +:+ x +:+ "**".

(** [t] is one or more asterisks, white space or none, and the text [x],
    which is not empty, holds no carriage return or line feed and starts
    with neither an asterisk nor white space. *)
Definition BulletShape (t x : string) : Prop :=
  x <> EmptyString
  /\ allIn AnyChar x = true
  /\ startsIn (Lit star) x = false
  /\ startsIn Whitespace x = false
  /\ exists n ws,
      allIn Whitespace ws = true /\ t = stars (S n) +:+ ws +:+ x.

(** The kinds of block the parser produces. *)
Definition isParsedKind (b : Block) : bool :=
  match block_type b with
  | heading_2 | bulleted_list_item | paragraph => true
  | divider => false
  end.

End Blocks.

(** ** The durable cache: [src/notion/cache.js] *)

Module Cache.

(** A completion marker as it can stand in the JSON file: the sync
    script writes [true], the page-creating path writes a page id. *)
Inductive Marker :=
| MBool (b : bool)
| MString (s : string)
| MNumber (n : N)
| MNull.

(** Truthiness of [cache[stem]]; an absent key reads [undefined]. *)
Definition truthy (v : option Marker) : bool :=
  match v with
  | Some (MBool b) => b
  | Some (MString s) => JS.truthy (Some s)
  | Some (MNumber n) => negb (n =? 0)%N
  | Some MNull => false
  | None => false
  end.

(** The cache path: no file, a file that is not parsable, the JSON
    object a file holds (the mapping from stems to markers), or a path
    that cannot be written (a directory, a file or folder without write
    access): [readable] is the object a read of it gives, which is empty
    when it cannot be read or parsed, and [reason] is the message of the
    error a write to it throws.  A file that holds JSON other than an
    object, or markers that are themselves objects or arrays, is outside
    this model. *)
Inductive File :=
| NoFile
| Malformed
| JsonObject (entries : gmap string Marker)
| Unwritable (readable : gmap string Marker) (reason : string).

(** [loadCache]: a read or parse failure gives the empty object. *)
Definition loadCache (f : File) : gmap string Marker :=
  match f with
  | JsonObject entries => entries
  | NoFile => ∅
  | Malformed => ∅
  | Unwritable readable _ => readable
  end.

(** [saveCache]: the file is overwritten with the object it is given, or
    the write throws and the path is left as it is. *)
Definition saveCache (cache : gmap string Marker) (f : File) : result File :=
  match f with
  | Unwritable _ reason => Err reason
  | _ => Ok (JsonObject cache)
  end.

End Cache.

(** ** Appending to the note store: [src/notion/sync.js], [client.js] *)

Module Notion.
Import Blocks.

(** [stem.replace(/_/g, ' / ').replace(/-/g, ' ')] *)
Definition displayTitle (stem : string) : string :=
  JS.replaceAll "-" " " (JS.replaceAll "_" " / " stem).

(** The blocks [appendSummaryToPage] sends for one PR. *)
Definition summaryBlocks (stem summaryMarkdown : string) : list Block :=
  [mkBlock heading_2 [mkText (displayTitle stem) None]]
  ++ markdownToNotionBlocks summaryMarkdown
  ++ [mkBlock divider []].

(** [pageId.replace(/-/g, '')] *)
Definition cleanId (pageId : string) : string :=
  JS.replaceAll "-" EmptyString pageId.

End Notion.

(** ** The sync coordinator: [runSync] in [src/scripts/sync.js] *)

Module Sync.
Import Cache.

(** What a run is started with: the command line, the environment and
    the collaborators it calls. *)
Record Env := mkEnv {
  force : bool;                  (* process.argv.includes('--force') *)
  limitArg : option N;           (* the number after --limit, when it is one *)
  NOTION_API_KEY : option string;
  NOTION_PAGE_ID : option string;
  octokit : Fetcher.Octokit;
  askHowManyPRs : N -> N;        (* the answer to the prompt *)
  summarizePR : Payload.LLMPackage -> result string;
  blocks_children_append : string -> list Blocks.Block -> result unit
}.

(** The lines the per-PR loop prints. *)
Inductive Line :=
| Cached (i n : nat) (stem : string)
| Enriching (i n : nat) (repo : string) (number : N)
| Appended (i n : nat) (stem : string)
| Failed (i n : nat) (stem : string) (message : string)
| Text (s : string).



(** What a run does to the outside, in order. *)
Inductive Effect :=
| ConsoleLog (l : Line)
| ConsoleError (l : Line)
| EnrichCall (pr : PullRequest)
| SummarizeCall (pkg : Payload.LLMPackage)
| AppendCall (block_id : string) (children : list Blocks.Block).

(** The state of a run: the cache file on disk, the in-memory cache
    object and the effects so far. *)
Record Machine := mkMachine {
  disk : File;
  image : gmap string Marker;
  trace : list Effect
}.

Definition emit (st : Machine) (es : list Effect) : Machine :=
  mkMachine (disk st) (image st) (trace st ++ es).

(** The body of [try]: the calls it makes and how it ends. *)
Definition attempt (env : Env) (pageId stem : string) (pr : PullRequest)
  : list Effect * result unit :=
  let enriched := Fetcher.enrichPR (octokit env) pr in
  let pkg := Payload.prToLLMPackage enriched in
  match summarizePR env pkg with
  | Err e => ([EnrichCall pr; SummarizeCall pkg], Err e)
  | Ok summary =>
      let block_id := Notion.cleanId pageId in
      let children := Notion.summaryBlocks stem summary in
      ([EnrichCall pr; SummarizeCall pkg; AppendCall block_id children],
       blocks_children_append env block_id children)
  end.

(** One turn of [for (let i = 0; i < prs.length; i++)]. *)
Definition iteration (env : Env) (pageId : string) (n : nat)
           (st : Machine) (i : nat) (pr : PullRequest) : Machine :=
  let stem := Stem.prToStem pr in
  let repo :=
    JS.orDefault (JS.or (repoFullName pr) (base_repo_full_name pr)) "?" in
  if truthy (image st !! stem) && negb (force env)
  then emit st [ConsoleLog (Cached i n stem)]
  else
    let st1 := emit st [ConsoleLog (Enriching i n repo (number pr))] in
    match attempt env pageId stem pr with
    | (calls, Ok _) =>
        mkMachine (disk st1)
                  (<[stem := MBool true]> (image st1))
                  (trace st1 ++ calls ++ [ConsoleLog (Appended i n stem)])
    | (calls, Err message) =>
        emit st1 (calls ++ [ConsoleError (Failed i n stem message)])
    end.

(** The turns [i, i+1, ...] over the PRs that are left. *)
Fixpoint loopFrom (env : Env) (pageId : string) (n : nat) (i : nat)
         (prs : list PullRequest) (st : Machine) : Machine :=
  match prs with
  | [] => st
  | pr :: rest =>
      loopFrom env pageId n (S i) rest (iteration env pageId n st i pr)
  end.

(** The number of PRs to keep. *)
Definition chooseLimit (env : Env) (total : N) : N :=
  match limitArg env with
  | Some l => if (0 <? l)%N then N.min l total else askHowManyPRs env total
  | None => askHowManyPRs env total
  end.

(** [prs.slice(0, limit)] *)
Definition selected (env : Env) (prs : list PullRequest) : list PullRequest :=
  take (N.to_nat (chooseLimit env (N.of_nat (length prs)))) prs.

(** The state in which the loop is entered when the collector returned
    [prs]: [cache = force ? {} : await loadCache(CACHE_PATH)], and the
    lines printed on the way. *)
Definition enterLoop (env : Env) (file : File) (prs : list PullRequest)
  : Machine :=
  mkMachine file
    (if force env then ∅ else loadCache file)
    [ConsoleLog (Text "Fetching merged PRs from GitHub...");
     ConsoleLog (Text ("Found " +:+ JS.numberToString (N.of_nat (length prs))
                                +:+ " merged PR(s)"));
     ConsoleLog (Text ("Cool! Top "
                         +:+ JS.numberToString (N.of_nat (length (selected env prs)))
                         +:+ " PR(s) will be summarized."));
     ConsoleLog (Text "Top = most recently updated")].

(** The state after the first [k] turns of the loop: where a process
    that is stopped at that point leaves the disk and the outside. *)
Definition afterTurns (env : Env) (pageId : string) (file : File)
           (prs : list PullRequest) (k : nat) : Machine :=
  let chosen := selected env prs in
  loopFrom env pageId (length chosen) 0 (take k chosen) (enterLoop env file prs).

(** The state after [await saveCache(cache, CACHE_PATH)] has written
    the file [written], and the two closing lines. *)
Definition saved (pageId : string) (st : Machine) (written : File) : Machine :=
  mkMachine written (image st)
    (trace st ++
     [ConsoleLog (Text "Done.");
      ConsoleLog (Text ("Page: https://notion.so/" +:+ Notion.cleanId pageId))]).

(** The end of a run whose write of the cache succeeds: the file holds
    the image. *)
Definition persist (pageId : string) (st : Machine) : Machine :=
  saved pageId st (JsonObject (image st)).

(** [runSync] from the point where the collector has returned [prs], when
    the write of the cache at its end succeeds. *)
Definition finish (env : Env) (pageId : string) (file : File)
           (prs : list PullRequest) : Machine :=
  let chosen := selected env prs in
  persist pageId
    (loopFrom env pageId (length chosen) 0 chosen (enterLoop env file prs)).

(** How a run ends: the value or error of [runSync], and the state it
    leaves. *)
Record Outcome := mkOutcome {
  exit : result unit;
  final : Machine
}.

Definition missingEnv : string :=
  "Notion env missing: set NOTION_API_KEY and NOTION_PAGE_ID (the page to append PRs to)".

(** [runSync]; [None] when the collector's page loop does not stop within
    [fuel] pages.  The write of the cache comes after the loop and outside
    its [try]: when it throws, the run fails with what the loop has done. *)
Definition runSync (fuel : nat) (env : Env) (file : File) : option Outcome :=
  match NOTION_API_KEY env, NOTION_PAGE_ID env with
  | Some (String _ _), Some (String a p) =>
      let pageId := String a p in
      let st0 := mkMachine file (if force env then ∅ else loadCache file)
                   [ConsoleLog (Text "Fetching merged PRs from GitHub...")] in
      match Fetcher.fetchMergedPRsForUser fuel (octokit env) with
      | None => None
      | Some (Err e) => Some (mkOutcome (Err e) st0)
      | Some (Ok prs) =>
          let st :=
            afterTurns env pageId file prs (length (selected env prs)) in
          match saveCache (image st) (disk st) with
          | Ok written => Some (mkOutcome (Ok tt) (saved pageId st written))
          | Err e => Some (mkOutcome (Err e) st)
          end
      end
  | _, _ => Some (mkOutcome (Err missingEnv) (mkMachine file ∅ []))
  end.

(** The calls to the collaborators among the effects. *)
Definition isCall (e : Effect) : bool :=
  match e with
  | EnrichCall _ | SummarizeCall _ | AppendCall _ _ => true
  | ConsoleLog _ | ConsoleError _ => false
  end.

(** Whatever is printed as appended is in the image with the marker
    [true]. *)
Definition AppendedRecorded (st : Machine) : Prop :=
  forall i n stem,
    ConsoleLog (Appended i n stem) ∈ trace st ->
    image st !! stem = Some (MBool true).

(** The PRs for which [enrichPR] was called, in call order. *)
Definition enrichedPRs (es : list Effect) : list PullRequest :=
  omap (fun e => match e with EnrichCall pr => Some pr | _ => None end) es.

Definition isFailure (e : Effect) : bool :=
  match e with
  | ConsoleError _ => true
  | _ => false
  end.

Definition isAppend (e : Effect) : bool :=
  match e with
  | AppendCall _ _ => true
  | _ => false
  end.

End Sync.

(** ** Reading a payload back: [diffHunks[hunkRef]] *)

Module Reader.

(** [obj[key]] on a plain object kept as its list of entries. *)
Fixpoint objGet (key : string) (obj : list (string * string)) : option string :=
  match obj with
  | [] => None
  | (k, v) :: rest => if String.eqb k key then Some v else objGet key rest
  end.

(** The diff context a comment of the payload points to: its [hunkRef]
    looked up in [diffHunks]. *)
Definition resolve (pkg : Payload.LLMPackage) (c : Payload.Comment) : option string :=
  match Payload.hunkRef c, Payload.diffHunks pkg with
  | Some ref, Some table => objGet ref table
  | _, _ => None
  end.

(** The number of times a character occurs in a string. *)
Fixpoint countChar (c : ascii) (s : string) : nat :=
  match s with
  | EmptyString => 0
  | String a s' => (if Ascii.eqb a c then 1 else 0) + countChar c s'
  end.

(** Does the string start with a decimal digit? *)
Definition startsWithDigit (s : string) : bool :=
  match s with
  | String a _ => Fetcher.isDigit a
  | EmptyString => false
  end.

End Reader.

(** ** Runs that differ in one collaborator *)

Module Variation.

(** The host [o] with another answer to the diff request. *)
Definition withDiff (o : Fetcher.Octokit)
           (d : string -> option string -> N -> result Fetcher.DiffData)
  : Fetcher.Octokit :=
  Fetcher.mkOctokit
    (Fetcher.users_getAuthenticated o) (Fetcher.search_issuesAndPullRequests o)
    (Fetcher.pulls_get o) d (Fetcher.pulls_listFiles o)
    (Fetcher.pulls_listReviewComments o) (Fetcher.issues_get o).

(** The run [env] against another host. *)
Definition withOctokit (env : Sync.Env) (o : Fetcher.Octokit) : Sync.Env :=
  Sync.mkEnv (Sync.force env) (Sync.limitArg env) (Sync.NOTION_API_KEY env)
             (Sync.NOTION_PAGE_ID env) o (Sync.askHowManyPRs env)
             (Sync.summarizePR env) (Sync.blocks_children_append env).

End Variation.

(** ** Counting what a run reports *)

Module Report.
Import Sync.

Definition isCachedLine (e : Effect) : bool :=
  match e with
  | ConsoleLog (Cached _ _ _) => true
  | _ => false
  end.

Definition isAppendedLine (e : Effect) : bool :=
  match e with
  | ConsoleLog (Appended _ _ _) => true
  | _ => false
  end.

Definition isFailedLine (e : Effect) : bool :=
  match e with
  | ConsoleError (Failed _ _ _ _) => true
  | _ => false
  end.

Definition isEnrich (e : Effect) : bool :=
  match e with
  | EnrichCall _ => true
  | _ => false
  end.

Definition isSummarize (e : Effect) : bool :=
  match e with
  | SummarizeCall _ => true
  | _ => false
  end.

(** How many of the effects satisfy [p]. *)
Definition count (p : Effect -> bool) (es : list Effect) : nat :=
  length (filter (fun e => p e = true) es).

(** What the effects of [turns] turns of the loop add up to: one report
    per turn; an enrichment and a summarizer call for every turn that is
    not reported as cached; an append for every turn reported as appended
    and for no turn reported as cached. *)
Record Tally (es : list Effect) (turns : nat) : Prop := {
  tally_reports :
    count isCachedLine es + count isAppendedLine es + count isFailedLine es = turns;
  tally_enrich :
    count isEnrich es = count isAppendedLine es + count isFailedLine es;
  tally_summarize : count isSummarize es = count isEnrich es;
  tally_appended : count isAppendedLine es <= count isAppend es;
  tally_append : count isAppend es <= count isEnrich es
}.

(** What turn [i] of [n] prints and calls for [pr]: the line of a cache
    hit and nothing else; or the line that announces the enrichment, the
    calls the turn makes for [pr] and its outcome, which is the line of a
    PR appended when the summary reached the page, and otherwise the line
    of the failure of the summarizer or of the note store. *)
Inductive Turn (env : Env) (pageId : string) (n i : nat) (pr : PullRequest)
  : list Effect -> Prop :=
| TurnCached :
    Turn env pageId n i pr [ConsoleLog (Cached i n (Stem.prToStem pr))]
| TurnAppended (summary : string) :
    summarizePR env (Payload.prToLLMPackage (Fetcher.enrichPR (octokit env) pr))
    = Ok summary ->
    blocks_children_append env (Notion.cleanId pageId)
      (Notion.summaryBlocks (Stem.prToStem pr) summary) = Ok tt ->
    Turn env pageId n i pr
      [ConsoleLog (Enriching i n
                     (JS.orDefault (JS.or (repoFullName pr) (base_repo_full_name pr)) "?")
                     (number pr));
       EnrichCall pr;
       SummarizeCall (Payload.prToLLMPackage (Fetcher.enrichPR (octokit env) pr));
       AppendCall (Notion.cleanId pageId)
                  (Notion.summaryBlocks (Stem.prToStem pr) summary);
       ConsoleLog (Appended i n (Stem.prToStem pr))]
| TurnNotSummarized (message : string) :
    summarizePR env (Payload.prToLLMPackage (Fetcher.enrichPR (octokit env) pr))
    = Err message ->
    Turn env pageId n i pr
      [ConsoleLog (Enriching i n
                     (JS.orDefault (JS.or (repoFullName pr) (base_repo_full_name pr)) "?")
                     (number pr));
       EnrichCall pr;
       SummarizeCall (Payload.prToLLMPackage (Fetcher.enrichPR (octokit env) pr));
       ConsoleError (Failed i n (Stem.prToStem pr) message)]
| TurnNotAppended (summary message : string) :
    summarizePR env (Payload.prToLLMPackage (Fetcher.enrichPR (octokit env) pr))
    = Ok summary ->
    blocks_children_append env (Notion.cleanId pageId)
      (Notion.summaryBlocks (Stem.prToStem pr) summary) = Err message ->
    Turn env pageId n i pr
      [ConsoleLog (Enriching i n
                     (JS.orDefault (JS.or (repoFullName pr) (base_repo_full_name pr)) "?")
                     (number pr));
       EnrichCall pr;
       SummarizeCall (Payload.prToLLMPackage (Fetcher.enrichPR (octokit env) pr));
       AppendCall (Notion.cleanId pageId)
                  (Notion.summaryBlocks (Stem.prToStem pr) summary);
       ConsoleError (Failed i n (Stem.prToStem pr) message)].
End Report.

(** ** How many PRs: [--limit], [PR_LIMIT] and [askHowManyPRs] in
    [src/scripts/sync.js] *)

Module Prompt.

(** The value of the decimal digits at the front of [s], read after the
    digits that gave [acc]. *)
Fixpoint digitsValue (acc : N) (s : string) : N :=
  match s with
  | String a s' =>
      if Fetcher.isDigit a
      then digitsValue (10 * acc + Fetcher.digitValue a)%N s'
      else acc
  | EmptyString => acc
  end.

(** [parseInt(s, 10)]; [None] is [NaN].  Leading white space is skipped,
    one sign is read, then the longest run of digits; what follows the
    digits is ignored.  The value is exact here, where JavaScript rounds
    above 2^53: every use below takes the minimum with an array length. *)
Definition parseInt (s : string) : option Z :=
  let t := Blocks.trimStart s in
  let negative :=
    match t with
    | String a _ => Ascii.eqb a "-"
    | EmptyString => false
    end in
  let digits :=
    match t with
    | String a r => if Ascii.eqb a "-" || Ascii.eqb a "+" then r else t
    | EmptyString => t
    end in
  match digits with
  | String a _ =>
      if Fetcher.isDigit a
      then Some (if negative then (- Z.of_N (digitsValue 0 digits))%Z
                 else Z.of_N (digitsValue 0 digits))
      else None
  | EmptyString => None
  end.

(** One code unit of [s.toLowerCase()], for code units below 256. *)
Definition lowerUnit (a : ascii) : ascii :=
  let n := nat_of_ascii a in
  if ((65 <=? n)%nat && (n <=? 90)%nat)
     || ((192 <=? n)%nat && (n <=? 222)%nat && negb (n =? 215)%nat)
  then ascii_of_nat (n + 32)
  else a.

Fixpoint toLowerCase (s : string) : string :=
  match s with
  | String a s' => String (lowerUnit a) (toLowerCase s')
  | EmptyString => EmptyString
  end.

(** What the prompt depends on. *)
Record Terminal := mkTerminal {
  isTTY : bool;               (* process.stdin.isTTY *)
  PR_LIMIT : option string;   (* process.env.PR_LIMIT *)
  answer : string             (* the line typed at the question *)
}.

(** [askHowManyPRs(total)]: the number it resolves to. *)
Definition askHowManyPRs (t : Terminal) (total : N) : Z :=
  if negb (isTTY t) then
    match PR_LIMIT t with
    | Some (String a s) =>
        Z.min (match parseInt (String a s) with
               | Some n => if (n =? 0)%Z then Z.of_N total else n
               | None => Z.of_N total
               end)
              (Z.of_N total)
    | _ => Z.of_N total
    end
  else
    let trimmed :=
      toLowerCase (Blocks.trim (JS.orDefault (Some (answer t)) "all")) in
    if String.eqb trimmed "all" || String.eqb trimmed EmptyString
    then Z.of_N total
    else
      match parseInt trimmed with
      | Some n => if (0 <? n)%Z then Z.min n (Z.of_N total) else Z.of_N total
      | None => Z.of_N total
      end.

(** [argv.indexOf(x)]; [None] is [-1]. *)
Fixpoint indexOf (x : string) (argv : list string) : option nat :=
  match argv with
  | [] => None
  | a :: rest => if String.eqb a x then Some 0 else S <$> indexOf x rest
  end.

(** [limitIdx >= 0 ? parseInt(process.argv[limitIdx + 1], 10) : null];
    [None] stands for both [null] and [NaN], which are treated alike. *)
Definition limitArg (argv : list string) : option Z :=
  match indexOf "--limit" argv with
  | Some limitIdx =>
      match argv !! S limitIdx with
      | Some s => parseInt s
      | None => None
      end
  | None => None
  end.

(** [const limit = ...] in [runSync]. *)
Definition chooseLimit (argv : list string) (t : Terminal) (total : N) : Z :=
  match limitArg argv with
  | Some l =>
      if (0 <? l)%Z then Z.min l (Z.of_N total) else askHowManyPRs t total
  | None => askHowManyPRs t total
  end.

(** [prs.slice(0, limit)]: a negative [limit] counts from the end. *)
Definition sliceTo {A : Type} (limit : Z) (prs : list A) : list A :=
  if (limit <? 0)%Z
  then take (Z.to_nat (Z.of_nat (length prs) + limit)) prs
  else take (Z.to_nat limit) prs.

Definition selected (argv : list string) (t : Terminal)
           (prs : list PullRequest) : list PullRequest :=
  sliceTo (chooseLimit argv t (N.of_nat (length prs))) prs.

End Prompt.

(** ** The summarizer: [src/services/pr-summarizer.js] *)

Module Summarizer.

Definition quote : string := String (ascii_of_nat 34) EmptyString.
Definition newline : string := String Blocks.LF EmptyString.
Definition fence : string := "```".

Definition SUMMARY_PROMPT : string :=
  "You are summarizing a merged GitHub Pull Request for a developer's personal "
  +:+ quote +:+ "PR memory" +:+ quote +:+ " / interview prep." +:+ newline
  +:+ newline
  +:+ "Given the PR data below, produce a concise summary with exactly these 6 sections. Use markdown bullets where helpful. Be specific and technical."
  +:+ newline +:+ newline
  +:+ "Each comment may include a hunkRef pointing to a shared diff hunk (e.g. hunk_1). Use the diffHunks section to resolve these when interpreting what the comment refers to."
  +:+ newline +:+ newline
  +:+ "Output format (use these exact headings):" +:+ newline
  +:+ newline
  +:+ "- **Problem / why the change was needed**" +:+ newline
  +:+ "- **My key changes**" +:+ newline
  +:+ "- **Approach / architecture decisions**" +:+ newline
  +:+ "- **Any tricky bits**" +:+ newline
  +:+ "- **What reviewers commented on**" +:+ newline
  +:+ "- **One-sentence " +:+ quote +:+ "interview snippet" +:+ quote +:+ "**"
  +:+ newline +:+ newline
  +:+ "PR data:" +:+ newline.

(** The environment variables [getClient] reads. *)
Record GenAIEnv := mkGenAIEnv {
  GEMINI_API_KEY : option string;
  GOOGLE_API_KEY : option string;
  GOOGLE_CLOUD_PROJECT : option string;
  GOOGLE_GENAI_USE_VERTEXAI : option string;
  GOOGLE_CLOUD_LOCATION : option string
}.

(** What [new GoogleGenAI] is given. *)
Inductive Client :=
| AIStudio (apiKey : string)
| VertexAI (project location : string).

Definition configError : string :=
  "Add to .env: GEMINI_API_KEY (from https://aistudio.google.com/apikey) OR GOOGLE_CLOUD_PROJECT=your-project (Vertex AI + gcloud auth application-default login)".

Definition getClient (env : GenAIEnv) : result Client :=
  match JS.or (GEMINI_API_KEY env) (GOOGLE_API_KEY env) with
  | Some (String a k) => Ok (AIStudio (String a k))
  | _ =>
      let project := GOOGLE_CLOUD_PROJECT env in
      let useVertex :=
        match GOOGLE_GENAI_USE_VERTEXAI env with
        | Some flag => String.eqb flag "true"
        | None => false
        end
        || JS.truthy project in
      if useVertex && JS.truthy project
      then Ok (VertexAI (default EmptyString project)
                        (JS.orDefault (GOOGLE_CLOUD_LOCATION env) "us-central1"))
      else Err configError
  end.

(** The model service and the serializer: [generateContent] answers with
    the [text] of the response, which may be [undefined]. *)
Record Gemini := mkGemini {
  generateContent : Client -> string -> string -> result (option string);
  JSON_stringify : Payload.LLMPackage -> string
}.

(** [SUMMARY_PROMPT + '\n```json\n' + JSON.stringify(llmPackage, null, 2) + '\n```'] *)
Definition input (g : Gemini) (llmPackage : Payload.LLMPackage) : string :=
  SUMMARY_PROMPT +:+ newline +:+ fence +:+ "json" +:+ newline
                 +:+ JSON_stringify g llmPackage +:+ newline +:+ fence.

(** [summarizePR(llmPackage, options)]; [model] is [options.model]. *)
Definition summarizePR (env : GenAIEnv) (g : Gemini) (model : option string)
           (llmPackage : Payload.LLMPackage) : result string :=
  match getClient env with
  | Err e => Err e
  | Ok client =>
      match generateContent g client (JS.orDefault model "gemini-2.0-flash")
                            (input g llmPackage) with
      | Err e => Err e
      | Ok text => Ok (default EmptyString text)
      end
  end.

(** The environment of a sync run whose summarizer is this module, called
    as [runSync] calls it: without options. *)
Definition withSummarizer (env : Sync.Env) (genai : GenAIEnv) (g : Gemini)
  : Sync.Env :=
  Sync.mkEnv (Sync.force env) (Sync.limitArg env) (Sync.NOTION_API_KEY env)
             (Sync.NOTION_PAGE_ID env) (Sync.octokit env)
             (Sync.askHowManyPRs env) (summarizePR genai g None)
             (Sync.blocks_children_append env).

End Summarizer.

(** ** One page per summary file: [syncSummariesToNotion] in
    [src/notion/sync.js] and [createPage] in [src/notion/client.js] *)

Module Pages.
Import Blocks Cache.

Inductive Parent :=
| DatabaseParent (database_id : string)
| PageParent (page_id : string).

(** The body of [notion.pages.create]: the parent, the key of the title
    property, the title text and the children. *)
Record PageRequest := mkRequest {
  parent : Parent;
  titleKey : string;
  titleContent : string;
  children : list Block
}.

(** The page the store answers with. *)
Record Page := mkPage {
  page_id : option string;
  page_url : option string
}.

Record Options := mkOptions {
  apiKey : option string;
  parentType : string;
  parentId : string;
  titleProperty : option string;
  force : bool;
  bare : bool  (* the joined path of an entry is the entry itself, as
                  when [summariesDir] is the working directory *)
}.

(** The directory, its files and the note store. *)
Record World := mkWorld {
  readdir : result (list string);
  readFile : string -> result string;
  pages_create : PageRequest -> result Page
}.

Definition suffix : string := "_summary.md".

(** [e.endsWith(suffix)] *)
Definition endsWith (suffix e : string) : bool :=
  (String.length suffix <=? String.length e)%nat
  && String.eqb (Blocks.sliceFrom (String.length e - String.length suffix) e) suffix.

(** [file.replace(/_summary\.md$/, '')] *)
Definition stripSuffix (file : string) : string :=
  if endsWith suffix file
  then JS.slice0 (String.length file - String.length suffix) file
  else file.

(** [path.basename(summaryPath, '_summary.md')] for the joined path of an
    entry: the suffix is dropped unless nothing would be left of the name;
    a path that is the suffix itself gives the empty string. *)
Definition basename (o : Options) (file : string) : string :=
  if String.eqb file suffix
  then (if bare o then EmptyString else file)
  else stripSuffix file.

(** [`${page.id?.replace(/-/g, '')}`] *)
Definition idText (id : option string) : string :=
  match id with
  | Some i => Notion.cleanId i
  | None => "undefined"
  end.

Definition createNotionClient (apiKey : option string) : result unit :=
  if JS.truthy apiKey then Ok tt
  else Err "NOTION_API_KEY is required. Add it to .env".

(** The request [createPage] sends. *)
Definition request (parentType parentId title : string) (blocks : list Block)
           (titleProperty : option string) : PageRequest :=
  mkRequest
    (if String.eqb parentType "database"
     then DatabaseParent (Notion.cleanId parentId)
     else PageParent (Notion.cleanId parentId))
    (if String.eqb parentType "database"
     then JS.orDefault titleProperty "Name"
     else "title")
    title blocks.

(** [createPage]: the [{ id, url }] it resolves to. *)
Definition createPage (w : World) (parentType parentId title : string)
           (blocks : list Block) (titleProperty : option string)
  : result (option string * string) :=
  match pages_create w (request parentType parentId title blocks titleProperty) with
  | Err e => Err e
  | Ok page =>
      Ok (page_id page,
          JS.orDefault (page_url page) ("https://notion.so/" +:+ idText (page_id page)))
  end.

(** The request [createSummaryPageFromMarkdown] has [createPage] send. *)
Definition summaryRequest (o : Options) (stem summaryMarkdown : string)
  : PageRequest :=
  request (parentType o) (parentId o) (Notion.displayTitle stem)
          (markdownToNotionBlocks summaryMarkdown) (titleProperty o).

Definition createSummaryPageFromMarkdown (w : World) (o : Options)
           (stem summaryMarkdown : string) : result (option string * string) :=
  createPage w (parentType o) (parentId o) (Notion.displayTitle stem)
             (markdownToNotionBlocks summaryMarkdown) (titleProperty o).

(** One element of the array [syncSummariesToNotion] resolves to. *)
Record Synced := mkSynced {
  synced_stem : string;
  synced_id : option string;
  synced_url : string;
  cached : bool
}.

(** The variables of the loop, and the requests sent to the store. *)
Record Progress := mkProgress {
  cache : gmap string Marker;
  results : list Synced;
  requests : list PageRequest
}.

(** Calling [replace] on a marker that is not a string. *)
Definition typeError : string := "cachedId.replace is not a function".

(** One turn of [for (const file of files)]: the state it leaves and how
    it ends. *)
Definition syncFile (w : World) (o : Options) (st : Progress) (file : string)
  : Progress * result unit :=
  let stem := stripSuffix file in
  if truthy (cache st !! stem) then
    match cache st !! stem with
    | Some (MString cachedId) =>
        (mkProgress (cache st)
           (results st ++
            [mkSynced stem (Some cachedId)
                      ("https://notion.so/" +:+ Notion.cleanId cachedId) true])
           (requests st),
         Ok tt)
    | _ => (st, Err typeError)
    end
  else
    match readFile w file with
    | Err e => (st, Err e)
    | Ok content =>
        let req := summaryRequest o (basename o file) content in
        let sent := mkProgress (cache st) (results st) (requests st ++ [req]) in
        match createSummaryPageFromMarkdown w o (basename o file) content with
        | Err e => (sent, Err e)
        | Ok (id, url) =>
            (mkProgress
               (match id with
                | Some i => <[stem := MString i]> (cache st)
                | None => delete stem (cache st)
                end)
               (results st ++ [mkSynced stem id url false])
               (requests sent),
             Ok tt)
        end
    end.

Fixpoint syncFiles (w : World) (o : Options) (files : list string)
         (st : Progress) : Progress * result unit :=
  match files with
  | [] => (st, Ok tt)
  | file :: rest =>
      match syncFile w o st file with
      | (st', Ok _) => syncFiles w o rest st'
      | (st', Err e) => (st', Err e)
      end
  end.

(** How a call ends: what it resolves to or throws, the cache file it
    leaves and the requests it has sent. *)
Record Outcome := mkOutcome {
  exit : result (list Synced);
  disk : File;
  sent : list PageRequest
}.

Definition summaryFiles (entries : list string) : list string :=
  filter (fun e => endsWith suffix e = true) entries.

Definition syncSummariesToNotion (w : World) (o : Options) (file : File)
  : Outcome :=
  match createNotionClient (apiKey o) with
  | Err e => mkOutcome (Err e) file []
  | Ok _ =>
      match readdir w with
      | Err e => mkOutcome (Err e) file []
      | Ok entries =>
          let start :=
            mkProgress (if force o then ∅ else loadCache file) [] [] in
          match syncFiles w o (summaryFiles entries) start with
          | (st, Err e) => mkOutcome (Err e) file (requests st)
          | (st, Ok _) =>
              match saveCache (cache st) file with
              | Ok written => mkOutcome (Ok (results st)) written (requests st)
              | Err e => mkOutcome (Err e) file (requests st)
              end
          end
      end
  end.

End Pages.

(** ** Device-flow login: [src/auth/github-oauth.js], [src/config.js] and
    [runDeviceFlowLogin], [getToken] in [src/scripts/sync.js] *)

Module Auth.

Definition defaultScope : string := "read:user repo".

(** [getGitHubOAuthConfig]: the client id and the scope. *)
Definition getGitHubOAuthConfig (GITHUB_CLIENT_ID : option string)
  : result (string * string) :=
  match GITHUB_CLIENT_ID with
  | Some (String a s) => Ok (String a s, defaultScope)
  | _ => Err "Missing GITHUB_CLIENT_ID. Set it in .env (see .env.example)."
  end.

(** The JSON of the device-code response. *)
Record DeviceData := mkDeviceData {
  device_error : option string;
  device_error_description : option string;
  device_code : option string;
  user_code : option string;
  verification_uri : option string;
  interval : option N
}.

Record Response := mkResponse {
  ok : bool;
  status : N;
  text : string;
  json : result DeviceData
}.

(** The JSON of the token response. *)
Record TokenData := mkTokenData {
  token_error : option string;
  token_error_description : option string;
  access_token : option string
}.

(** The two endpoints and the token file.  [post_token k] is the answer to
    the poll number [k], counted from 0. *)
Record World := mkWorld {
  post_device_code : string -> string -> result Response;
  post_token : nat -> string -> option string -> result TokenData;
  writeTokenFile : string -> result unit
}.

Record DeviceCode := mkDeviceCode {
  deviceCode : option string;
  userCode : option string;
  verificationUri : string;
  pollInterval : N
}.

Definition requestDeviceCode (w : World) (clientId : string)
           (scope : option string) : result DeviceCode :=
  match post_device_code w clientId (JS.orDefault scope defaultScope) with
  | Err e => Err e
  | Ok response =>
      if negb (ok response)
      then Err ("GitHub device code request failed: "
                  +:+ JS.numberToString (status response) +:+ " " +:+ text response)
      else
        match json response with
        | Err e => Err e
        | Ok data =>
            match device_error data with
            | Some (String a s) =>
                Err ("GitHub: " +:+ String a s +:+ " - "
                       +:+ JS.orDefault (device_error_description data) EmptyString
                       +:+ ". Enable Device flow in your OAuth app settings.")
            | _ =>
                Ok (mkDeviceCode
                      (device_code data) (user_code data)
                      (JS.orDefault (verification_uri data)
                                    "https://github.com/login/device")
                      (match interval data with
                       | Some n => if (n =? 0)%N then 5%N else n
                       | None => 5%N
                       end))
            end
        end
  end.

(** [pollForDeviceToken]: [Ok None] is the [null] that keeps the caller
    polling. *)
Definition pollForDeviceToken (w : World) (k : nat) (clientId : string)
           (deviceCode : option string) : result (option string) :=
  match post_token w k clientId deviceCode with
  | Err e => Err e
  | Ok data =>
      match token_error data with
      | Some (String a s) =>
          if String.eqb (String a s) "authorization_pending"
             || String.eqb (String a s) "slow_down"
          then Ok None
          else Err ("GitHub: " +:+ String a s +:+ " - "
                      +:+ JS.orDefault (token_error_description data) EmptyString)
      | _ =>
          match access_token data with
          | Some (String a s) => Ok (Some (String a s))
          | _ => Err "GitHub did not return an access token"
          end
      end
  end.

(** How a login ends: the token or the error, the content of the token
    file ([None]: not written) and the number of polls made. *)
Record Login := mkLogin {
  outcome : result string;
  tokenFile : option string;
  polls : nat
}.

(** [while (true)] of [runDeviceFlowLogin], from the poll number [k];
    [None]: no token and no error within [fuel] polls. *)
Fixpoint pollLoop (fuel : nat) (w : World) (clientId : string)
         (deviceCode : option string) (file : option string) (k : nat)
  : option Login :=
  match fuel with
  | O => None
  | S fuel' =>
      match pollForDeviceToken w k clientId deviceCode with
      | Err e => Some (mkLogin (Err e) file (S k))
      | Ok (Some token) =>
          match writeTokenFile w token with
          | Err e => Some (mkLogin (Err e) file (S k))
          | Ok _ => Some (mkLogin (Ok token) (Some token) (S k))
          end
      | Ok None => pollLoop fuel' w clientId deviceCode file (S k)
      end
  end.

Definition runDeviceFlowLogin (fuel : nat) (w : World)
           (GITHUB_CLIENT_ID : option string) (file : option string)
  : option Login :=
  match getGitHubOAuthConfig GITHUB_CLIENT_ID with
  | Err e => Some (mkLogin (Err e) file 0)
  | Ok (clientId, scope) =>
      match requestDeviceCode w clientId (Some scope) with
      | Err e => Some (mkLogin (Err e) file 0)
      | Ok code => pollLoop fuel w clientId (deviceCode code) file 0
      end
  end.

(** [getToken] of the sync script: the variable as it is, or the trimmed
    content of the token file; [file] is [None] when it cannot be read. *)
Definition getToken (GITHUB_TOKEN : option string) (file : option string)
  : option string :=
  match GITHUB_TOKEN with
  | Some (String a s) => Some (String a s)
  | _ =>
      match file with
      | Some content => Some (Blocks.trim content)
      | None => None
      end
  end.

End Auth.

(** ** The export script: [main] in [src/scripts/export-llm-payloads.js] *)

Module ExportScript.

Record World := mkWorld {
  GITHUB_TOKEN : option string;
  tokenFile : option string;
  createOctokit : string -> Fetcher.Octokit;
  JSON_stringify : Payload.LLMPackage -> string;
  writeFile : string -> string -> result unit
}.

(** [getToken] of the export script: the variable is trimmed too. *)
Definition getToken (w : World) : option string :=
  match GITHUB_TOKEN w with
  | Some (String a s) => Some (Blocks.trim (String a s))
  | _ =>
      match tokenFile w with
      | Some content => Some (Blocks.trim content)
      | None => None
      end
  end.

(** The output folder (entry name to content) and the stems reported as
    failed, with the message. *)
Record Folder := mkFolder {
  files : gmap string string;
  failed : list (string * string)
}.

(** [`${stem}.json`] *)
Definition payloadName (stem : string) : string := stem +:+ ".json".

(** The payload file of a PR: what [JSON.stringify(pkg, null, 2)] gives. *)
Definition payloadOf (w : World) (octokit : Fetcher.Octokit)
           (pr : PullRequest) : string :=
  JSON_stringify w (Payload.prToLLMPackage (Fetcher.enrichPR octokit pr)).

(** One turn of the loop of [main]. *)
Definition exportPR (w : World) (octokit : Fetcher.Octokit) (out : Folder)
           (pr : PullRequest) : Folder :=
  let stem := Stem.prToStem pr in
  let json := payloadOf w octokit pr in
  match writeFile w (payloadName stem) json with
  | Ok _ => mkFolder (<[payloadName stem := json]> (files out)) (failed out)
  | Err message => mkFolder (files out) (failed out ++ [(stem, message)])
  end.

Definition exportAll (w : World) (octokit : Fetcher.Octokit)
           (prs : list PullRequest) (out : Folder) : Folder :=
  fold_left (exportPR w octokit) prs out.

(** [main]: the exit code and the folder it leaves; [None] when the
    collector's page loop does not stop within [fuel] pages. *)
Definition main (fuel : nat) (w : World) (dir : gmap string string)
  : option (N * Folder) :=
  match getToken w with
  | Some (String a s) =>
      let octokit := createOctokit w (String a s) in
      match Fetcher.fetchMergedPRsForUser fuel octokit with
      | None => None
      | Some (Err _) => Some (1%N, mkFolder dir [])
      | Some (Ok prs) => Some (0%N, exportAll w octokit prs (mkFolder dir []))
      end
  | _ => Some (1%N, mkFolder dir [])
  end.

End ExportScript.

(** ** Sample data *)

Module Samples.

Definition widgets42 : PullRequest :=
  mkPR (Some "acme/widgets") (Some "acme/widgets") 42
       (Some "2024-03-05T10:00:00Z") "Add gears" (Some "Fixes #7") "https://example.test/42".

Definition widgets43 : PullRequest :=
  mkPR (Some "acme/widgets") (Some "acme/widgets") 43
       (Some "2024-03-06T09:30:00Z") "Oil gears" None "https://example.test/43".

(** The same number and merge time in another repository of the owner,
    one with an underscore in its name. *)
Definition my_widgets42 : PullRequest :=
  mkPR (Some "acme/my_widgets") (Some "acme/my_widgets") 42
       (Some "2024-03-05T10:00:00Z") "Add cogs" None "https://example.test/m42".

Definition undated : PullRequest :=
  mkPR None None 7 None "Draft" None "https://example.test/7".

(** Two repositories whose full names differ only in where the slash
    stands. *)
Definition octo_acme_repo : PullRequest :=
  mkPR (Some "octo_acme/repo") None 7 (Some "2024-03-05T10:00:00Z")
       "One" None "https://example.test/a".

Definition octo_acme__repo : PullRequest :=
  mkPR (Some "octo/acme_repo") None 7 (Some "2024-03-05T10:00:00Z")
       "Two" None "https://example.test/b".

Definition reviewed : EnrichedPR :=
  mkEnriched widgets42 (Some "diff --git a/gear.c b/gear.c")
    [mkComment "gear.c" "Why twelve teeth?" (Some "@@ -1,3 +1,4 @@");
     mkComment "gear.c" "Name this constant." (Some "@@ -9,2 +10,2 @@");
     mkComment "gear.c" "Thirteen would not mesh." (Some "@@ -1,3 +1,4 @@");
     mkComment "axle.c" "Unrelated rename?" (Some "@@ -4,1 +4,1 @@")]
    [mkIssue (JS.Finite 7) (Some "Gears slip") (Some EmptyString)]
    [mkFile "gear.c" "modified" 3 1 (Some "+teeth = 12;")].

(** A draft of the same change that was closed without being merged. *)
Definition widgets41 : PullRequest :=
  mkPR None (Some "acme/widgets") 41 None "Add gears (draft)" None
       "https://example.test/41".

Definition hit (n : N) : Fetcher.SearchItem :=
  Fetcher.mkItem "https://api.github.test/repos/acme/widgets" n.

(** The full record behind a hit. *)
Definition fullRecord (item : Fetcher.SearchItem) : PullRequest :=
  if (Fetcher.item_number item =? 42)%N
  then mkPR None (Some "acme/widgets") 42 (Some "2024-03-05T10:00:00Z")
            "Add gears" (Some "Fixes #7") "https://example.test/42"
  else if (Fetcher.item_number item =? 43)%N
  then mkPR None (Some "acme/widgets") 43 (Some "2024-03-06T09:30:00Z")
            "Oil gears" None "https://example.test/43"
  else widgets41.

(** A host whose search lists [hits]: the diff and the file list of 42
    are served, those of any other PR fail, and the review comments fail
    for every PR. *)
Definition hostWith (hits : list Fetcher.SearchItem) : Fetcher.Octokit :=
  Fetcher.mkOctokit
    (Ok "gearhead")
    (fun q size page => Ok (Fetcher.pageOf hits size page))
    (fun owner repo n =>
       if (n =? 42)%N || (n =? 41)%N || (n =? 43)%N then Ok (fullRecord (hit n))
       else Err "Not Found")
    (fun owner repo n =>
       if (n =? 42)%N then Ok (Fetcher.DiffText "diff --git a/gear.c b/gear.c")
       else Err "Not Found")
    (fun owner repo n =>
       if (n =? 42)%N
       then Ok (Some [mkFile "gear.c" "modified" 3 1 (Some "+teeth = 12;")])
       else Err "Not Found")
    (fun owner repo n => Err "Server Error")
    (fun owner repo n =>
       match n with
       | JS.Finite 7 => Ok (Fetcher.mkIssueData (Some "Gears slip") None)
       | _ => Err "Not Found"
       end).

(** One merged and one unmerged hit. *)
Definition host : Fetcher.Octokit := hostWith [hit 42; hit 41].

(** Two merged hits. *)
Definition busyHost : Fetcher.Octokit := hostWith [hit 42; hit 43].

(** What the collector returns from [busyHost]. *)
Definition collected : list PullRequest :=
  [Fetcher.withRepoFullName (fullRecord (hit 42));
   Fetcher.withRepoFullName (fullRecord (hit 43))].

Definition stem42 : string := "acme_widgets_PR42_2024-03-05".
Definition stem43 : string := "acme_widgets_PR43_2024-03-06".

Definition summary : string :=
  "**Problem**" +:+ String Blocks.LF "* gears slipped".

Definition summarizerUp (pkg : Payload.LLMPackage) : result string := Ok summary.

Definition summarizerDown (pkg : Payload.LLMPackage) : result string :=
  Err "Add to .env: GEMINI_API_KEY".

Definition noteStoreUp (block_id : string) (children : list Blocks.Block)
  : result unit := Ok tt.

Definition noteStoreDown (block_id : string) (children : list Blocks.Block)
  : result unit := Err "validation_error".

Definition pageId : string := "1f2e-3d4c".

(** A run over [busyHost] that selects every PR. *)
Definition syncEnv (force : bool)
           (summarizer : Payload.LLMPackage -> result string)
           (noteStore : string -> list Blocks.Block -> result unit) : Sync.Env :=
  Sync.mkEnv force None (Some "secret_key") (Some pageId) busyHost
             (fun total => total) summarizer noteStore.

(** Runs without force: everything up, the summarizer down, the note
    store down. *)
Definition envUp : Sync.Env := syncEnv false summarizerUp noteStoreUp.
Definition envNoSummarizer : Sync.Env := syncEnv false summarizerDown noteStoreUp.
Definition envNoNoteStore : Sync.Env := syncEnv false summarizerUp noteStoreDown.
Definition envDown : Sync.Env := syncEnv false summarizerDown noteStoreDown.


Definition pr42 : PullRequest := Fetcher.withRepoFullName (fullRecord (hit 42)).
Definition pr43 : PullRequest := Fetcher.withRepoFullName (fullRecord (hit 43)).

(** The run [envUp] on no cache file, stopped after its first turn. *)
Definition stopped : Sync.Machine :=
  Sync.afterTurns envUp pageId Cache.NoFile collected 1.

(** The run [envUp] on no cache file, complete. *)
Definition firstRun : Sync.Machine :=
  Sync.finish envUp pageId Cache.NoFile collected.

(** A summary of three lines: a heading, a bullet and plain text. *)
Definition markdown : string :=
  "**Problem**" +:+ String Blocks.LF ("* bullet one" +:+ String Blocks.LF "plain text").

(** A cache file left by an earlier run over another repository. *)
Definition staleFile : Cache.File :=
  Cache.JsonObject (<["acme_gadgets_PR5_2023-01-01" := Cache.MBool true]> ∅).

(** A cache file that holds the stem of PR 42 with the marker [false]. *)
Definition falsyFile : Cache.File :=
  Cache.JsonObject (<[stem42 := Cache.MBool false]> ∅).










(** A host whose second hit has no full record. *)
Definition brokenHost : Fetcher.Octokit := hostWith [hit 42; hit 99].

(** A host that answers every page of the search with thirty hits. *)
Definition endlessHost : Fetcher.Octokit :=
  Fetcher.mkOctokit
    (Ok "gearhead")
    (fun q size page => Ok (replicate 30 (hit 42)))
    (fun owner repo n => Ok (fullRecord (hit n)))
    (fun owner repo n => Err "Not Found")
    (fun owner repo n => Err "Not Found")
    (fun owner repo n => Err "Not Found")
    (fun owner repo n => Err "Not Found").

(** A summary with Windows line endings removed: the text of [markdown]
    is free of carriage returns. *)
Definition twoLines : string := "**Problem**" +:+ String Blocks.LF "* gears slipped".

(** No key and no project for the summarizer, with the Vertex flag set. *)
Definition noCredentials : Summarizer.GenAIEnv :=
  Summarizer.mkGenAIEnv None (Some EmptyString) None (Some "true") None.

(** A model service that always answers with [summary]; the serializer
    is a stand-in that keeps the title. *)
Definition gemini : Summarizer.Gemini :=
  Summarizer.mkGemini (fun client model contents => Ok (Some summary))
                      (fun pkg => Payload.meta_title (Payload.metadata pkg)).

(** A summaries folder with two summary files and another file. *)
Definition summariesDir : list string :=
  [stem42 +:+ "_summary.md"; "notes.txt"; stem43 +:+ "_summary.md"].

(** A note store that creates every page, and one that refuses. *)
Definition notebook : Pages.World :=
  Pages.mkWorld (Ok summariesDir) (fun file => Ok summary)
                (fun req => Ok (Pages.mkPage (Some "0a1b-2c3d") None)).

Definition notebookDown : Pages.World :=
  Pages.mkWorld (Ok summariesDir) (fun file => Ok summary)
                (fun req => Err "validation_error").

Definition pageOptions : Pages.Options :=
  Pages.mkOptions (Some "secret_key") "page" pageId None false false.

(** A login that is authorized at the third poll. *)
Definition github : Auth.World :=
  Auth.mkWorld
    (fun clientId scope =>
       Ok (Auth.mkResponse true 200 EmptyString
             (Ok (Auth.mkDeviceData None None (Some "device-1") (Some "ABCD-1234")
                                    None None))))
    (fun k clientId code =>
       if (k <? 2)%nat
       then Ok (Auth.mkTokenData (Some "authorization_pending") None None)
       else Ok (Auth.mkTokenData None None (Some "gho_token")))
    (fun token => Ok tt).

Definition deviceCode : Auth.DeviceCode :=
  Auth.mkDeviceCode (Some "device-1") (Some "ABCD-1234")
                    "https://github.com/login/device" 5.

(** An export whose writes all succeed. *)
Definition exportWorld : ExportScript.World :=
  ExportScript.mkWorld (Some "gho_token") None (fun token => busyHost)
                       (fun pkg => Payload.meta_title (Payload.metadata pkg))
                       (fun path content => Ok tt).

End Samples.

(** * Properties *)

(** ** Strings *)

(** stdpp keeps [String.append] folded; the proofs below compute with it. *)
#[local] Arguments String.append !_ _ : simpl nomatch.

Section StringFacts.

Lemma append_assoc (a b c : string) : (a +:+ b) +:+ c = a +:+ (b +:+ c).
Proof. induction a as [|x a IH]; simpl; [reflexivity | now rewrite IH]. Qed.

Lemma append_empty_r (a : string) : a +:+ EmptyString = a.
Proof. induction a as [|x a IH]; simpl; [reflexivity | now rewrite IH]. Qed.

Lemma length_append (a b : string) :
  String.length (a +:+ b) = String.length a + String.length b.
Proof. induction a as [|x a IH]; simpl; [reflexivity | now rewrite IH]. Qed.

Lemma occurs_append (c : ascii) (a b : string) :
  JS.occurs c (a +:+ b) = JS.occurs c a || JS.occurs c b.
Proof.
  induction a as [|x a IH]; simpl; [reflexivity |].
  now rewrite IH, orb_assoc.
Qed.

(** A string is cut in one way only at its last occurrence of [c]. *)
Lemma cut_at_last (c : ascii) (a b t u : string) :
  JS.occurs c t = false -> JS.occurs c u = false ->
  a +:+ String c t = b +:+ String c u -> a = b /\ t = u.
Proof.
  intros Ht Hu. revert b.
  induction a as [|x a IH]; intros [|y b] E; simpl in E.
  - injection E as ->. split; reflexivity.
  - injection E as <- ->.
    rewrite occurs_append in Ht. simpl in Ht.
    rewrite Ascii.eqb_refl, orb_true_r in Ht. discriminate.
  - injection E as -> <-.
    rewrite occurs_append in Hu. simpl in Hu.
    rewrite Ascii.eqb_refl, orb_true_r in Hu. discriminate.
  - injection E as -> E. destruct (IH _ E) as [-> ->].
    split; reflexivity.
Qed.

(** ... and in one way only at its first occurrence of [c]. *)
Lemma cut_at_first (c : ascii) (a b t u : string) :
  JS.occurs c a = false -> JS.occurs c b = false ->
  a +:+ String c t = b +:+ String c u -> a = b /\ t = u.
Proof.
  revert b. induction a as [|x a IH]; intros [|y b] Ha Hb E; simpl in *.
  - injection E as ->. split; reflexivity.
  - injection E as <- _. rewrite Ascii.eqb_refl in Hb. discriminate.
  - injection E as -> _. rewrite Ascii.eqb_refl in Ha. discriminate.
  - injection E as -> E.
    apply orb_false_elim in Ha as [_ Ha]. apply orb_false_elim in Hb as [_ Hb].
    destruct (IH _ Ha Hb E) as [-> ->]. split; reflexivity.
Qed.

Lemma replaceAll_absent (c : ascii) (d s : string) :
  JS.occurs c s = false -> JS.replaceAll c d s = s.
Proof.
  induction s as [|x s IH]; simpl; [reflexivity |].
  intros H. apply orb_false_elim in H as [Hx Hs].
  rewrite Hx. now rewrite IH.
Qed.

Lemma replaceAll_append (c : ascii) (d a b : string) :
  JS.replaceAll c d (a +:+ b) = JS.replaceAll c d a +:+ JS.replaceAll c d b.
Proof.
  induction a as [|x a IH]; simpl; [reflexivity |].
  rewrite IH. destruct (Ascii.eqb x c); [| reflexivity].
  now rewrite append_assoc.
Qed.

(** Replacing [c] by the one character [d] loses nothing on strings that
    hold no [d]. *)
Lemma replaceAll_char_inj (c d : ascii) (s t : string) :
  JS.occurs d s = false -> JS.occurs d t = false ->
  JS.replaceAll c (String d EmptyString) s
  = JS.replaceAll c (String d EmptyString) t ->
  s = t.
Proof.
  revert t. induction s as [|x s IH]; intros [|y t] Hs Ht E; simpl in *;
    try reflexivity.
  - destruct (Ascii.eqb y c); discriminate.
  - destruct (Ascii.eqb x c); discriminate.
  - apply orb_false_elim in Hs as [Hx Hs].
    apply orb_false_elim in Ht as [Hy Ht].
    destruct (Ascii.eqb_spec x c) as [->|Nx], (Ascii.eqb_spec y c) as [->|Ny];
      simpl in E.
    + injection E as E. f_equal. now apply IH.
    + injection E as E1 E. subst y. rewrite Ascii.eqb_refl in Hy. discriminate.
    + injection E as E1 E. subst x. rewrite Ascii.eqb_refl in Hx. discriminate.
    + injection E as E1 E. subst y. f_equal. now apply IH.
Qed.

Lemma occurs_slice0 (c : ascii) (n : nat) (s : string) :
  JS.occurs c s = false -> JS.occurs c (JS.slice0 n s) = false.
Proof.
  revert n. induction s as [|x s IH]; intros [|n] H; simpl in *;
    try reflexivity.
  apply orb_false_elim in H as [Hx Hs].
  now rewrite Hx, IH.
Qed.

(** The decimal rendering holds digits only. *)
Lemma occurs_string_of_uint (c : ascii) (d : Decimal.uint) :
  Fetcher.isDigit c = false ->
  JS.occurs c (NilEmpty.string_of_uint d) = false.
Proof.
  intros Hc.
  induction d; cbn [NilEmpty.string_of_uint JS.occurs]; try reflexivity;
    rewrite IHd, orb_false_r; apply Ascii.eqb_neq; intros <-; discriminate.
Qed.

Lemma occurs_numberToString (c : ascii) (n : N) :
  Fetcher.isDigit c = false -> JS.occurs c (JS.numberToString n) = false.
Proof. apply occurs_string_of_uint. Qed.

Lemma numberToString_inj (m n : N) :
  JS.numberToString m = JS.numberToString n -> m = n.
Proof.
  unfold JS.numberToString. intros E.
  apply DecimalN.Unsigned.to_uint_inj.
  assert (H : Some (N.to_uint m) = Some (N.to_uint n))
    by (rewrite <- !NilEmpty.usu; now rewrite E).
  now injection H.
Qed.

End StringFacts.

(** ** The stem deriver *)

Section StemFacts.
Import Stem.

Lemma prToStem_unfold (pr : PullRequest) :
  prToStem pr
  = (JS.replaceAll "/" "_" (repoName pr)
     +:+ String "_" ("PR" +:+ JS.numberToString (number pr)))
    +:+ String "_" (merged pr).
Proof.
  unfold prToStem. now rewrite append_assoc.
Qed.

Lemma safeRepo_owner_repo (owner repo : string) :
  JS.occurs "/" owner = false -> JS.occurs "/" repo = false ->
  JS.replaceAll "/" "_" (owner +:+ "/" +:+ repo) = owner +:+ "_" +:+ repo.
Proof.
  intros Ho Hr. rewrite replaceAll_append, (replaceAll_absent _ _ owner Ho).
  simpl. now rewrite (replaceAll_absent _ _ repo Hr).
Qed.

(** On names of the form [owner/repo] the slash can be put back. *)
Lemma safeRepo_inj (name1 name2 : string) :
  OwnerSlashRepo name1 -> OwnerSlashRepo name2 ->
  JS.replaceAll "/" "_" name1 = JS.replaceAll "/" "_" name2 ->
  name1 = name2.
Proof.
  intros (o1 & r1 & -> & Hu1 & Ho1 & Hr1) (o2 & r2 & -> & Hu2 & Ho2 & Hr2) E.
  rewrite !safeRepo_owner_repo in E by assumption.
  apply cut_at_first in E as [-> ->]; auto.
Qed.

(** The stem determines the three slots it is built from, as long as the
    repository names have the form [owner/repo] and the date slots hold no
    underscore. *)
Lemma prToStem_slots (p q : PullRequest) :
  OwnerSlashRepo (repoName p) -> OwnerSlashRepo (repoName q) ->
  JS.occurs "_" (merged p) = false -> JS.occurs "_" (merged q) = false ->
  prToStem p = prToStem q ->
  repoName p = repoName q /\ number p = number q /\ merged p = merged q.
Proof.
  intros Hrp Hrq Hmp Hmq E. rewrite !prToStem_unfold in E.
  apply cut_at_last in E as [E Em]; [| assumption | assumption].
  apply cut_at_last in E as [Er En].
  - injection En as En. apply numberToString_inj in En.
    apply safeRepo_inj in Er; auto.
  - simpl. now rewrite occurs_numberToString.
  - simpl. now rewrite occurs_numberToString.
Qed.

End StemFacts.

(** C8: the stem is [{owner}_{repo}_PR{number}_{date}], the date being the
    first ten characters of the merge timestamp; a missing repository name and
    a missing merge date are each replaced by [unknown]. The PR of repository
    [acme/widgets], number 42, merged at [2024-03-05T10:00:00Z] has the stem
    [acme_widgets_PR42_2024-03-05], and the stem of a PR without a merge date
    ends in [_unknown]. *)
Theorem prToStem_derivation :
  (forall base t b u,
      Stem.prToStem (mkPR (Some "acme/widgets") base 42
                          (Some "2024-03-05T10:00:00Z") t b u)
      = "acme_widgets_PR42_2024-03-05")
  /\ (forall pr owner repo ts,
        JS.or (repoFullName pr) (base_repo_full_name pr)
        = Some (owner +:+ "/" +:+ repo) ->
        JS.occurs "/" owner = false -> JS.occurs "/" repo = false ->
        merged_at pr = Some ts -> ts <> EmptyString ->
        Stem.prToStem pr
        = owner +:+ "_" +:+ repo +:+ "_PR" +:+ JS.numberToString (number pr)
                +:+ "_" +:+ JS.slice0 10 ts)
  /\ (forall pr,
        JS.truthy (JS.or (repoFullName pr) (base_repo_full_name pr)) = false ->
        Stem.prToStem pr
        = "unknown" +:+ "_PR" +:+ JS.numberToString (number pr)
                    +:+ "_" +:+ Stem.merged pr)
  /\ (forall pr,
        JS.truthy (merged_at pr) = false ->
        Stem.prToStem pr
        = JS.replaceAll "/" "_" (Stem.repoName pr) +:+ "_PR"
            +:+ JS.numberToString (number pr) +:+ "_unknown").
Proof.
  split; [| split; [| split]].
  - intros. reflexivity.
  - intros pr owner repo ts Hname Ho Hr Hm Hts.
    unfold Stem.prToStem, Stem.repoName, Stem.merged. rewrite Hname, Hm.
    destruct ts as [|a ts]; [contradiction |].
    assert (Hne : JS.orDefault (Some (owner +:+ "/" +:+ repo)) "unknown"
                  = owner +:+ "/" +:+ repo).
    { destruct owner; reflexivity. }
    rewrite Hne, replaceAll_append, (replaceAll_absent _ _ owner Ho).
    simpl. rewrite (replaceAll_absent _ _ repo Hr).
    now rewrite !append_assoc.
  - intros pr H. unfold Stem.prToStem, Stem.repoName.
    destruct (JS.or _ _) as [[|a s]|]; try discriminate; reflexivity.
  - intros pr H. unfold Stem.prToStem, Stem.merged.
    destruct (merged_at pr) as [[|a s]|]; try discriminate; reflexivity.
Qed.

Lemma prToStem_derivation_witness :
  JS.truthy (merged_at Samples.undated) = false
  /\ Stem.prToStem Samples.undated = "unknown_PR7_unknown".
Proof.
  split; [reflexivity |].
  exact (proj2 (proj2 (proj2 prToStem_derivation)) Samples.undated eq_refl).
Defined.

(** C9, counterexample: two PRs with different repository names, the same
    number and the same merge timestamp have the same stem. *)
Lemma prToStem_collision :
  Stem.identity Samples.octo_acme_repo <> Stem.identity Samples.octo_acme__repo
  /\ Stem.prToStem Samples.octo_acme_repo = Stem.prToStem Samples.octo_acme__repo.
Proof. split; [discriminate | reflexivity]. Qed.

(** C9, in the form that holds: two PRs whose repository full names have the
    form [owner/repo], with no underscore in the owner, and whose date slots
    (the first ten characters of the merge timestamp, [unknown] without one)
    hold no underscore have different stems as soon as they differ in the
    repository name, in the number, or in the date slot. *)
Theorem prToStem_distinct (p q : PullRequest) :
  Stem.OwnerSlashRepo (Stem.repoName p) ->
  Stem.OwnerSlashRepo (Stem.repoName q) ->
  JS.occurs "_" (Stem.merged p) = false ->
  JS.occurs "_" (Stem.merged q) = false ->
  (Stem.repoName p, number p, Stem.merged p)
  <> (Stem.repoName q, number q, Stem.merged q) ->
  Stem.prToStem p <> Stem.prToStem q.
Proof.
  intros Hrp Hrq Hmp Hmq Hne E. apply Hne.
  destruct (prToStem_slots p q Hrp Hrq Hmp Hmq E) as (-> & -> & ->).
  reflexivity.
Qed.

Lemma prToStem_distinct_witness :
  Stem.prToStem Samples.widgets42 <> Stem.prToStem Samples.my_widgets42.
Proof.
  apply (prToStem_distinct Samples.widgets42 Samples.my_widgets42).
  - exists "acme", "widgets". repeat split.
  - exists "acme", "my_widgets". repeat split.
  - reflexivity.
  - reflexivity.
  - discriminate.
Defined.

(** ** The payload assembler *)

Section PayloadFacts.
Import Payload.

Lemma hunkId_inj (m n : N) : hunkId m = hunkId n -> m = n.
Proof.
  unfold hunkId. simpl. intros E. injection E as E.
  now apply numberToString_inj.
Qed.

Lemma firstSeen_elem (x : string) (l : list string) :
  x ∈ firstSeen l <-> x ∈ l.
Proof.
  induction l as [|y l IH]; simpl; [reflexivity |].
  rewrite !elem_of_cons, list_elem_of_filter, IH.
  destruct (decide (x = y)); tauto.
Qed.

Lemma firstSeen_NoDup (l : list string) : NoDup (firstSeen l).
Proof.
  induction l as [|y l IH]; simpl; constructor.
  - rewrite list_elem_of_filter. tauto.
  - now apply NoDup_filter.
Qed.

Lemma firstSeen_snoc (l : list string) (x : string) :
  firstSeen (l ++ [x])
  = if decide (x ∈ firstSeen l) then firstSeen l else (firstSeen l ++ [x])%list.
Proof.
  induction l as [|y l IH]; simpl.
  - reflexivity.
  - destruct (decide (x ∈ y :: filter (fun z => z <> y) (firstSeen l)))
      as [Hin | Hnin]; rewrite IH; rewrite elem_of_cons, list_elem_of_filter in *.
    + case_decide as H; [reflexivity |].
      assert (x = y) as -> by tauto.
      rewrite filter_app, filter_cons_False, filter_nil, app_nil_r; tauto.
    + case_decide as H; [tauto |].
      rewrite filter_app, filter_cons_True, filter_nil; [reflexivity |].
      intros ->. tauto.
Qed.

Lemma numbered_snoc (start : N) (l : list string) (h : string) :
  numbered start (l ++ [h])
  = numbered start l ++ [(hunkId (start + N.of_nat (length l) + 1), h)].
Proof.
  revert start. induction l as [|y l IH]; intros start; simpl.
  - now rewrite N.add_0_r.
  - rewrite IH.
    replace (start + 1 + N.of_nat (length l) + 1)%N
      with (start + N.of_nat (S (length l)) + 1)%N by lia.
    reflexivity.
Qed.

Lemma numbered_elem (start : N) (l : list string) (id h : string) :
  (id, h) ∈ numbered start l ->
  h ∈ l /\ exists j, (start < j <= start + N.of_nat (length l))%N /\ id = hunkId j.
Proof.
  revert start. induction l as [|y l IH]; intros start; simpl.
  - intros H. inversion H.
  - rewrite elem_of_cons. intros [E | H].
    + injection E as -> ->. split; [apply list_elem_of_here |].
      exists (start + 1)%N. split; [lia | reflexivity].
    + destruct (IH _ H) as (Hl & j & Hj & ->).
      split; [now apply list_elem_of_further |].
      exists j. split; [lia | reflexivity].
Qed.

Lemma numbered_covers (start : N) (l : list string) (h : string) :
  h ∈ l -> exists id, (id, h) ∈ numbered start l.
Proof.
  revert start. induction l as [|y l IH]; intros start H; simpl.
  - inversion H.
  - apply elem_of_cons in H as [-> | H].
    + eexists. apply list_elem_of_here.
    + destruct (IH (start + 1)%N H) as [id Hid].
      exists id. now apply list_elem_of_further.
Qed.

Lemma objSet_fresh (key value : string) (obj : list (string * string)) :
  (forall v, (key, v) ∉ obj) -> objSet key value obj = obj ++ [(key, value)].
Proof.
  induction obj as [|[k v] obj IH]; intros Hfresh; simpl; [reflexivity |].
  destruct (String.eqb_spec k key) as [->|Hk].
  - exfalso. apply (Hfresh v), list_elem_of_here.
  - rewrite IH; [reflexivity |].
    intros v' Hv'. apply (Hfresh v'). now apply list_elem_of_further.
Qed.

Lemma scanComments_snoc (cs : list ReviewComment) (c : ReviewComment) :
  scanComments (cs ++ [c]) = scanComment (scanComments cs) c.
Proof. unfold scanComments. now rewrite fold_left_app. Qed.

Lemma contexts_snoc (cs : list ReviewComment) (c : ReviewComment) :
  contexts (cs ++ [c])
  = contexts cs ++ match diff_hunk c with
                   | Some (String a s) => [String a s]
                   | _ => []
                   end.
Proof.
  unfold contexts. rewrite omap_app. f_equal. simpl.
  destruct (diff_hunk c) as [[|a s]|]; reflexivity.
Qed.

Lemma scanComments_scanned (cs : list ReviewComment) :
  Scanned cs (scanComments cs).
Proof.
  induction cs as [|c cs IH] using rev_ind.
  - split; try reflexivity. intros h id. simpl.
    rewrite lookup_empty. split; [discriminate | intros H; inversion H].
  - rewrite scanComments_snoc. destruct IH as [Ht Hi Hids].
    set (st := scanComments cs) in *.
    pose proof (contexts_snoc cs c) as Hc.
    unfold scanComment.
    destruct (diff_hunk c) as [[|a s]|].
    1, 3: rewrite app_nil_r in Hc; split; rewrite ?Hc; assumption.
    set (h := String a s) in *.
    pose proof (firstSeen_snoc (contexts cs) h) as Hf. rewrite <- Hc in Hf.
    destruct (hunkToId st !! h) as [id|] eqn:Hl.
    + apply Hids in Hl. rewrite Ht in Hl.
      apply numbered_elem in Hl as [Hin _].
      rewrite decide_True in Hf by assumption.
      split; rewrite ?Hf; assumption.
    + assert (Hnin : h ∉ firstSeen (contexts cs)).
      { intros Hin. destruct (numbered_covers 0 _ _ Hin) as [id Hid].
        rewrite <- Ht in Hid. apply Hids in Hid. congruence. }
      rewrite decide_False in Hf by assumption.
      assert (Htab : objSet (hunkId (hunkIndex st + 1)) h (hunkTable st)
                     = hunkTable st ++ [(hunkId (hunkIndex st + 1), h)]).
      { apply objSet_fresh. intros v Hv. rewrite Ht in Hv.
        apply numbered_elem in Hv as (_ & j & Hj & E).
        apply hunkId_inj in E. lia. }
      split; cbn [hunkTable hunkIndex hunkToId]; rewrite ?Hf, ?Htab.
      * rewrite numbered_snoc, Ht, Hi. reflexivity.
      * rewrite length_app, Hi. simpl. lia.
      * intros h' id'. rewrite elem_of_app, list_elem_of_singleton.
        destruct (decide (h = h')) as [<-|Hne].
        -- rewrite lookup_insert_eq. split.
           ++ intros E. injection E as <-. now right.
           ++ intros [Hin | E]; [| now injection E as ->].
              exfalso. rewrite Ht in Hin.
              apply numbered_elem in Hin as [Hin _]. contradiction.
        -- rewrite lookup_insert_ne by assumption. rewrite Hids.
           split; [now left |]. intros [Hin | E]; [assumption |].
           injection E as _ E. congruence.
Qed.

End PayloadFacts.

Section PayloadClaims.
Import Payload.

Lemma prToLLMPackage_table (e : EnrichedPR) :
  diffHunks (prToLLMPackage e)
  = match numbered 0 (firstSeen (contexts (reviewComments e))) with
    | [] => None
    | entry :: table => Some (entry :: table)
    end.
Proof.
  unfold prToLLMPackage. cbn [diffHunks].
  rewrite (scanned_table _ _ (scanComments_scanned (reviewComments e))).
  now destruct (numbered _ _).
Qed.

Lemma prToLLMPackage_comment (e : EnrichedPR) (i : nat) (c : ReviewComment) :
  reviewComments e !! i = Some c ->
  exists ref,
    comments (prToLLMPackage e) !! i
    = Some (mkOut (path c) (comment_body c) ref)
    /\ match diff_hunk c with
       | Some (String a s) =>
           exists id, ref = Some id
             /\ (id, String a s)
                  ∈ numbered 0 (firstSeen (contexts (reviewComments e)))
       | _ => ref = None
       end.
Proof.
  intros Hi. unfold prToLLMPackage. cbn [comments].
  pose proof (scanComments_scanned (reviewComments e)) as [Ht _ Hids].
  change (List.map ?f ?l) with (f <$> l).
  rewrite list_lookup_fmap, Hi. cbn [fmap option_fmap option_map].
  eexists. split; [reflexivity |].
  destruct (diff_hunk c) as [[|a s]|] eqn:Hd; try reflexivity.
  assert (Hin : String a s ∈ firstSeen (contexts (reviewComments e))).
  { apply firstSeen_elem. unfold contexts. apply list_elem_of_omap.
    exists c. split; [eapply list_elem_of_lookup_2; eassumption |].
    now rewrite Hd. }
  destruct (numbered_covers 0 _ _ Hin) as [id Hid].
  exists id. split; [| assumption].
  apply Hids. now rewrite Ht.
Qed.

Lemma contexts_constant (cs : list ReviewComment) (a : ascii) (s : string) :
  (forall c, c ∈ cs -> diff_hunk c = Some (String a s)) ->
  contexts cs = replicate (length cs) (String a s).
Proof.
  induction cs as [|c cs IH]; intros H; [reflexivity |].
  unfold contexts in *. cbn [omap list_omap length replicate].
  rewrite (H c) by apply list_elem_of_here. cbn. f_equal.
  apply IH. intros c' Hc'. apply H. now apply list_elem_of_further.
Qed.

Lemma firstSeen_replicate (n : nat) (h : string) :
  firstSeen (replicate (S n) h) = [h].
Proof.
  induction n as [|n IH]; [reflexivity |].
  change (replicate (S (S n)) h) with (h :: replicate (S n) h).
  cbn [firstSeen]. rewrite IH.
  rewrite filter_cons_False, filter_nil; [reflexivity | tauto].
Qed.

End PayloadClaims.

(** C1: the hunk table lists the distinct non-empty diff contexts of the
    review comments in the order of their first occurrence, numbered [hunk_1],
    [hunk_2], ...; a comment with a non-empty context carries the identifier
    of its context and a comment without one carries none. So N comments with
    one and the same context give a table of one entry and N equal references,
    and the contexts A, B, A, C give A -> hunk_1, B -> hunk_2, C -> hunk_3. *)
Theorem prToLLMPackage_hunks :
  (forall e : EnrichedPR,
      let table :=
        Payload.numbered 0 (Payload.firstSeen (Payload.contexts (reviewComments e))) in
      Payload.diffHunks (Payload.prToLLMPackage e)
      = match table with [] => None | _ :: _ => Some table end
      /\ forall i c,
          reviewComments e !! i = Some c ->
          exists ref,
            Payload.comments (Payload.prToLLMPackage e) !! i
            = Some (Payload.mkOut (path c) (comment_body c) ref)
            /\ match diff_hunk c with
               | Some (String a s) =>
                   exists id, ref = Some id /\ (id, String a s) ∈ table
               | _ => ref = None
               end)
  /\ (forall (e : EnrichedPR) (h : string),
        h <> EmptyString ->
        reviewComments e <> [] ->
        (forall c, c ∈ reviewComments e -> diff_hunk c = Some h) ->
        Payload.diffHunks (Payload.prToLLMPackage e) = Some [("hunk_1", h)]
        /\ forall out, out ∈ Payload.comments (Payload.prToLLMPackage e) ->
                       Payload.hunkRef out = Some "hunk_1")
  /\ (forall (e : EnrichedPR) (A B C : string) (c1 c2 c3 c4 : ReviewComment),
        A <> EmptyString -> B <> EmptyString -> C <> EmptyString ->
        A <> B -> A <> C -> B <> C ->
        reviewComments e = [c1; c2; c3; c4] ->
        diff_hunk c1 = Some A -> diff_hunk c2 = Some B ->
        diff_hunk c3 = Some A -> diff_hunk c4 = Some C ->
        Payload.diffHunks (Payload.prToLLMPackage e)
        = Some [("hunk_1", A); ("hunk_2", B); ("hunk_3", C)]
        /\ Payload.hunkRef <$> Payload.comments (Payload.prToLLMPackage e)
           = [Some "hunk_1"; Some "hunk_2"; Some "hunk_1"; Some "hunk_3"]).
Proof.
  split; [| split].
  - intros e table. split.
    + rewrite prToLLMPackage_table. subst table.
      now destruct (Payload.numbered _ _).
    + intros i c Hi. now apply prToLLMPackage_comment.
  - intros e h Hh Hne Hall.
    destruct h as [|a s]; [contradiction |].
    assert (Hu : Payload.firstSeen (Payload.contexts (reviewComments e))
                 = [String a s]).
    { rewrite (contexts_constant _ a s Hall).
      destruct (reviewComments e) as [|c cs]; [contradiction |].
      apply firstSeen_replicate. }
    split.
    + rewrite prToLLMPackage_table, Hu. reflexivity.
    + intros out Hout. apply list_elem_of_lookup in Hout as [i Hi].
      assert (Hlen : is_Some (reviewComments e !! i)).
      { apply lookup_lt_is_Some. apply lookup_lt_Some in Hi.
        unfold Payload.prToLLMPackage in Hi. cbn [Payload.comments] in Hi.
        now rewrite length_map in Hi. }
      destruct Hlen as [c Hc].
      destruct (prToLLMPackage_comment e i c Hc) as (ref & Hout & Href).
      rewrite Hi in Hout. injection Hout as ->.
      rewrite (Hall c) in Href by (eapply list_elem_of_lookup_2; eassumption).
      destruct Href as (id & -> & Hid). rewrite Hu in Hid.
      apply list_elem_of_singleton in Hid. now injection Hid as ->.
  - intros e A B C c1 c2 c3 c4 HA HB HC HAB HAC HBC Hcs H1 H2 H3 H4.
    destruct A as [|a1 A]; [contradiction |].
    destruct B as [|a2 B]; [contradiction |].
    destruct C as [|a3 C]; [contradiction |].
    pose (sA := String a1 A). pose (sB := String a2 B). pose (sC := String a3 C).
    assert (Hu : Payload.firstSeen (Payload.contexts (reviewComments e))
                 = [sA; sB; sC]).
    { rewrite Hcs. unfold Payload.contexts. cbn [omap list_omap].
      rewrite H1, H2, H3, H4. cbn [Payload.firstSeen]. subst sA sB sC.
      repeat first
        [ rewrite filter_nil
        | rewrite filter_cons_True by congruence
        | rewrite filter_cons_False by (intros Hn; apply Hn; reflexivity) ].
      reflexivity. }
    split.
    + rewrite prToLLMPackage_table, Hu. reflexivity.
    + assert (Href : forall i c x,
                 reviewComments e !! i = Some c -> diff_hunk c = Some x ->
                 x ∈ [sA; sB; sC] ->
                 exists id, Payload.hunkRef <$> Payload.comments (Payload.prToLLMPackage e) !! i
                            = Some (Some id)
                            /\ (id, x) ∈ [("hunk_1", sA); ("hunk_2", sB); ("hunk_3", sC)]).
      { intros i c x Hi Hx Hin.
        destruct (prToLLMPackage_comment e i c Hi) as (ref & Hout & Hr).
        rewrite Hx in Hr.
        assert (exists a s, x = String a s) as (a & s & ->).
        { rewrite !elem_of_cons in Hin.
          destruct Hin as [-> | [-> | [-> | Hin]]]; [eauto | eauto | eauto | inversion Hin]. }
        destruct Hr as (id & -> & Hid). rewrite Hu in Hid.
        exists id. rewrite Hout. split; [reflexivity | exact Hid]. }
      assert (Hlen : length (Payload.comments (Payload.prToLLMPackage e)) = 4%nat).
      { unfold Payload.prToLLMPackage. cbn [Payload.comments].
        now rewrite length_map, Hcs. }
      destruct (Payload.comments (Payload.prToLLMPackage e))
        as [|o1 [|o2 [|o3 [|o4 [|o5 os]]]]]; try discriminate.
      rewrite Hcs in Href.
      destruct (Href 0%nat c1 sA eq_refl H1) as (i1 & E1 & M1);
        [rewrite !elem_of_cons; tauto |].
      destruct (Href 1%nat c2 sB eq_refl H2) as (i2 & E2 & M2);
        [rewrite !elem_of_cons; tauto |].
      destruct (Href 2%nat c3 sA eq_refl H3) as (i3 & E3 & M3);
        [rewrite !elem_of_cons; tauto |].
      destruct (Href 3%nat c4 sC eq_refl H4) as (i4 & E4 & M4);
        [rewrite !elem_of_cons; tauto |].
      cbn in E1, E2, E3, E4. cbn.
      injection E1 as ->. injection E2 as ->. injection E3 as ->. injection E4 as ->.
      rewrite !elem_of_cons in M1, M2, M3, M4.
      repeat match goal with
             | H : _ \/ _ |- _ => destruct H as [H | H]
             | H : (_, _) = (_, _) |- _ => injection H as ? ?; subst
             | H : _ ∈ [] |- _ => inversion H
             end; try congruence.
Qed.

Lemma prToLLMPackage_hunks_witness :
  Payload.diffHunks (Payload.prToLLMPackage Samples.reviewed)
  = Some [("hunk_1", "@@ -1,3 +1,4 @@"); ("hunk_2", "@@ -9,2 +10,2 @@");
          ("hunk_3", "@@ -4,1 +4,1 @@")]
  /\ Payload.hunkRef <$> Payload.comments (Payload.prToLLMPackage Samples.reviewed)
     = [Some "hunk_1"; Some "hunk_2"; Some "hunk_1"; Some "hunk_3"].
Proof.
  eapply (proj2 (proj2 prToLLMPackage_hunks) Samples.reviewed);
    first [reflexivity | discriminate].
Defined.

(** ** The remote collector *)

Section CollectorFacts.
Import Fetcher.

Lemma elem_of_take_list {A : Type} (x : A) (n : nat) (l : list A) :
  x ∈ take n l -> x ∈ l.
Proof. intros H. rewrite <- (take_drop n l). apply elem_of_app. now left. Qed.

Lemma elem_of_drop_list {A : Type} (x : A) (n : nat) (l : list A) :
  x ∈ drop n l -> x ∈ l.
Proof. intros H. rewrite <- (take_drop n l). apply elem_of_app. now right. Qed.

Variable octokit : Octokit.

Lemma resolveItems_sound (items : list SearchItem) (acc prs : list PullRequest) :
  resolveItems octokit items acc = Ok prs ->
  Forall (Resolved octokit) acc -> Forall (Resolved octokit) prs.
Proof.
  revert acc. induction items as [|item items IH]; intros acc H Hacc; simpl in H.
  - now injection H as <-.
  - destruct (getFull octokit item) as [full|e] eqn:Hfull; [| discriminate].
    apply IH in H; [assumption |].
    destruct (JS.truthy (merged_at full)) eqn:Hm; [| assumption].
    apply Forall_app. split; [assumption |].
    apply Forall_singleton. split; [exact Hm | eauto].
Qed.

Lemma searchLoop_sound (fuel : nat) (login : string) (page : N)
      (acc prs : list PullRequest) :
  searchLoop fuel octokit login page acc = Some (Ok prs) ->
  Forall (Resolved octokit) acc -> Forall (Resolved octokit) prs.
Proof.
  revert page acc. induction fuel as [|fuel IH]; intros page acc H Hacc;
    simpl in H; [discriminate |].
  destruct (search_issuesAndPullRequests octokit (query login) perPage page)
    as [[|item items]|e]; try discriminate.
  - now injection H as <-.
  - destruct (resolveItems octokit (item :: items) acc) as [prs'|e] eqn:Hres;
      [| discriminate].
    apply resolveItems_sound in Hres; [| assumption].
    destruct (N.of_nat (length (item :: items)) <? perPage)%N.
    + now injection H as <-.
    + eapply IH; eassumption.
Qed.

Variable full : SearchItem -> PullRequest.

Lemma mergedOnly_app (l1 l2 : list PullRequest) :
  mergedOnly (l1 ++ l2) = mergedOnly l1 ++ mergedOnly l2.
Proof. unfold mergedOnly. now rewrite filter_app, fmap_app. Qed.

Lemma mergedOnly_cons (x : PullRequest) (l : list PullRequest) :
  mergedOnly (x :: l)
  = (if JS.truthy (merged_at x) then [withRepoFullName x] else []) ++ mergedOnly l.
Proof.
  unfold mergedOnly. destruct (JS.truthy (merged_at x)) eqn:Hm.
  - now rewrite filter_cons_True.
  - now rewrite filter_cons_False by congruence.
Qed.

Lemma resolveItems_all (items : list SearchItem) (acc : list PullRequest) :
  (forall item, item ∈ items -> getFull octokit item = Ok (full item)) ->
  resolveItems octokit items acc = Ok (acc ++ mergedOnly (full <$> items)).
Proof.
  revert acc. induction items as [|item items IH]; intros acc H.
  - cbn. now rewrite app_nil_r.
  - cbn [resolveItems]. rewrite (H item) by apply list_elem_of_here.
    rewrite IH by (intros i Hi; apply H; now apply list_elem_of_further).
    rewrite fmap_cons, mergedOnly_cons.
    destruct (JS.truthy (merged_at (full item))).
    + now rewrite <- app_assoc.
    + reflexivity.
Qed.

Variable hits : list SearchItem.
Variable login : string.

Hypothesis search_paged :
  forall q size page,
    search_issuesAndPullRequests octokit q size page = Ok (pageOf hits size page).
Hypothesis hits_resolve :
  forall item, item ∈ hits -> getFull octokit item = Ok (full item).

Lemma searchLoop_paged (fuel k : nat) (acc : list PullRequest) :
  length (drop (30 * k) hits) < 30 * fuel ->
  searchLoop fuel octokit login (N.of_nat (S k)) acc
  = Some (Ok (acc ++ mergedOnly (full <$> drop (30 * k) hits))).
Proof.
  revert k acc. induction fuel as [|fuel IH]; intros k acc Hlen; [lia |].
  cbn [searchLoop]. rewrite search_paged. unfold pageOf.
  replace (N.to_nat perPage * (N.to_nat (N.of_nat (S k)) - 1)) with (30 * k)
    by (change (N.to_nat perPage) with 30; lia).
  change (N.to_nat perPage) with 30.
  set (rest := drop (30 * k) hits) in *.
  destruct (take 30 rest) as [|item items] eqn:Htake.
  - destruct rest; [| discriminate]. now rewrite app_nil_r.
  - rewrite <- Htake.
    rewrite resolveItems_all.
    2:{ intros i Hi. apply hits_resolve.
        apply elem_of_take_list in Hi. subst rest.
        eapply elem_of_drop_list; eassumption. }
    destruct (N.ltb_spec (N.of_nat (length (take 30 rest))) perPage) as [Hlt | Hge].
    + f_equal. f_equal. f_equal. f_equal. f_equal.
      apply take_ge. rewrite length_take in Hlt. unfold perPage in Hlt. lia.
    + replace (N.of_nat (S k) + 1)%N with (N.of_nat (S (S k))) by lia.
      rewrite length_take in Hge. unfold perPage in Hge.
      rewrite IH.
      2:{ replace (30 * S k) with (30 * k + 30) by lia.
          rewrite <- drop_drop. fold rest. rewrite length_drop. lia. }
      rewrite <- app_assoc, <- mergedOnly_app, <- fmap_app.
      replace (30 * S k) with (30 * k + 30) by lia.
      rewrite <- drop_drop. fold rest. now rewrite take_drop.
Qed.

End CollectorFacts.

(** C4: the collector returns only full records with a merge timestamp; when
    the host serves its hits page by page and every hit resolves, the result
    is the merged ones among the resolved records, in search order, and of two
    hits of which one is merged exactly one record is returned. *)
Theorem fetchMergedPRsForUser_merged_only :
  (forall (fuel : nat) (octokit : Fetcher.Octokit) (prs : list PullRequest),
      Fetcher.fetchMergedPRsForUser fuel octokit = Some (Ok prs) ->
      forall pr, pr ∈ prs -> merged_at pr <> None /\ Fetcher.Resolved octokit pr)
  /\ (forall (octokit : Fetcher.Octokit) (login : string)
             (hits : list Fetcher.SearchItem)
             (full : Fetcher.SearchItem -> PullRequest) (fuel : nat),
        Fetcher.users_getAuthenticated octokit = Ok login ->
        (forall q size page,
            Fetcher.search_issuesAndPullRequests octokit q size page
            = Ok (Fetcher.pageOf hits size page)) ->
        (forall item, item ∈ hits -> Fetcher.getFull octokit item = Ok (full item)) ->
        length hits < 30 * fuel ->
        Fetcher.fetchMergedPRsForUser fuel octokit
        = Some (Ok (Fetcher.mergedOnly (full <$> hits)))
        /\ (forall a b,
              hits = [a; b] ->
              JS.truthy (merged_at (full a)) = negb (JS.truthy (merged_at (full b))) ->
              exists pr, Fetcher.fetchMergedPRsForUser fuel octokit = Some (Ok [pr]))).
Proof.
  split.
  - intros fuel octokit prs H pr Hpr. unfold Fetcher.fetchMergedPRsForUser in H.
    destruct (Fetcher.users_getAuthenticated octokit) as [login|e]; [| discriminate].
    apply searchLoop_sound in H; [| constructor].
    rewrite Forall_forall in H. specialize (H pr Hpr).
    split; [| exact H]. destruct H as [Hm _].
    destruct (merged_at pr); [discriminate | discriminate].
  - intros octokit login hits full fuel Hlogin Hsearch Hfull Hfuel.
    assert (E : Fetcher.fetchMergedPRsForUser fuel octokit
                = Some (Ok (Fetcher.mergedOnly (full <$> hits)))).
    { unfold Fetcher.fetchMergedPRsForUser. rewrite Hlogin.
      change 1%N with (N.of_nat 1).
      rewrite (searchLoop_paged octokit full hits login Hsearch Hfull fuel 0 []).
      - reflexivity.
      - exact Hfuel. }
    split; [exact E |].
    intros a b -> Hone. rewrite E. cbn [fmap list_fmap].
    rewrite !mergedOnly_cons, Hone.
    destruct (JS.truthy (merged_at (full b))); cbn; eauto.
Qed.

Lemma fetchMergedPRsForUser_merged_only_witness :
  exists pr, Fetcher.fetchMergedPRsForUser 1 Samples.host = Some (Ok [pr]).
Proof.
  refine (proj2 (proj2 fetchMergedPRsForUser_merged_only
                   Samples.host "gearhead" [Samples.hit 42; Samples.hit 41]
                   Samples.fullRecord 1%nat eq_refl (fun _ _ _ => eq_refl) _ _)
                (Samples.hit 42) (Samples.hit 41) eq_refl eq_refl).
  - intros item Hitem. rewrite !elem_of_cons in Hitem.
    destruct Hitem as [-> | [-> | Hitem]]; [reflexivity | reflexivity | inversion Hitem].
  - cbn. lia.
Defined.

(** ** Enrichment *)

(** C2, counterexample: when the diff request fails, the diff of the enriched
    PR is [null], not the empty text; and with the review-comments request
    failing as well, the assembler receives a null diff. *)
Lemma enrichPR_failed_diff_is_null :
  Fetcher.pulls_get_diff Samples.host "acme" (Some "widgets") 43 = Err "Not Found"
  /\ Fetcher.pulls_listReviewComments Samples.host "acme" (Some "widgets") 43
     = Err "Server Error"
  /\ Fetcher.ownerRepo Samples.widgets43 = ("acme", Some "widgets")
  /\ diff (Fetcher.enrichPR Samples.host Samples.widgets43) = None
  /\ diff (Fetcher.enrichPR Samples.host Samples.widgets43) <> Some EmptyString.
Proof. repeat split; discriminate. Qed.

(** C2, in the form that holds: the three facets are fetched by three separate
    requests and each facet of the enriched PR is decided by its own request
    alone: a failed diff request gives a null diff, a failed file-list request
    an empty file list, a failed review-comments request an empty comment
    list, and a request that succeeds gives its data whatever the other two
    do. In particular, when the review-comments request fails while the diff
    request returns text and the file-list request returns a list, the
    enriched PR holds that text, that list and no comments. *)
Theorem enrichPR_facet_isolation (octokit : Fetcher.Octokit) (pr : PullRequest) :
  let owner := fst (Fetcher.ownerRepo pr) in
  let repo := snd (Fetcher.ownerRepo pr) in
  let e := Fetcher.enrichPR octokit pr in
  pr_base e = pr
  /\ (forall msg, Fetcher.pulls_get_diff octokit owner repo (number pr) = Err msg ->
                  diff e = None)
  /\ (forall msg, Fetcher.pulls_listFiles octokit owner repo (number pr) = Err msg ->
                  listFiles e = [])
  /\ (forall msg,
         Fetcher.pulls_listReviewComments octokit owner repo (number pr) = Err msg ->
         reviewComments e = [])
  /\ (forall text,
         Fetcher.pulls_get_diff octokit owner repo (number pr)
         = Ok (Fetcher.DiffText text) ->
         diff e = Some text)
  /\ (forall files,
         Fetcher.pulls_listFiles octokit owner repo (number pr) = Ok (Some files) ->
         listFiles e = files)
  /\ (forall cs,
         Fetcher.pulls_listReviewComments octokit owner repo (number pr)
         = Ok (Some cs) ->
         reviewComments e = cs)
  /\ (forall msg text files,
         Fetcher.pulls_listReviewComments octokit owner repo (number pr) = Err msg ->
         Fetcher.pulls_get_diff octokit owner repo (number pr)
         = Ok (Fetcher.DiffText text) ->
         Fetcher.pulls_listFiles octokit owner repo (number pr) = Ok (Some files) ->
         diff e = Some text /\ listFiles e = files /\ reviewComments e = []).
Proof.
  unfold Fetcher.enrichPR.
  destruct (Fetcher.ownerRepo pr) as [owner repo]. cbn [fst snd].
  cbn [pr_base diff listFiles reviewComments].
  unfold Fetcher.getPRDiff, Fetcher.getPRListFiles, Fetcher.getReviewComments.
  repeat split; intros; repeat match goal with
                               | H : _ = _ |- _ => rewrite H; clear H
                               end; reflexivity.
Qed.

Lemma enrichPR_facet_isolation_witness :
  diff (Fetcher.enrichPR Samples.host Samples.widgets42)
  = Some "diff --git a/gear.c b/gear.c"
  /\ listFiles (Fetcher.enrichPR Samples.host Samples.widgets42)
     = [mkFile "gear.c" "modified" 3 1 (Some "+teeth = 12;")]
  /\ reviewComments (Fetcher.enrichPR Samples.host Samples.widgets42) = [].
Proof.
  exact (proj2 (proj2 (proj2 (proj2 (proj2 (proj2 (proj2
           (enrichPR_facet_isolation Samples.host Samples.widgets42)))))))
           "Server Error" _ _ eq_refl eq_refl eq_refl).
Defined.

(** ** The sync coordinator *)

Section LoopFacts.
Import Cache Sync.

Variable env : Env.
Variable pageId : string.
Variable n : nat.

(** The body of [try] calls the collaborators and prints nothing; it
    asks for the enrichment of its PR, once. *)
Lemma attempt_calls (stem : string) (pr : PullRequest)
      (calls : list Effect) (r : result unit) :
  attempt env pageId stem pr = (calls, r) ->
  Forall (fun e => isCall e = true) calls /\ enrichedPRs calls = [pr].
Proof.
  unfold attempt. intros H.
  destruct (summarizePR env _); injection H as <- _.
  all: split; [repeat constructor | reflexivity].
Qed.

Lemma attempt_silent (stem : string) (pr : PullRequest)
      (calls : list Effect) (r : result unit) (l : Line) :
  attempt env pageId stem pr = (calls, r) ->
  (ConsoleLog l ∉ calls) /\ (ConsoleError l ∉ calls).
Proof.
  intros H. apply attempt_calls in H as [H _]. rewrite Forall_forall in H.
  split; intros Hin; apply H in Hin; discriminate.
Qed.

(** The three ways a turn can go. *)
Lemma iteration_cases (st : Machine) (i : nat) (pr : PullRequest) :
  let stem := Stem.prToStem pr in
  let repo :=
    JS.orDefault (JS.or (repoFullName pr) (base_repo_full_name pr)) "?" in
  (truthy (image st !! stem) = true /\ force env = false
   /\ iteration env pageId n st i pr = emit st [ConsoleLog (Cached i n stem)])
  \/ (truthy (image st !! stem) && negb (force env) = false
      /\ exists calls,
        attempt env pageId stem pr = (calls, Ok tt)
        /\ iteration env pageId n st i pr
           = mkMachine (disk st) (<[stem := MBool true]> (image st))
               (trace st ++ [ConsoleLog (Enriching i n repo (number pr))]
                         ++ calls ++ [ConsoleLog (Appended i n stem)]))
  \/ (truthy (image st !! stem) && negb (force env) = false
      /\ exists calls message,
        attempt env pageId stem pr = (calls, Err message)
        /\ iteration env pageId n st i pr
           = mkMachine (disk st) (image st)
               (trace st ++ [ConsoleLog (Enriching i n repo (number pr))]
                         ++ calls ++ [ConsoleError (Failed i n stem message)])).
Proof.
  intros stem repo. unfold iteration. fold stem. fold repo.
  destruct (truthy (image st !! stem) && negb (force env)) eqn:Hskip.
  - left. apply andb_true_iff in Hskip as [Ht Hf].
    apply negb_true_iff in Hf. auto.
  - right. destruct (attempt env pageId stem pr) as [calls [[]|message]].
    + left. split; [reflexivity |]. exists calls. split; [reflexivity |].
      unfold emit. cbn. now rewrite <- !app_assoc.
    + right. split; [reflexivity |]. exists calls, message.
      split; [reflexivity |]. unfold emit. cbn. now rewrite <- !app_assoc.
Qed.

Lemma iteration_disk (st : Machine) (i : nat) (pr : PullRequest) :
  disk (iteration env pageId n st i pr) = disk st.
Proof.
  destruct (iteration_cases st i pr)
    as [(_ & _ & ->) | [(_ & ? & _ & ->) | (_ & ? & ? & _ & ->)]]; reflexivity.
Qed.

Lemma iteration_trace (st : Machine) (i : nat) (pr : PullRequest) :
  exists es, trace (iteration env pageId n st i pr) = trace st ++ es.
Proof.
  destruct (iteration_cases st i pr)
    as [(_ & _ & ->) | [(_ & ? & _ & ->) | (_ & ? & ? & _ & ->)]];
    eexists; reflexivity.
Qed.

(** A turn only ever adds the marker [true]: what reads truthy stays so. *)
Lemma iteration_keeps (st : Machine) (i : nat) (pr : PullRequest) (k : string) :
  truthy (image st !! k) = true ->
  truthy (image (iteration env pageId n st i pr) !! k) = true.
Proof.
  intros Hk.
  destruct (iteration_cases st i pr)
    as [(_ & _ & ->) | [(_ & ? & _ & ->) | (_ & ? & ? & _ & ->)]];
    cbn; try assumption.
  destruct (decide (Stem.prToStem pr = k)) as [->|Hne].
  - now rewrite lookup_insert_eq.
  - now rewrite lookup_insert_ne.
Qed.

Lemma loopFrom_disk (prs : list PullRequest) (i : nat) (st : Machine) :
  disk (loopFrom env pageId n i prs st) = disk st.
Proof.
  revert i st. induction prs as [|pr prs IH]; intros i st; cbn; [reflexivity |].
  now rewrite IH, iteration_disk.
Qed.

Lemma loopFrom_trace (prs : list PullRequest) (i : nat) (st : Machine) :
  exists es, trace (loopFrom env pageId n i prs st) = trace st ++ es.
Proof.
  revert i st. induction prs as [|pr prs IH]; intros i st; cbn.
  - exists []. now rewrite app_nil_r.
  - destruct (IH (S i) (iteration env pageId n st i pr)) as [es ->].
    destruct (iteration_trace st i pr) as [es' ->].
    exists (es' ++ es). now rewrite app_assoc.
Qed.

Lemma loopFrom_keeps (prs : list PullRequest) (i : nat) (st : Machine) (k : string) :
  truthy (image st !! k) = true ->
  truthy (image (loopFrom env pageId n i prs st) !! k) = true.
Proof.
  revert i st. induction prs as [|pr prs IH]; intros i st Hk; cbn; [assumption |].
  apply IH. now apply iteration_keeps.
Qed.

Lemma loopFrom_app (prs1 prs2 : list PullRequest) (i : nat) (st : Machine) :
  loopFrom env pageId n i (prs1 ++ prs2) st
  = loopFrom env pageId n (i + length prs1) prs2 (loopFrom env pageId n i prs1 st).
Proof.
  revert i st. induction prs1 as [|pr prs1 IH]; intros i st; cbn.
  - now rewrite Nat.add_0_r.
  - rewrite IH. f_equal. lia.
Qed.


(** Without force, PRs whose stems all read truthy are all skipped. *)
Lemma loopFrom_all_cached (prs : list PullRequest) (i : nat) (st : Machine) :
  force env = false ->
  (forall pr, pr ∈ prs -> truthy (image st !! Stem.prToStem pr) = true) ->
  image (loopFrom env pageId n i prs st) = image st
  /\ filter (fun e => isCall e = true) (trace (loopFrom env pageId n i prs st))
     = filter (fun e => isCall e = true) (trace st).
Proof.
  intros Hforce. revert i st.
  induction prs as [|pr prs IH]; intros i st Hall; cbn; [auto |].
  assert (Hpr : truthy (image st !! Stem.prToStem pr) = true)
    by (apply Hall, list_elem_of_here).
  unfold iteration at 1 2. rewrite Hpr, Hforce. cbn [andb negb].
  destruct (IH (S i) (emit st [ConsoleLog (Cached i n (Stem.prToStem pr))]))
    as [Himg Htr].
  { intros pr' Hpr'. cbn. apply Hall. now apply list_elem_of_further. }
  split; [exact Himg |].
  rewrite Htr. cbn [trace emit]. rewrite filter_app. apply app_nil_r.
Qed.

(** A loop that printed no failure leaves a truthy marker for every PR. *)
Lemma loopFrom_no_failure (prs : list PullRequest) (i : nat) (st : Machine) :
  (forall l, ConsoleError l ∉ trace (loopFrom env pageId n i prs st)) ->
  forall pr, pr ∈ prs ->
    truthy (image (loopFrom env pageId n i prs st) !! Stem.prToStem pr) = true.
Proof.
  revert i st. induction prs as [|p prs IH]; intros i st Hno pr Hpr;
    [inversion Hpr |].
  cbn in *. apply elem_of_cons in Hpr as [-> | Hpr]; [| now apply IH].
  apply loopFrom_keeps.
  destruct (iteration_cases st i p)
    as [(Ht & _ & E) | [(_ & calls & _ & E) | (_ & calls & msg & _ & E)]].
  - rewrite E. exact Ht.
  - rewrite E. cbn. now rewrite lookup_insert_eq.
  - exfalso.
    destruct (loopFrom_trace prs (S i) (iteration env pageId n st i p)) as [es Hes].
    apply (Hno (Failed i n (Stem.prToStem p) msg)).
    rewrite Hes, E. cbn [trace].
    apply elem_of_app. left. apply elem_of_app. right.
    apply elem_of_app. right. apply elem_of_app. right.
    apply list_elem_of_here.
Qed.

End LoopFacts.

Section RunFacts.
Import Cache Sync.

Lemma selected_same (env1 env2 : Env) (prs : list PullRequest) :
  limitArg env2 = limitArg env1 ->
  askHowManyPRs env2 = askHowManyPRs env1 ->
  selected env2 prs = selected env1 prs.
Proof. intros El Ea. unfold selected, chooseLimit. now rewrite El, Ea. Qed.

Lemma finish_disk (env : Env) (pageId : string) (file : File)
      (prs : list PullRequest) :
  disk (finish env pageId file prs) = JsonObject (image (finish env pageId file prs)).
Proof. reflexivity. Qed.

Lemma afterTurns_all (env : Env) (pageId : string) (file : File)
      (prs : list PullRequest) :
  finish env pageId file prs
  = persist pageId (afterTurns env pageId file prs (length (selected env prs))).
Proof. unfold finish, afterTurns. now rewrite firstn_all. Qed.

Lemma afterTurns_disk (env : Env) (pageId : string) (file : File)
      (prs : list PullRequest) (k : nat) :
  disk (afterTurns env pageId file prs k) = file.
Proof. unfold afterTurns. now rewrite loopFrom_disk. Qed.

(** A write that succeeds leaves the object in the file. *)
Lemma saveCache_written (cache : gmap string Marker) (f written : File) :
  saveCache cache f = Ok written -> written = JsonObject cache.
Proof. destruct f; cbn; congruence. Qed.

(** A file that a run has written can be written again. *)
Lemma saveCache_again (cache entries : gmap string Marker) :
  saveCache cache (JsonObject entries) = Ok (JsonObject cache).
Proof. reflexivity. Qed.

(** A run that returns normally is the configuration check, the collector
    and [finish]. *)
Lemma runSync_returns (fuel : nat) (env : Env) (file : File) (o : Outcome) :
  runSync fuel env file = Some o -> exit o = Ok tt ->
  exists key pageId prs,
    NOTION_API_KEY env = Some key /\ key <> EmptyString
    /\ NOTION_PAGE_ID env = Some pageId /\ pageId <> EmptyString
    /\ Fetcher.fetchMergedPRsForUser fuel (octokit env) = Some (Ok prs)
    /\ final o = finish env pageId file prs.
Proof.
  unfold runSync. intros H Hexit.
  destruct (NOTION_API_KEY env) as [[|a key]|];
    try (injection H as <-; discriminate).
  destruct (NOTION_PAGE_ID env) as [[|b pageId]|];
    try (injection H as <-; discriminate).
  destruct (Fetcher.fetchMergedPRsForUser fuel (octokit env)) as [[prs|e]|];
    try discriminate; [| injection H as <-; discriminate].
  cbv zeta in H.
  destruct (saveCache _ _) as [written|e] eqn:Ew;
    injection H as <-; [| discriminate].
  apply saveCache_written in Ew. subst written.
  exists (String a key), (String b pageId), prs.
  repeat split; try reflexivity; try discriminate.
  cbn [final]. now rewrite afterTurns_all.
Qed.

Lemma runSync_finishes (fuel : nat) (env : Env) (file : File)
      (key pageId : string) (prs : list PullRequest) :
  NOTION_API_KEY env = Some key -> key <> EmptyString ->
  NOTION_PAGE_ID env = Some pageId -> pageId <> EmptyString ->
  Fetcher.fetchMergedPRsForUser fuel (octokit env) = Some (Ok prs) ->
  (forall cache, saveCache cache file = Ok (JsonObject cache)) ->
  runSync fuel env file = Some (mkOutcome (Ok tt) (finish env pageId file prs)).
Proof.
  intros Hk Hkne Hp Hpne Hfetch Hw. unfold runSync. rewrite Hk, Hp, Hfetch.
  destruct key; [contradiction |]. destruct pageId; [contradiction |].
  cbv zeta. rewrite afterTurns_disk, Hw. now rewrite afterTurns_all.
Qed.

Lemma iteration_recorded (env : Env) (pageId : string) (n i : nat)
      (st : Machine) (pr : PullRequest) :
  AppendedRecorded st -> AppendedRecorded (iteration env pageId n st i pr).
Proof.
  intros Hst j m stem.
  destruct (iteration_cases env pageId n st i pr)
    as [(_ & _ & ->) | [(_ & calls & Hcalls & ->) | (_ & calls & msg & Hcalls & ->)]];
    cbn [trace image emit].
  - rewrite elem_of_app, list_elem_of_singleton.
    intros [H | H]; [eauto | discriminate].
  - destruct (attempt_silent env pageId _ _ _ _ (Appended j m stem) Hcalls)
      as [Hnone _].
    rewrite !elem_of_app, !list_elem_of_singleton.
    intros [H | [H | [H | H]]]; try discriminate; try contradiction.
    + destruct (decide (Stem.prToStem pr = stem)) as [->|Hne].
      * apply lookup_insert_eq.
      * rewrite lookup_insert_ne by assumption. eauto.
    + injection H as _ _ <-. apply lookup_insert_eq.
  - destruct (attempt_silent env pageId _ _ _ _ (Appended j m stem) Hcalls)
      as [Hnone _].
    rewrite !elem_of_app, !list_elem_of_singleton.
    intros [H | [H | [H | H]]]; try discriminate; try contradiction. eauto.
Qed.

Lemma loopFrom_recorded (env : Env) (pageId : string) (n : nat)
      (prs : list PullRequest) (i : nat) (st : Machine) :
  AppendedRecorded st -> AppendedRecorded (loopFrom env pageId n i prs st).
Proof.
  revert i st. induction prs as [|pr prs IH]; intros i st Hst; cbn; [assumption |].
  apply IH. now apply iteration_recorded.
Qed.

Lemma enterLoop_recorded (env : Env) (file : File) (prs : list PullRequest) :
  AppendedRecorded (enterLoop env file prs).
Proof.
  intros i n stem H. cbn in H. rewrite !elem_of_cons in H.
  destruct H as [H | [H | [H | [H | H]]]]; try discriminate; inversion H.
Qed.

Lemma no_failure_check (es : list Effect) :
  forallb (fun e => negb (isFailure e)) es = true ->
  forall l, ConsoleError l ∉ es.
Proof.
  intros H l Hin. apply list_elem_of_In in Hin.
  rewrite forallb_forall in H. apply H in Hin. discriminate.
Qed.

End RunFacts.

(** C3, counterexample: (1) after a first run in which the summarizer failed,
    a second run over the same remote data and without force appends both PRs
    and changes the persisted cache; (2) when the note store rejects the
    blocks in both runs, the second run calls it again for both PRs; (3) a
    stem that exists in the loaded cache with the marker [false] is not
    skipped. *)
Lemma runSync_second_run_appends :
  (exists o1 o2,
      Sync.runSync 1 Samples.envNoSummarizer Cache.NoFile = Some o1
      /\ Sync.runSync 1 Samples.envUp (Sync.disk (Sync.final o1)) = Some o2
      /\ length (filter (fun e => Sync.isAppend e = true) (Sync.trace (Sync.final o2)))
         = 2%nat
      /\ Sync.disk (Sync.final o2) <> Sync.disk (Sync.final o1))
  /\ (exists o1 o2,
        Sync.runSync 1 Samples.envNoNoteStore Cache.NoFile = Some o1
        /\ Sync.runSync 1 Samples.envNoNoteStore (Sync.disk (Sync.final o1)) = Some o2
        /\ length (filter (fun e => Sync.isAppend e = true) (Sync.trace (Sync.final o2)))
           = 2%nat)
  /\ (exists o,
        Sync.runSync 1 Samples.envUp Samples.falsyFile = Some o
        /\ is_Some (Cache.loadCache Samples.falsyFile !! Samples.stem42)
        /\ Stem.prToStem Samples.pr42 = Samples.stem42
        /\ Sync.EnrichCall Samples.pr42 ∈ Sync.trace (Sync.final o)).
Proof.
  split.
  - eexists. eexists. split; [vm_compute; reflexivity |].
    split; [vm_compute; reflexivity |].
    split; [vm_compute; reflexivity |].
    intros H.
    apply (f_equal (fun f => Cache.loadCache f !! Samples.stem42)) in H.
    vm_compute in H. discriminate.
  - split.
    { eexists. eexists. split; [vm_compute; reflexivity |].
      split; vm_compute; reflexivity. }
    eexists. split; [vm_compute; reflexivity |].
    split; [vm_compute; eauto |]. split; [reflexivity |].
    cbn [Sync.final Sync.trace].
    do 5 apply list_elem_of_further. apply list_elem_of_here.
Qed.

(** C3, in the form that holds: when a run without force ends normally and has
    printed no failure (every selected PR was appended or already had a truthy
    marker), a second run without force over the same remote data and with the
    same settings makes no enrichment, summarizer or note-store call and
    leaves the persisted cache as the first run wrote it; and in every run
    without force a PR whose stem reads a truthy marker in the cache is
    skipped with a log line and nothing else. *)
Theorem runSync_second_run_skips :
  (forall (fuel : nat) (env1 env2 : Sync.Env) (file : Cache.File) (o1 : Sync.Outcome),
      Sync.force env1 = false -> Sync.force env2 = false ->
      Sync.octokit env2 = Sync.octokit env1 ->
      Sync.NOTION_API_KEY env2 = Sync.NOTION_API_KEY env1 ->
      Sync.NOTION_PAGE_ID env2 = Sync.NOTION_PAGE_ID env1 ->
      Sync.limitArg env2 = Sync.limitArg env1 ->
      Sync.askHowManyPRs env2 = Sync.askHowManyPRs env1 ->
      Sync.runSync fuel env1 file = Some o1 ->
      Sync.exit o1 = Ok tt ->
      (forall l, Sync.ConsoleError l ∉ Sync.trace (Sync.final o1)) ->
      exists o2,
        Sync.runSync fuel env2 (Sync.disk (Sync.final o1)) = Some o2
        /\ Sync.exit o2 = Ok tt
        /\ filter (fun e => Sync.isCall e = true) (Sync.trace (Sync.final o2)) = []
        /\ Sync.disk (Sync.final o2) = Sync.disk (Sync.final o1))
  /\ (forall (env : Sync.Env) (pageId : string) (n : nat) (st : Sync.Machine)
             (i : nat) (pr : PullRequest),
        Sync.force env = false ->
        Cache.truthy (Sync.image st !! Stem.prToStem pr) = true ->
        Sync.iteration env pageId n st i pr
        = Sync.emit st [Sync.ConsoleLog (Sync.Cached i n (Stem.prToStem pr))]).
Proof.
  split.
  - intros fuel env1 env2 file o1 Hf1 Hf2 Eo Ek Ep El Ea Hrun Hexit Hno.
    destruct (runSync_returns fuel env1 file o1 Hrun Hexit)
      as (key & pageId & prs & Hk & Hkne & Hp & Hpne & Hfetch & Hfinal).
    exists (Sync.mkOutcome (Ok tt)
              (Sync.finish env2 pageId (Sync.disk (Sync.final o1)) prs)).
    split.
    { apply runSync_finishes with key; try assumption; try congruence.
      intros cache. now rewrite Hfinal. }
    split; [reflexivity |]. cbn [Sync.final].
    rewrite Hfinal in *. unfold Sync.finish in *.
    rewrite (selected_same env1 env2 prs El Ea).
    set (chosen := Sync.selected env1 prs) in *.
    set (loop1 := Sync.loopFrom env1 pageId (length chosen) 0 chosen
                    (Sync.enterLoop env1 file prs)) in *.
    assert (Hall : forall pr, pr ∈ chosen ->
                     Cache.truthy (Sync.image loop1 !! Stem.prToStem pr) = true).
    { apply loopFrom_no_failure. intros l Hl. apply (Hno l).
      unfold Sync.persist, Sync.saved. cbn [Sync.trace]. apply elem_of_app. now left. }
    unfold Sync.persist, Sync.saved. cbn [Sync.trace Sync.disk Sync.image].
    destruct (loopFrom_all_cached env2 pageId (length chosen) chosen 0
                (Sync.enterLoop env2 (Cache.JsonObject (Sync.image loop1)) prs) Hf2)
      as [Himg Htr].
    { intros pr Hpr. cbn [Sync.enterLoop Sync.image]. rewrite Hf2.
      cbn [Cache.loadCache]. now apply Hall. }
    split.
    + rewrite filter_app, Htr. reflexivity.
    + rewrite Himg. cbn [Sync.enterLoop Sync.image]. now rewrite Hf2.
  - intros env pageId n st i pr Hf Ht. unfold Sync.iteration.
    now rewrite Ht, Hf.
Qed.

Lemma runSync_second_run_skips_witness :
  exists o2,
    Sync.runSync 1 Samples.envDown (Sync.disk Samples.firstRun) = Some o2
    /\ Sync.exit o2 = Ok tt
    /\ filter (fun e => Sync.isCall e = true) (Sync.trace (Sync.final o2)) = []
    /\ Sync.disk (Sync.final o2) = Sync.disk Samples.firstRun.
Proof.
  refine (proj1 runSync_second_run_skips 1%nat Samples.envUp Samples.envDown
            Cache.NoFile (Sync.mkOutcome (Ok tt) Samples.firstRun)
            eq_refl eq_refl eq_refl eq_refl eq_refl eq_refl eq_refl eq_refl eq_refl _).
  apply no_failure_check. vm_compute. reflexivity.
Defined.

(** C5, counterexample: stopped after the first of two turns, the run has
    appended PR 42 and recorded it in memory, but the cache file still holds
    no entry for it, and the restarted run appends PR 42 again although the PR
    in flight was PR 43. *)
Lemma crash_loses_appended_entries :
  Fetcher.fetchMergedPRsForUser 1 (Sync.octokit Samples.envUp)
  = Some (Ok Samples.collected)
  /\ Sync.ConsoleLog (Sync.Appended 0 2 Samples.stem42) ∈ Sync.trace Samples.stopped
  /\ Sync.image Samples.stopped !! Samples.stem42 = Some (Cache.MBool true)
  /\ Cache.loadCache (Sync.disk Samples.stopped) !! Samples.stem42 = None
  /\ exists o,
      Sync.runSync 1 Samples.envUp (Sync.disk Samples.stopped) = Some o
      /\ Sync.AppendCall (Notion.cleanId Samples.pageId)
           (Notion.summaryBlocks Samples.stem42 Samples.summary)
           ∈ Sync.trace (Sync.final o).
Proof.
  split; [vm_compute; reflexivity |].
  split.
  { cbn. do 8 apply list_elem_of_further. apply list_elem_of_here. }
  split; [vm_compute; reflexivity |].
  split; [vm_compute; reflexivity |].
  eexists. split; [vm_compute; reflexivity |].
  cbn [Sync.final Sync.trace].
  do 7 apply list_elem_of_further.
  replace (Sync.AppendCall _ _) with
    (Sync.AppendCall (Notion.cleanId Samples.pageId)
       (Notion.summaryBlocks Samples.stem42 Samples.summary))
    by (vm_compute; reflexivity).
  apply list_elem_of_here.
Qed.

(** C5, in the form that holds: a PR that is appended is recorded under its
    stem in the in-memory cache in the same turn, before the next PR is
    processed, and stays recorded; the cache file is not written during the
    loop (after any number of turns it is the file the run started with) and
    is written once, from the in-memory cache, when the loop has ended. *)
Theorem cache_recorded_in_memory_saved_at_end :
  forall (env : Sync.Env) (pageId : string) (file : Cache.File)
         (prs : list PullRequest),
    (forall (n i : nat) (st : Sync.Machine) (pr : PullRequest) (calls : list Sync.Effect),
        Cache.truthy (Sync.image st !! Stem.prToStem pr) && negb (Sync.force env) = false ->
        Sync.attempt env pageId (Stem.prToStem pr) pr = (calls, Ok tt) ->
        Sync.image (Sync.iteration env pageId n st i pr) !! Stem.prToStem pr
        = Some (Cache.MBool true))
    /\ (forall k : nat,
          Sync.disk (Sync.afterTurns env pageId file prs k) = file
          /\ forall i n stem,
              Sync.ConsoleLog (Sync.Appended i n stem)
                ∈ Sync.trace (Sync.afterTurns env pageId file prs k) ->
              Sync.image (Sync.afterTurns env pageId file prs k) !! stem
              = Some (Cache.MBool true))
    /\ Sync.disk (Sync.finish env pageId file prs)
       = Cache.JsonObject
           (Sync.image
              (Sync.afterTurns env pageId file prs (length (Sync.selected env prs)))).
Proof.
  intros env pageId file prs. split; [| split].
  - intros n i st pr calls Hskip Hok. unfold Sync.iteration.
    rewrite Hskip, Hok. cbn. apply lookup_insert_eq.
  - intros k. unfold Sync.afterTurns. split.
    + now rewrite loopFrom_disk.
    + apply loopFrom_recorded, enterLoop_recorded.
  - now rewrite afterTurns_all.
Qed.

Lemma cache_recorded_in_memory_saved_at_end_witness :
  Sync.image Samples.stopped !! Samples.stem42 = Some (Cache.MBool true).
Proof.
  refine (proj2 (proj1 (proj2
            (cache_recorded_in_memory_saved_at_end
               Samples.envUp Samples.pageId Cache.NoFile Samples.collected)) 1%nat)
            0%nat 2%nat Samples.stem42 _).
  cbn. do 8 apply list_elem_of_further. apply list_elem_of_here.
Defined.

Section ForceFacts.
Import Cache Sync.

Variable env : Env.
Variable pageId : string.
Variable n : nat.

Lemma enrichedPRs_app (es1 es2 : list Effect) :
  enrichedPRs (es1 ++ es2) = enrichedPRs es1 ++ enrichedPRs es2.
Proof. apply omap_app. Qed.


(** With force the note store is called for every PR the summarizer has
    summarized. *)
Lemma loopFrom_force_appends (prs : list PullRequest) (i : nat) (st : Machine)
      (pr : PullRequest) (summary : string) :
  force env = true ->
  pr ∈ prs ->
  summarizePR env (Payload.prToLLMPackage (Fetcher.enrichPR (octokit env) pr))
  = Ok summary ->
  AppendCall (Notion.cleanId pageId)
             (Notion.summaryBlocks (Stem.prToStem pr) summary)
    ∈ trace (loopFrom env pageId n i prs st).
Proof.
  intros Hf Hin Hsum. revert i st.
  induction prs as [|p prs IH]; intros i st; [inversion Hin |].
  cbn [loopFrom]. apply elem_of_cons in Hin as [<- | Hin]; [| now apply IH].
  destruct (loopFrom_trace env pageId n prs (S i) (iteration env pageId n st i pr))
    as [es ->].
  apply elem_of_app. left.
  unfold iteration. rewrite Hf, andb_false_r. unfold attempt. rewrite Hsum.
  destruct (blocks_children_append env _ _) as [[]|msg]; cbn [trace emit];
    rewrite !elem_of_app, !elem_of_cons; tauto.
Qed.





End ForceFacts.

Section RetryFacts.
Import Cache Sync.

Variable env : Env.
Variable pageId : string.
Variable n : nat.








End RetryFacts.







(** ** Markdown to blocks *)

Section MatcherFacts.
Import Blocks.

Lemma allIn_append (k : charClass) (a b : string) :
  allIn k (a +:+ b) = allIn k a && allIn k b.
Proof.
  induction a as [|x a IH]; simpl; [reflexivity |].
  now rewrite IH, andb_assoc.
Qed.

Lemma slice0_append (x r : string) :
  JS.slice0 (String.length (x +:+ r) - String.length r) (x +:+ r) = x.
Proof.
  rewrite length_append.
  replace (String.length x + String.length r - String.length r)
    with (String.length x) by lia.
  induction x as [|a x IH]; simpl.
  - now destruct r.
  - now rewrite IH.
Qed.

Context {R : Type}.

(** A greedy repetition that finds the rest of the pattern matching after
    its longest run stops there. *)
Lemma repeatGreedy_commit (c : charClass) (u v : string) (min : nat)
      (k : string -> option R) (r : R) :
  allIn c u = true -> startsIn c v = false -> min <= String.length u ->
  k v = Some r ->
  repeatGreedy c min (u +:+ v) k = Some r.
Proof.
  revert min. induction u as [|a u IH]; intros min Hu Hv Hmin Hk.
  - simpl in *. assert (min = 0) as -> by lia.
    destruct v as [|b v]; simpl in *; [assumption |]. now rewrite Hv.
  - simpl in *. apply andb_true_iff in Hu as [Ha Hu]. rewrite Ha.
    rewrite (IH (pred min)); auto. lia.
Qed.

(** A greedy repetition gives back its last character when the rest of
    the pattern needs one. *)
Lemma repeatGreedy_backoff (c : charClass) (u : string) (a : ascii) (min : nat)
      (k : string -> option R) (r : R) :
  allIn c u = true -> inClass c a = true -> min <= String.length u ->
  k EmptyString = None -> k (String a EmptyString) = Some r ->
  repeatGreedy c min (u +:+ String a EmptyString) k = Some r.
Proof.
  revert min. induction u as [|b u IH]; intros min Hu Ha Hmin Hnone Hk.
  - simpl in *. assert (min = 0) as -> by lia.
    rewrite Ha. simpl. now rewrite Hnone.
  - simpl in *. apply andb_true_iff in Hu as [Hb Hu]. rewrite Hb.
    rewrite (IH (pred min)); auto. lia.
Qed.

(** Where a repetition matches, it has taken a run of the class and the
    rest of the pattern has matched what follows. *)
Lemma repeatGreedy_sound (c : charClass) (s : string) (min : nat)
      (k : string -> option R) (r : R) :
  repeatGreedy c min s k = Some r ->
  exists u v, s = u +:+ v /\ allIn c u = true /\ min <= String.length u
              /\ k v = Some r.
Proof.
  revert min. induction s as [|a s IH]; intros min H.
  - simpl in H. destruct min; [| discriminate].
    exists EmptyString, EmptyString. auto.
  - simpl in H. destruct (inClass c a) eqn:Ha.
    + destruct (repeatGreedy c (pred min) s k) as [r'|] eqn:Hrec.
      * injection H as <-. destruct (IH _ Hrec) as (u & v & -> & Hu & Hmin & Hk).
        exists (String a u), v. simpl. rewrite Ha, Hu.
        repeat split; auto. lia.
      * destruct min; [| discriminate].
        exists EmptyString, (String a s). auto.
    + destruct min; [| discriminate].
      exists EmptyString, (String a s). auto.
Qed.

Lemma repeatLazy_sound (c : charClass) (s : string) (min : nat)
      (k : string -> option R) (r : R) :
  repeatLazy c min s k = Some r ->
  exists u v, s = u +:+ v /\ allIn c u = true /\ min <= String.length u
              /\ k v = Some r.
Proof.
  revert min. induction s as [|a s IH]; intros min H.
  - simpl in H. destruct min; [| discriminate].
    destruct (k EmptyString) eqn:Hk; [| discriminate]. injection H as ->.
    exists EmptyString, EmptyString. auto.
  - cbn [repeatLazy] in H.
    assert (Hmore : (if inClass c a then repeatLazy c (pred min) s k else None)
                    = Some r ->
                    exists u v, String a s = u +:+ v /\ allIn c u = true
                                /\ min <= String.length u /\ k v = Some r).
    { intros Hm. destruct (inClass c a) eqn:Ha; [| discriminate].
      destruct (IH _ Hm) as (u & v & -> & Hu & Hmin & Hk).
      exists (String a u), v. simpl. rewrite Ha, Hu. repeat split; auto. lia. }
    destruct min; [| now apply Hmore].
    destruct (k (String a s)) eqn:Hk; [| now apply Hmore].
    injection H as ->. exists EmptyString, (String a s). auto.
Qed.

(** A lazy repetition stops at the first place, after its minimum, where
    the rest of the pattern matches. *)
Lemma repeatLazy_first (c : charClass) (x v : string) (min : nat)
      (k : string -> option R) (r : R) :
  allIn c x = true -> min <= String.length x ->
  k v = Some r ->
  (forall y z, x = y +:+ z -> z <> EmptyString -> min <= String.length y ->
               k (z +:+ v) = None) ->
  repeatLazy c min (x +:+ v) k = Some r.
Proof.
  revert min. induction x as [|a x IH]; intros min Hx Hmin Hk Hearly.
  - simpl in *. assert (min = 0) as -> by lia.
    destruct v; simpl; now rewrite Hk.
  - simpl in Hx. apply andb_true_iff in Hx as [Ha Hx].
    assert (Hmore : repeatLazy c (pred min) (x +:+ v) k = Some r).
    { apply IH; auto.
      - simpl in Hmin. lia.
      - intros y z -> Hz Hy. apply (Hearly (String a y) z); auto.
        simpl. lia. }
    change (String a x +:+ v) with (String a (x +:+ v)).
    cbn [repeatLazy]. rewrite Ha, Hmore.
    destruct min; [| reflexivity].
    assert (Hn : k (String a (x +:+ v)) = None).
    { apply (Hearly EmptyString (String a x)); auto. }
    now rewrite Hn.
Qed.

(** A greedy repetition finds a match whenever some run of the class,
    long enough, is followed by a match of the rest of the pattern. *)
Lemma repeatGreedy_complete (c : charClass) (u v : string) (min : nat)
      (k : string -> option R) :
  allIn c u = true -> min <= String.length u -> is_Some (k v) ->
  is_Some (repeatGreedy c min (u +:+ v) k).
Proof.
  revert min. induction u as [|a u IH]; intros min Hu Hmin Hk.
  - simpl in *. assert (min = 0) as -> by lia.
    destruct v as [|b v]; simpl; [exact Hk |].
    destruct (inClass c b); [| exact Hk].
    destruct (repeatGreedy c 0 v k); [eauto | exact Hk].
  - simpl in *. apply andb_true_iff in Hu as [Ha Hu]. rewrite Ha.
    destruct (IH (pred min) Hu ltac:(lia) Hk) as [r ->]. eauto.
Qed.

End MatcherFacts.

Section PatternFacts.
Import Blocks.

Lemma spaces_then_end {R : Type} (s : string) (v : R) :
  repeatGreedy Whitespace 0 s
    (fun s' => match s' with EmptyString => Some v | String _ _ => None end)
  = if allIn Whitespace s then Some v else None.
Proof.
  induction s as [|a s IH]; [reflexivity |].
  cbn [repeatGreedy allIn inClass Nat.pred]. rewrite IH.
  destruct (isSpace a); [| reflexivity].
  now destruct (allIn Whitespace s).
Qed.

(** One step of the matcher at a time. *)
Lemma run_cat r1 r2 s cap k :
  run (Cat r1 r2) s cap k = run r1 s cap (fun s' cap' => run r2 s' cap' k).
Proof. reflexivity. Qed.

Lemma run_atom c a s cap k :
  run (Atom c) (String a s) cap k = if inClass c a then k s cap else None.
Proof. reflexivity. Qed.

Lemma run_atom_empty c cap k : run (Atom c) EmptyString cap k = None.
Proof. reflexivity. Qed.

Lemma run_group r s cap k :
  run (Group r) s cap k
  = run r s cap
        (fun s' _ => k s' (Some (JS.slice0 (String.length s - String.length s') s))).
Proof. reflexivity. Qed.

Lemma run_lazy c min s cap k :
  run (Repeat c min false) s cap k = repeatLazy c min s (fun s' => k s' cap).
Proof. reflexivity. Qed.

Lemma run_greedy c min s cap k :
  run (Repeat c min true) s cap k = repeatGreedy c min s (fun s' => k s' cap).
Proof. reflexivity. Qed.

Lemma run_optional r s cap k :
  run (Optional r) s cap k
  = match run r s cap k with Some m => Some m | None => k s cap end.
Proof. reflexivity. Qed.

Lemma run_end s cap k :
  run EndOfInput s cap k
  = match s with EmptyString => k s cap | String _ _ => None end.
Proof. reflexivity. Qed.

(** The end of the heading pattern, [\* \* \s* $]. *)
Lemma run_closing (s : string) (cap : option string) :
  run (Cat (Atom (Lit star))
      (Cat (Atom (Lit star))
      (Cat (Repeat Whitespace 0 true) EndOfInput)))
      s cap (fun _ c => Some c)
  = if closes s then Some cap else None.
Proof.
  rewrite run_cat.
  destruct s as [|a [|b ws]]; [reflexivity | |].
  - rewrite run_atom, run_cat, run_atom_empty. cbn [closes inClass].
    now destruct (Ascii.eqb a star).
  - rewrite run_atom, run_cat, run_atom. cbn [closes inClass].
    destruct (Ascii.eqb a star); [| reflexivity].
    destruct (Ascii.eqb b star); [| reflexivity].
    cbn [andb]. apply spaces_then_end.
Qed.

Lemma closes_after (z : string) :
  z <> EmptyString -> closes (z +:+ "**") = false.
Proof.
  destruct z as [|a [|b z]]; [contradiction | |]; intros _; cbn [closes String.append].
  - now rewrite andb_false_r.
  - rewrite allIn_append. cbn. now rewrite !andb_false_r.
Qed.

Lemma closes_inv (s : string) :
  closes s = true ->
  exists ws, s = "**" +:+ ws /\ allIn Whitespace ws = true.
Proof.
  destruct s as [|a [|b ws]]; try discriminate. cbn [closes].
  intros H. apply andb_true_iff in H as [H Hws].
  apply andb_true_iff in H as [Ha Hb].
  apply Ascii.eqb_eq in Ha, Hb. subst. now exists ws.
Qed.

(** The heading pattern from its first asterisk on,
    [\* \* ( .+? ) \* \* \s* $], on a wrapped text. *)
Lemma run_wrapped (x : string) (cap : option string) :
  x <> EmptyString -> allIn AnyChar x = true ->
  run (Cat (Atom (Lit star))
      (Cat (Atom (Lit star))
      (Cat (Group (Repeat AnyChar 1 false))
      (Cat (Atom (Lit star))
      (Cat (Atom (Lit star))
      (Cat (Repeat Whitespace 0 true) EndOfInput))))))
      ("**" +:+ x +:+ "**") cap (fun _ c => Some c)
  = Some (Some x).
Proof.
  intros Hne Hx.
  change ("**" +:+ x +:+ "**") with (String star (String star (x +:+ "**"))).
  rewrite run_cat, run_atom. cbn [inClass]. rewrite Ascii.eqb_refl.
  rewrite run_cat, run_atom. cbn [inClass]. rewrite Ascii.eqb_refl.
  rewrite run_cat, run_group, run_lazy.
  apply repeatLazy_first.
  - exact Hx.
  - destruct x; [contradiction | simpl; lia].
  - rewrite run_closing. cbn [closes allIn]. rewrite Ascii.eqb_refl. cbn [andb].
    now rewrite slice0_append.
  - intros y z _ Hz _. rewrite run_closing. now rewrite closes_after.
Qed.

Lemma run_wrapped_inv (s : string) (cap c : option string) :
  run (Cat (Atom (Lit star))
      (Cat (Atom (Lit star))
      (Cat (Group (Repeat AnyChar 1 false))
      (Cat (Atom (Lit star))
      (Cat (Atom (Lit star))
      (Cat (Repeat Whitespace 0 true) EndOfInput))))))
      s cap (fun _ c => Some c)
  = Some c ->
  exists x ws,
    s = "**" +:+ x +:+ "**" +:+ ws
    /\ x <> EmptyString /\ allIn AnyChar x = true /\ allIn Whitespace ws = true
    /\ c = Some x.
Proof.
  rewrite run_cat.
  destruct s as [|a [|b s]]; [discriminate | |].
  - rewrite run_atom, run_cat, run_atom_empty.
    now destruct (inClass (Lit star) a).
  - rewrite run_atom, run_cat, run_atom. cbn [inClass].
    destruct (Ascii.eqb_spec a star) as [->|]; [| discriminate].
    destruct (Ascii.eqb_spec b star) as [->|]; [| discriminate].
    rewrite run_cat, run_group, run_lazy.
    intros H. apply repeatLazy_sound in H as (x & v & -> & Hx & Hlen & Hk).
    rewrite run_closing in Hk.
    destruct (closes v) eqn:Hv; [| discriminate]. injection Hk as <-.
    apply closes_inv in Hv as (ws & -> & Hws).
    exists x, ws. rewrite slice0_append.
    repeat split; auto. intros ->. simpl in Hlen. lia.
Qed.

(** What the heading pattern accepts. *)
Lemma headingRe_accepts (t x : string) :
  HeadingShape t x -> regexMatch headingRe t = Some (Some x).
Proof.
  intros (Hne & Hx & lead & Hlead & ->).
  unfold regexMatch, headingRe. rewrite run_cat, run_optional.
  destruct Hlead as [-> | (ws & Hws & ->)].
  - change (EmptyString +:+ "**" +:+ x +:+ "**")
      with (String star (String star (x +:+ "**"))).
    rewrite run_cat, run_atom. cbn [inClass].
    change (Ascii.eqb star "-") with false. cbv iota.
    apply (run_wrapped x None Hne Hx).
  - change (String "-" ws +:+ "**" +:+ x +:+ "**")
      with (String "-" (ws +:+ ("**" +:+ x +:+ "**"))).
    rewrite run_cat, run_atom. cbn [inClass]. rewrite Ascii.eqb_refl.
    rewrite run_greedy.
    rewrite (repeatGreedy_commit Whitespace ws ("**" +:+ x +:+ "**") 0 _ (Some x));
      auto.
    + lia.
    + apply (run_wrapped x None Hne Hx).
Qed.

Lemma headingRe_matches (t : string) (c : option string) :
  regexMatch headingRe t = Some c ->
  exists lead x ws,
    t = lead +:+ "**" +:+ x +:+ "**" +:+ ws
    /\ (lead = EmptyString
        \/ exists sp, allIn Whitespace sp = true /\ lead = String "-" sp)
    /\ x <> EmptyString /\ allIn AnyChar x = true /\ allIn Whitespace ws = true
    /\ c = Some x.
Proof.
  unfold regexMatch, headingRe. rewrite run_cat, run_optional. intros H.
  match type of H with
  | match ?first with Some m => Some m | None => ?second end = _ =>
      destruct first as [m|] eqn:Hfirst
  end.
  - injection H as ->. rewrite run_cat in Hfirst.
    destruct t as [|a t]; [discriminate |].
    rewrite run_atom in Hfirst. cbn [inClass] in Hfirst.
    destruct (Ascii.eqb_spec a "-") as [->|]; [| discriminate].
    rewrite run_greedy in Hfirst.
    apply repeatGreedy_sound in Hfirst as (sp & v & -> & Hsp & _ & Hk).
    apply run_wrapped_inv in Hk as (x & ws & -> & Hne & Hx & Hws & ->).
    exists (String "-" sp), x, ws.
    split; [reflexivity |]. repeat split; eauto.
  - apply run_wrapped_inv in H as (x & ws & -> & Hne & Hx & Hws & ->).
    exists EmptyString, x, ws. repeat split; auto.
Qed.

End PatternFacts.

Section LineFacts.
Import Blocks.

Lemma allIn_stars (n : nat) : allIn (Lit star) (stars n) = true.
Proof. induction n as [|n IH]; [reflexivity |]. simpl. now rewrite IH. Qed.

Lemma space_is_no_star (a : ascii) : isSpace a = true -> Ascii.eqb a star = false.
Proof.
  intros Ha. destruct (Ascii.eqb_spec a star) as [->|]; [discriminate | reflexivity].
Qed.

(** What the bullet pattern accepts. *)
Lemma bulletRe_accepts (t x : string) :
  BulletShape t x -> regexMatch bulletRe t = Some (Some x).
Proof.
  intros (Hne & Hx & Hstar & Hsp & n & ws & Hws & ->).
  unfold regexMatch, bulletRe. rewrite run_cat, run_greedy.
  apply repeatGreedy_commit.
  - apply allIn_stars.
  - destruct ws as [|a ws]; [exact Hstar |].
    simpl in *. apply andb_true_iff in Hws as [Ha _]. now apply space_is_no_star.
  - simpl. lia.
  - rewrite run_cat, run_greedy. apply repeatGreedy_commit; auto; [lia |].
    rewrite run_cat, run_group, run_greedy.
    rewrite <- (append_empty_r x) at 1.
    apply repeatGreedy_commit; auto.
    + destruct x; [contradiction | simpl; lia].
    + rewrite run_end. f_equal. f_equal.
      pose proof (slice0_append x EmptyString) as H.
      now rewrite append_empty_r in H.
Qed.

Lemma bulletRe_needs_star (t : string) :
  startsIn (Lit star) t = false -> regexMatch bulletRe t = None.
Proof.
  intros H. unfold regexMatch, bulletRe. rewrite run_cat, run_greedy.
  destruct t as [|a t]; [reflexivity |].
  simpl in H. cbn [repeatGreedy inClass]. now rewrite H.
Qed.

Lemma allIn_star_stars (u : string) :
  allIn (Lit star) u = true -> u = stars (String.length u).
Proof.
  induction u as [|a u IH]; [reflexivity |]. simpl. intros H.
  apply andb_true_iff in H as [Ha Hu]. apply Ascii.eqb_eq in Ha. subst a.
  now rewrite <- IH.
Qed.

(** What a match of the bullet pattern tells about the line. *)
Lemma bulletRe_matches (t : string) (c : option string) :
  regexMatch bulletRe t = Some c ->
  exists n ws x,
    t = stars (S n) +:+ ws +:+ x
    /\ allIn Whitespace ws = true /\ x <> EmptyString /\ allIn AnyChar x = true
    /\ c = Some x.
Proof.
  unfold regexMatch, bulletRe. rewrite run_cat, run_greedy. intros H.
  apply repeatGreedy_sound in H as (u & v & -> & Hu & Hlen & H).
  rewrite run_cat, run_greedy in H.
  apply repeatGreedy_sound in H as (ws & v' & -> & Hws & _ & H).
  rewrite run_cat, run_group, run_greedy in H.
  apply repeatGreedy_sound in H as (x & rest & -> & Hx & Hxlen & H).
  rewrite run_end in H. destruct rest; [| discriminate]. injection H as <-.
  apply allIn_star_stars in Hu.
  destruct (String.length u) as [|n] eqn:E; [lia |].
  exists n, ws, x. rewrite slice0_append, append_empty_r, Hu.
  repeat split; auto. intros ->. simpl in Hxlen. lia.
Qed.

(** The bullet pattern matches every line without carriage return that is
    an asterisk and at least one more character. *)
Lemma bulletRe_accepts_some (t : string) :
  startsIn (Lit star) t = true -> 2 <= String.length t ->
  allIn AnyChar t = true ->
  is_Some (regexMatch bulletRe t).
Proof.
  destruct t as [|a [|b t]]; simpl; try lia; try discriminate.
  intros Ha _ Ht. apply Ascii.eqb_eq in Ha. subst a.
  apply andb_true_iff in Ht as [_ Ht].
  unfold regexMatch, bulletRe. rewrite run_cat, run_greedy.
  apply (repeatGreedy_complete (Lit star) (String star EmptyString) (String b t));
    [reflexivity | simpl; lia |].
  rewrite run_cat, run_greedy.
  apply (repeatGreedy_complete Whitespace EmptyString (String b t));
    [reflexivity | simpl; lia |].
  rewrite run_cat, run_group, run_greedy.
  rewrite <- (append_empty_r (String b t)) at 1.
  apply (repeatGreedy_complete AnyChar (String b t) EmptyString);
    [exact Ht | simpl; lia |].
  rewrite run_end. eauto.
Qed.

Lemma trimEnd_clean (s : string) : endsWithSpace (trimEnd s) = false.
Proof.
  induction s as [|a s IH]; [reflexivity |].
  cbn [trimEnd]. destruct (trimEnd s) as [|b t] eqn:E.
  - destruct (isSpace a) eqn:Ha; [reflexivity | simpl; exact Ha].
  - exact IH.
Qed.

Lemma trim_clean (line : string) : endsWithSpace (trim line) = false.
Proof. apply trimEnd_clean. Qed.

Lemma endsWithSpace_spaces (ws : string) :
  ws <> EmptyString -> allIn Whitespace ws = true -> endsWithSpace ws = true.
Proof.
  induction ws as [|b ws IH]; [contradiction |]. intros _ Hws.
  simpl in Hws. apply andb_true_iff in Hws as [Hb Hws].
  destruct ws as [|b' ws]; [exact Hb |].
  apply IH; [discriminate | exact Hws].
Qed.

Lemma endsWithSpace_append (a ws : string) :
  ws <> EmptyString -> allIn Whitespace ws = true ->
  endsWithSpace (a +:+ ws) = true.
Proof.
  intros Hne Hws. induction a as [|c a IH].
  - now apply endsWithSpace_spaces.
  - change (String c a +:+ ws) with (String c (a +:+ ws)).
    destruct (a +:+ ws) eqn:E; [| exact IH].
    destruct a; [simpl in E; contradiction | discriminate].
Qed.

(** On a trimmed line the heading pattern matches the heading shape
    only. *)
Lemma headingRe_rejects (line : string) :
  (forall y, ~ HeadingShape (trim line) y) ->
  regexMatch headingRe (trim line) = None.
Proof.
  intros Hno. destruct (regexMatch headingRe (trim line)) as [c|] eqn:E;
    [| reflexivity].
  exfalso.
  apply headingRe_matches in E as (lead & x & ws & Ht & Hlead & Hne & Hx & Hws & _).
  destruct ws as [|b ws].
  - apply (Hno x). repeat split; auto. exists lead. split; [exact Hlead |].
    rewrite Ht. now rewrite append_empty_r.
  - pose proof (trim_clean line) as Hclean. rewrite Ht in Hclean.
    rewrite <- !append_assoc in Hclean.
    rewrite endsWithSpace_append in Hclean; [discriminate | discriminate | exact Hws].
Qed.

Lemma slice_split (n : nat) (s : string) :
  JS.slice0 n s +:+ sliceFrom n s = s.
Proof.
  revert n. induction s as [|a s IH]; intros [|n]; simpl; try reflexivity.
  now rewrite IH.
Qed.

Lemma length_sliceFrom (n : nat) (s : string) :
  String.length (sliceFrom n s) = String.length s - n.
Proof.
  revert n. induction s as [|a s IH]; intros [|n]; simpl; try reflexivity.
  apply IH.
Qed.

(** The turns given to the chunking loop are enough: the chunks, put
    together again, are the whole text. *)
Lemma richTextLoop_covers (turns : nat) (s : string) (b : bool) :
  String.length s <= turns ->
  fold_right String.append EmptyString (content <$> richTextLoop turns s b) = s.
Proof.
  revert s. induction turns as [|turns IH]; intros s Hlen.
  - destruct s; [reflexivity | simpl in Hlen; lia].
  - destruct s as [|a s]; [reflexivity |].
    cbn [richTextLoop fmap list_fmap fold_right content].
    rewrite IH; [apply slice_split |].
    rewrite length_sliceFrom. unfold RICH_TEXT_LIMIT. simpl in *. lia.
Qed.

Lemma richText_covers (s : string) (b : bool) :
  fold_right String.append EmptyString (content <$> richText s b) = s.
Proof. apply richTextLoop_covers. lia. Qed.

Lemma lineBlocks_kinds (line : string) (b : Block) :
  b ∈ lineBlocks line -> isParsedKind b = true.
Proof.
  unfold lineBlocks. destruct (trim line) as [|a t]; [intros H; inversion H |].
  destruct (regexMatch headingRe _); [| destruct (regexMatch bulletRe _)];
    intros H; apply list_elem_of_singleton in H; now subst b.
Qed.

End LineFacts.

(** C10, counterexample: a line that consists of one asterisk begins with an
    asterisk and becomes a paragraph block, not a bulleted list item. *)
Lemma lone_asterisk_is_a_paragraph :
  Blocks.markdownToNotionBlocks "*" = [Blocks.block Blocks.paragraph "*" false].
Proof. reflexivity. Qed.

(** C10, in the form that holds: the text is cut at line feeds, each with an
    optional carriage return before it, every line is trimmed and blank lines
    are dropped.  A trimmed line that is a non-empty text wrapped in double
    asterisks, with nothing or a hyphen and white space before it, becomes a
    heading block of that text.  A line of another shape that begins with an
    asterisk and has at least one more character becomes a bulleted
    list-item block whose text is an end of the line that follows asterisks
    and white space; it is the whole text when the line is asterisks, white
    space and a text that starts with neither.  A non-blank line that has not
    the heading shape and does not begin with an asterisk, or is a single
    asterisk, becomes a paragraph block of the trimmed line.  (Lines and
    texts without carriage return.)  No other kind of block is produced, and
    the three-line sample gives the heading [Problem], the bulleted item
    [bullet one] and the paragraph [plain text]. *)
Theorem markdownToNotionBlocks_shapes :
  (forall markdown,
      Blocks.markdownToNotionBlocks markdown
      = flat_map Blocks.lineBlocks (Blocks.splitLines markdown))
  /\ (forall line, Blocks.trim line = EmptyString -> Blocks.lineBlocks line = [])
  /\ (forall line x,
         Blocks.HeadingShape (Blocks.trim line) x ->
         Blocks.lineBlocks line = [Blocks.block Blocks.heading_2 x false])
  /\ (forall line x,
         (forall y, ~ Blocks.HeadingShape (Blocks.trim line) y) ->
         Blocks.BulletShape (Blocks.trim line) x ->
         Blocks.lineBlocks line = [Blocks.block Blocks.bulleted_list_item x false])
  /\ (forall line,
         (forall y, ~ Blocks.HeadingShape (Blocks.trim line) y) ->
         Blocks.startsIn (Blocks.Lit Blocks.star) (Blocks.trim line) = true ->
         2 <= String.length (Blocks.trim line) ->
         Blocks.allIn Blocks.AnyChar (Blocks.trim line) = true ->
         exists n ws x,
           Blocks.trim line = Blocks.stars (S n) +:+ ws +:+ x
           /\ Blocks.allIn Blocks.Whitespace ws = true
           /\ x <> EmptyString
           /\ Blocks.lineBlocks line
              = [Blocks.block Blocks.bulleted_list_item x false])
  /\ (forall line,
         Blocks.trim line <> EmptyString ->
         (forall y, ~ Blocks.HeadingShape (Blocks.trim line) y) ->
         Blocks.startsIn (Blocks.Lit Blocks.star) (Blocks.trim line) = false
         \/ Blocks.trim line = "*" ->
         Blocks.lineBlocks line
         = [Blocks.block Blocks.paragraph (Blocks.trim line) false])
  /\ (forall markdown b,
         b ∈ Blocks.markdownToNotionBlocks markdown -> Blocks.isParsedKind b = true)
  /\ Blocks.markdownToNotionBlocks Samples.markdown
     = [Blocks.block Blocks.heading_2 "Problem" false;
        Blocks.block Blocks.bulleted_list_item "bullet one" false;
        Blocks.block Blocks.paragraph "plain text" false].
Proof.
  split; [reflexivity |].
  split.
  { intros line H. unfold Blocks.lineBlocks. now rewrite H. }
  split.
  { intros line x H. unfold Blocks.lineBlocks.
    rewrite (headingRe_accepts _ _ H).
    destruct (Blocks.trim line) eqn:E; [| reflexivity].
    destruct H as (_ & _ & lead & [-> | (ws & _ & ->)] & H); discriminate. }
  split.
  { intros line x Hno H. unfold Blocks.lineBlocks.
    rewrite (headingRe_rejects _ Hno), (bulletRe_accepts _ _ H).
    destruct (Blocks.trim line) eqn:E; [| reflexivity].
    destruct H as (_ & _ & _ & _ & n & ws & _ & H). discriminate. }
  split.
  { intros line Hno Hstar Hlen Hchars.
    destruct (bulletRe_accepts_some _ Hstar Hlen Hchars) as [c Hc].
    destruct (bulletRe_matches _ _ Hc) as (n & ws & x & Ht & Hws & Hne & _ & ->).
    exists n, ws, x. repeat split; auto.
    unfold Blocks.lineBlocks. rewrite (headingRe_rejects _ Hno), Hc.
    destruct (Blocks.trim line); [discriminate | reflexivity]. }
  split.
  { intros line Hne Hno Hstar. unfold Blocks.lineBlocks.
    rewrite (headingRe_rejects _ Hno).
    assert (Hb : Blocks.regexMatch Blocks.bulletRe (Blocks.trim line) = None).
    { destruct Hstar as [Hstar | ->]; [now apply bulletRe_needs_star | reflexivity]. }
    rewrite Hb. destruct (Blocks.trim line); [contradiction | reflexivity]. }
  split.
  { intros markdown b Hb. unfold Blocks.markdownToNotionBlocks in Hb.
    apply list_elem_of_In, in_flat_map in Hb as (line & _ & Hb).
    apply list_elem_of_In in Hb. now apply lineBlocks_kinds in Hb. }
  vm_compute. reflexivity.
Qed.

Lemma markdownToNotionBlocks_shapes_witness :
  Blocks.lineBlocks "  - **Tricky bits**  "
  = [Blocks.block Blocks.heading_2 "Tricky bits" false]
  /\ Blocks.lineBlocks "*  bullet one "
     = [Blocks.block Blocks.bulleted_list_item "bullet one" false]
  /\ Blocks.lineBlocks " plain text"
     = [Blocks.block Blocks.paragraph "plain text" false].
Proof.
  split; [| split].
  - refine (proj1 (proj2 (proj2 markdownToNotionBlocks_shapes))
              "  - **Tricky bits**  " "Tricky bits" _).
    repeat split; try discriminate.
    exists "- ". split; [| reflexivity].
    right. exists " ". split; reflexivity.
  - refine (proj1 (proj2 (proj2 (proj2 markdownToNotionBlocks_shapes)))
              "*  bullet one " "bullet one" _ _).
    + intros y (_ & _ & lead & [-> | (ws & _ & ->)] & H); discriminate.
    + repeat split; try discriminate.
      exists 0%nat, "  ". split; reflexivity.
  - refine (proj1 (proj2 (proj2 (proj2 (proj2 (proj2 markdownToNotionBlocks_shapes)))))
              " plain text" _ _ _).
    + discriminate.
    + intros y (_ & _ & lead & [-> | (ws & _ & ->)] & H); discriminate.
    + left. reflexivity.
Defined.

(** * Further properties

    Properties of the code around the claims: the rest of the collector
    and of the enrichment, the payload as its reader sees it, the text
    chunks, what a run reports, the prompt for the number of PRs, the
    page-per-summary path, the login and the export script. *)

(** ** Linked issues, repository addresses and the page loop *)

Section ReferenceFacts.
Import Fetcher Reader Prompt.

Lemma scanRefs_skip (t s : string) :
  JS.occurs "#" t = false -> scanRefs None (t +:+ s) = scanRefs None s.
Proof.
  induction t as [|a t IH]; intros H; [reflexivity |].
  cbn [JS.occurs] in H. apply orb_false_iff in H as [Ha Ht].
  cbn [String.append scanRefs]. rewrite Ha.
  destruct (isDigit a); [now apply IH |].
  cbn [app]. now apply IH.
Qed.

Lemma digitsValue_numeral (d : Decimal.uint) (acc : N) (rest : string) :
  startsWithDigit rest = false ->
  digitsValue acc (NilEmpty.string_of_uint d +:+ rest)
  = match acc with
    | N0 => Pos.of_uint d
    | Npos p => Npos (Pos.of_uint_acc d p)
    end.
Proof.
  intros Hrest. revert acc.
  induction d as [|d IH|d IH|d IH|d IH|d IH|d IH|d IH|d IH|d IH|d IH]; intros acc;
    cbn [NilEmpty.string_of_uint String.append].
  - destruct rest as [|a rest]; cbn [digitsValue].
    + now destruct acc.
    + cbn in Hrest. rewrite Hrest. now destruct acc.
  - cbn [digitsValue]. change (isDigit "0") with true. cbv iota. rewrite IH.
    destruct acc; reflexivity.
  - cbn [digitsValue]. change (isDigit "1") with true. cbv iota. rewrite IH.
    destruct acc; cbn; [reflexivity | now rewrite Pos.add_comm].
  - cbn [digitsValue]. change (isDigit "2") with true. cbv iota. rewrite IH.
    destruct acc; cbn; [reflexivity | now rewrite Pos.add_comm].
  - cbn [digitsValue]. change (isDigit "3") with true. cbv iota. rewrite IH.
    destruct acc; cbn; [reflexivity | now rewrite Pos.add_comm].
  - cbn [digitsValue]. change (isDigit "4") with true. cbv iota. rewrite IH.
    destruct acc; cbn; [reflexivity | now rewrite Pos.add_comm].
  - cbn [digitsValue]. change (isDigit "5") with true. cbv iota. rewrite IH.
    destruct acc; cbn; [reflexivity | now rewrite Pos.add_comm].
  - cbn [digitsValue]. change (isDigit "6") with true. cbv iota. rewrite IH.
    destruct acc; cbn; [reflexivity | now rewrite Pos.add_comm].
  - cbn [digitsValue]. change (isDigit "7") with true. cbv iota. rewrite IH.
    destruct acc; cbn; [reflexivity | now rewrite Pos.add_comm].
  - cbn [digitsValue]. change (isDigit "8") with true. cbv iota. rewrite IH.
    destruct acc; cbn; [reflexivity | now rewrite Pos.add_comm].
  - cbn [digitsValue]. change (isDigit "9") with true. cbv iota. rewrite IH.
    destruct acc; cbn; [reflexivity | now rewrite Pos.add_comm].
Qed.

Lemma scanRefs_numeral (d : Decimal.uint) (acc : N) (rest : string) :
  startsWithDigit rest = false ->
  scanRefs (Some (Some acc)) (NilEmpty.string_of_uint d +:+ rest)
  = JS.toDouble (digitsValue acc (NilEmpty.string_of_uint d +:+ rest))
      :: scanRefs None rest.
Proof.
  intros Hrest. revert acc.
  induction d as [|d IH|d IH|d IH|d IH|d IH|d IH|d IH|d IH|d IH|d IH]; intros acc;
    cbn [NilEmpty.string_of_uint String.append];
    try (cbn [scanRefs digitsValue]; apply IH).
  destruct rest as [|a rest]; [reflexivity |].
  cbn in Hrest. cbn [scanRefs digitsValue]. rewrite Hrest.
  now destruct (Ascii.eqb a "#").
Qed.

Lemma to_uint_digit (n : N) :
  exists a s, NilEmpty.string_of_uint (N.to_uint n) = String a s /\ isDigit a = true.
Proof.
  destruct (N.to_uint n) as [|d|d|d|d|d|d|d|d|d|d] eqn:E;
    try (eexists _, _; split; reflexivity).
  exfalso. pose proof (DecimalN.Unsigned.of_to n) as H. rewrite E in H.
  subst n. discriminate E.
Qed.

Lemma scanRefs_reference (n : N) (rest : string) :
  startsWithDigit rest = false ->
  scanRefs (Some None) (JS.numberToString n +:+ rest)
  = JS.toDouble n :: scanRefs None rest.
Proof.
  intros Hrest.
  pose proof (scanRefs_numeral (N.to_uint n) 0 rest Hrest) as H.
  rewrite (digitsValue_numeral _ 0 _ Hrest) in H.
  change (Pos.of_uint (N.to_uint n)) with (N.of_uint (N.to_uint n)) in H.
  rewrite DecimalN.Unsigned.of_to in H.
  rewrite <- H. unfold JS.numberToString.
  destruct (to_uint_digit n) as (a & s & -> & Ha).
  cbn [String.append scanRefs]. rewrite Ha.
  destruct (Ascii.eqb a "#") eqn:Eh.
  - apply Ascii.eqb_eq in Eh. subst a. discriminate Ha.
  - reflexivity.
Qed.

(** A whole number up to 2^53 is a double. *)
Lemma toDouble_exact (n : N) :
  (n <= 2 ^ 53)%N -> JS.toDouble n = JS.Finite n.
Proof.
  intros Hn. unfold JS.toDouble.
  destruct (N.size n <=? 53)%N eqn:E; [reflexivity |].
  apply N.leb_gt in E.
  assert (n = 2 ^ 53)%N as ->.
  { pose proof (N.size_le n) as Hle.
    assert (2 ^ 54 <= 2 ^ N.size n)%N as Hpow by (apply N.pow_le_mono_r; lia).
    rewrite N.succ_double_spec in Hle.
    change (2 ^ 54)%N with (2 * 2 ^ 53)%N in Hpow. lia. }
  vm_compute. reflexivity.
Qed.

(** Above 2^53 a reference is rounded to the nearest double. *)
Lemma extractLinkedIssues_rounds :
  extractLinkedIssues "Closes #9007199254740993"
  = [JS.Finite 9007199254740992].
Proof. vm_compute. reflexivity. Qed.

End ReferenceFacts.

(** X1: the references of a PR body are read off in order.  When the body
    is a text without [#], then [#] and the decimal numeral of a number
    [n] of at most 2^53, then a rest that does not start with a digit,
    [extractLinkedIssues] reports [n] followed by the references of the
    rest; so references come out in body order, repeated ones included.
    (A larger number is reported as the double next to it.) *)
Theorem extractLinkedIssues_reference (t rest : string) (n : N) :
  JS.occurs "#" t = false ->
  Reader.startsWithDigit rest = false ->
  (n <= 2 ^ 53)%N ->
  Fetcher.extractLinkedIssues (t +:+ "#" +:+ JS.numberToString n +:+ rest)
  = JS.Finite n :: Fetcher.extractLinkedIssues rest.
Proof.
  intros Ht Hrest Hn. unfold Fetcher.extractLinkedIssues.
  rewrite scanRefs_skip by exact Ht.
  cbn [String.append Fetcher.scanRefs]. change (Ascii.eqb "#" "#") with true.
  cbv iota. cbn [app].
  rewrite <- (toDouble_exact n Hn).
  now apply scanRefs_reference.
Qed.

Lemma extractLinkedIssues_reference_witness :
  JS.occurs "#" "Fixes " = false
  /\ (7 <= 2 ^ 53)%N
  /\ Fetcher.extractLinkedIssues "Fixes #7, closes #12"
     = JS.Finite 7 :: Fetcher.extractLinkedIssues ", closes #12".
Proof.
  split; [reflexivity |]. split; [now vm_compute |].
  refine (extractLinkedIssues_reference "Fixes " ", closes #12" 7 eq_refl eq_refl _).
  now vm_compute.
Defined.

Lemma scanRefs_bound (p : option (option N)) (s : string) :
  length (Fetcher.scanRefs p s)
  <= (match p with Some _ => 1 | None => 0 end) + Reader.countChar "#" s.
Proof.
  revert p. induction s as [|a s IH]; intros p.
  - cbn. destruct p as [[|]|]; cbn; lia.
  - cbn [Fetcher.scanRefs Reader.countChar].
    destruct (Ascii.eqb a "#").
    + rewrite length_app. specialize (IH (Some None)). cbn in IH.
      destruct p as [[|]|]; cbn; lia.
    + destruct (Fetcher.isDigit a).
      * destruct p as [[n|]|].
        -- specialize (IH (Some (Some (10 * n + Fetcher.digitValue a)%N))). cbn in *. lia.
        -- specialize (IH (Some (Some (Fetcher.digitValue a)))). cbn in *. lia.
        -- specialize (IH None). cbn in *. lia.
      * rewrite length_app. specialize (IH None). cbn in IH.
        destruct p as [[|]|]; cbn; lia.
Qed.

(** X2: [extractLinkedIssues] never reports more references than the
    body has [#] characters; a body without [#] has no linked issue. *)
Theorem extractLinkedIssues_bound (body : string) :
  length (Fetcher.extractLinkedIssues body) <= Reader.countChar "#" body.
Proof. exact (scanRefs_bound None body). Qed.

Section EnrichFacts.
Import Fetcher.

Lemma split_nonempty (c : ascii) (s : string) : split c s <> [].
Proof.
  destruct s as [|a s]; cbn; [discriminate |].
  destruct (Ascii.eqb a c); [discriminate |].
  destruct (split c s); discriminate.
Qed.

Lemma split_absent (c : ascii) (s : string) :
  JS.occurs c s = false -> split c s = [s].
Proof.
  induction s as [|a s IH]; intros H; [reflexivity |].
  cbn [JS.occurs] in H. apply orb_false_iff in H as [Ha Hs].
  cbn [split]. rewrite Ha, (IH Hs). reflexivity.
Qed.

Lemma split_append (c : ascii) (a b : string) :
  split c (a +:+ String c b) = split c a ++ split c b.
Proof.
  induction a as [|x a IH]; cbn [String.append split].
  - now rewrite Ascii.eqb_refl.
  - rewrite IH. destruct (Ascii.eqb x c); [reflexivity |].
    pose proof (split_nonempty c a) as Hne.
    destruct (split c a); [contradiction | reflexivity].
Qed.

Lemma resolveItems_fails (octokit : Octokit) (items : list SearchItem)
      (item : SearchItem) (e : string) (acc : list PullRequest) :
  item ∈ items -> getFull octokit item = Err e ->
  exists e', resolveItems octokit items acc = Err e'.
Proof.
  intros Hin He. revert acc.
  induction items as [|x items IH]; intros acc; [now apply elem_of_nil in Hin |].
  cbn [resolveItems]. destruct (getFull octokit x) as [full|e0] eqn:Ex.
  - apply elem_of_cons in Hin as [-> | Hin]; [congruence |].
    apply IH. exact Hin.
  - now exists e0.
Qed.

Lemma resolveItems_ok (octokit : Octokit) (items : list SearchItem)
      (acc : list PullRequest) :
  (forall item, item ∈ items -> exists full, getFull octokit item = Ok full) ->
  exists prs, resolveItems octokit items acc = Ok prs.
Proof.
  revert acc. induction items as [|x items IH]; intros acc H; [now exists acc |].
  cbn [resolveItems]. destruct (H x) as [full ->]; [apply list_elem_of_here |].
  apply IH. intros item Hin. apply H. now apply list_elem_of_further.
Qed.

End EnrichFacts.

(** X3: [enrichPR] yields one linked issue per reference of the body, in
    the order of the references (none when the body is missing); an issue
    whose lookup succeeds carries the title and body of the answer, with
    the empty string for a missing one, and an issue whose lookup fails
    carries [null] for both, whatever happens to the other lookups. *)
Theorem enrichPR_linked_issues (octokit : Fetcher.Octokit) (pr : PullRequest) :
  let owner := fst (Fetcher.ownerRepo pr) in
  let repo := snd (Fetcher.ownerRepo pr) in
  let e := Fetcher.enrichPR octokit pr in
  issue_number <$> linkedIssues e
  = Fetcher.extractLinkedIssues (JS.orDefault (body pr) EmptyString)
  /\ forall i, i ∈ linkedIssues e ->
       match Fetcher.issues_get octokit owner repo (issue_number i) with
       | Ok data =>
           issue_title i = Some (default EmptyString (Fetcher.data_title data))
           /\ issue_body i = Some (default EmptyString (Fetcher.data_body data))
       | Err _ => issue_title i = None /\ issue_body i = None
       end.
Proof.
  cbv zeta. unfold Fetcher.enrichPR.
  destruct (Fetcher.ownerRepo pr) as [owner repo]. cbn [fst snd linkedIssues].
  split.
  - induction (Fetcher.extractLinkedIssues _) as [|n l IH]; [reflexivity |].
    cbn [List.map fmap list_fmap]. f_equal; [| exact IH].
    unfold Fetcher.resolveIssue. now destruct (Fetcher.issues_get _ _ _ _).
  - intros i Hi. apply list_elem_of_In, in_map_iff in Hi as (n & <- & _).
    unfold Fetcher.resolveIssue.
    destruct (Fetcher.issues_get octokit owner repo n) as [data|msg] eqn:E;
      cbn [issue_number issue_title issue_body]; rewrite E; now split.
Qed.

(** X4: for a PR whose repository name is [owner/repo], [enrichPR]
    addresses its requests to that owner and that repository. *)
Theorem ownerRepo_of_full_name (pr : PullRequest) (owner repo : string) :
  JS.or (repoFullName pr) (base_repo_full_name pr) = Some (owner +:+ "/" +:+ repo) ->
  JS.occurs "/" owner = false -> JS.occurs "/" repo = false ->
  Fetcher.ownerRepo pr = (owner, Some repo).
Proof.
  intros Hname Ho Hr. unfold Fetcher.ownerRepo. rewrite Hname.
  assert (JS.orDefault (Some (owner +:+ "/" +:+ repo)) EmptyString
          = owner +:+ String "/" repo) as ->.
  { destruct owner; reflexivity. }
  rewrite split_append, (split_absent _ _ Ho), (split_absent _ _ Hr).
  reflexivity.
Qed.

Lemma ownerRepo_of_full_name_witness :
  Fetcher.ownerRepo Samples.widgets42 = ("acme", Some "widgets").
Proof.
  exact (ownerRepo_of_full_name Samples.widgets42 "acme" "widgets"
           eq_refl eq_refl eq_refl).
Defined.

(** X5: the full record of a search hit is requested from the owner and
    the repository that end its [repository_url]. *)
Theorem getFull_addresses_repository (octokit : Fetcher.Octokit)
        (api owner repo : string) (n : N) :
  JS.occurs "/" owner = false -> JS.occurs "/" repo = false ->
  Fetcher.getFull octokit (Fetcher.mkItem (api +:+ "/" +:+ owner +:+ "/" +:+ repo) n)
  = Fetcher.pulls_get octokit owner (Some repo) n.
Proof.
  intros Ho Hr. unfold Fetcher.getFull. cbn [Fetcher.repository_url Fetcher.item_number].
  change (api +:+ "/" +:+ owner +:+ "/" +:+ repo)
    with (api +:+ String "/" (owner +:+ String "/" repo)).
  rewrite !split_append, (split_absent _ _ Ho), (split_absent _ _ Hr).
  unfold Fetcher.secondToLast, Fetcher.lastPart.
  rewrite !rev_app_distr. reflexivity.
Qed.

Lemma getFull_addresses_repository_witness :
  Fetcher.getFull Samples.host (Samples.hit 42)
  = Fetcher.pulls_get Samples.host "acme" (Some "widgets") 42.
Proof.
  exact (getFull_addresses_repository Samples.host "https://api.github.test/repos"
           "acme" "widgets" 42 eq_refl eq_refl).
Defined.

(** X6: the collector has no per-hit error handling: when the full record
    of any hit of the first page cannot be loaded, the whole collection
    fails with an error and returns no PR. *)
Theorem fetchMergedPRsForUser_aborts (fuel : nat) (octokit : Fetcher.Octokit)
        (login : string) (items : list Fetcher.SearchItem)
        (item : Fetcher.SearchItem) (e : string) :
  Fetcher.users_getAuthenticated octokit = Ok login ->
  Fetcher.search_issuesAndPullRequests octokit (Fetcher.query login) Fetcher.perPage 1
  = Ok items ->
  item ∈ items ->
  Fetcher.getFull octokit item = Err e ->
  exists e', Fetcher.fetchMergedPRsForUser (S fuel) octokit = Some (Err e').
Proof.
  intros Hu Hs Hin He. unfold Fetcher.fetchMergedPRsForUser. rewrite Hu.
  cbn [Fetcher.searchLoop]. rewrite Hs.
  destruct items as [|x items]; [now apply elem_of_nil in Hin |].
  destruct (resolveItems_fails octokit (x :: items) item e [] Hin He) as [e' ->].
  now exists e'.
Qed.

Lemma fetchMergedPRsForUser_aborts_witness :
  Fetcher.getFull Samples.brokenHost (Samples.hit 99) = Err "Not Found"
  /\ exists e', Fetcher.fetchMergedPRsForUser 1 Samples.brokenHost = Some (Err e').
Proof.
  split; [reflexivity |].
  apply (fetchMergedPRsForUser_aborts 0 Samples.brokenHost "gearhead"
           [Samples.hit 42; Samples.hit 99] (Samples.hit 99) "Not Found");
    try reflexivity.
  apply list_elem_of_further, list_elem_of_here.
Defined.

(** X7: the page loop of the collector stops only at an empty page, at a
    page of fewer than thirty hits or at an error: against a host that
    answers every page with thirty or more resolvable hits it does not
    return, however many pages it is given. *)
Theorem fetchMergedPRsForUser_full_pages (octokit : Fetcher.Octokit) (login : string) :
  Fetcher.users_getAuthenticated octokit = Ok login ->
  (forall page, exists items,
      Fetcher.search_issuesAndPullRequests octokit (Fetcher.query login)
                                           Fetcher.perPage page = Ok items
      /\ 30 <= length items
      /\ forall item, item ∈ items -> exists full, Fetcher.getFull octokit item = Ok full) ->
  forall fuel, Fetcher.fetchMergedPRsForUser fuel octokit = None.
Proof.
  intros Hu Hpages fuel. unfold Fetcher.fetchMergedPRsForUser. rewrite Hu.
  generalize 1%N as page. generalize (@nil PullRequest) as acc.
  induction fuel as [|fuel IH]; intros acc page; [reflexivity |].
  cbn [Fetcher.searchLoop].
  destruct (Hpages page) as (items & -> & Hlen & Hall).
  destruct items as [|x items]; [cbn in Hlen; lia |].
  destruct (resolveItems_ok octokit (x :: items) acc Hall) as [prs ->].
  assert ((N.of_nat (length (x :: items)) <? Fetcher.perPage)%N = false) as ->.
  { apply N.ltb_ge. unfold Fetcher.perPage. lia. }
  apply IH.
Qed.

Lemma fetchMergedPRsForUser_full_pages_witness :
  Fetcher.fetchMergedPRsForUser 7 Samples.endlessHost = None.
Proof.
  apply (fetchMergedPRsForUser_full_pages Samples.endlessHost "gearhead");
    [reflexivity |].
  intros page. exists (replicate 30 (Samples.hit 42)).
  split; [reflexivity |]. split; [vm_compute; lia |].
  intros item _. now eexists.
Defined.

(** ** Reading a payload back *)

Section ReaderFacts.
Import Payload Reader.

Lemma objGet_numbered (start : N) (l : list string) (id h : string) :
  (id, h) ∈ numbered start l -> objGet id (numbered start l) = Some h.
Proof.
  revert start. induction l as [|x l IH]; intros start Hin.
  - now apply elem_of_nil in Hin.
  - cbn [numbered objGet] in *. apply elem_of_cons in Hin as [Heq | Hin].
    + injection Heq as -> ->. now rewrite String.eqb_refl.
    + destruct (String.eqb (hunkId (start + 1)) id) eqn:E.
      * apply String.eqb_eq in E.
        apply numbered_elem in Hin as (_ & j & Hj & ->).
        apply hunkId_inj in E. lia.
      * now apply IH.
Qed.

End ReaderFacts.

(** X8: reading a payload back.  Every review comment is in the payload
    at its own position with its path and body, and looking its [hunkRef]
    up in [diffHunks] gives back the comment's own diff context; a comment
    without context resolves to nothing. *)
Theorem hunkRef_resolves (e : EnrichedPR) (i : nat) (c : ReviewComment) :
  reviewComments e !! i = Some c ->
  exists out,
    Payload.comments (Payload.prToLLMPackage e) !! i = Some out
    /\ Payload.out_path out = path c
    /\ Payload.out_body out = comment_body c
    /\ Reader.resolve (Payload.prToLLMPackage e) out
       = match diff_hunk c with
         | Some (String a s) => Some (String a s)
         | _ => None
         end.
Proof.
  intros Hc.
  destruct (prToLLMPackage_comment e i c Hc) as (ref & Hout & Href).
  eexists. split; [exact Hout |]. split; [reflexivity |]. split; [reflexivity |].
  unfold Reader.resolve. cbn [Payload.hunkRef].
  rewrite prToLLMPackage_table.
  destruct (diff_hunk c) as [[|a s]|].
  - now subst ref.
  - destruct Href as (id & -> & Hin).
    destruct (Payload.numbered 0 _) as [|entry table] eqn:E.
    + now apply elem_of_nil in Hin.
    + rewrite <- E in *. now apply objGet_numbered.
  - now subst ref.
Qed.

Lemma hunkRef_resolves_witness :
  exists out,
    Payload.comments (Payload.prToLLMPackage Samples.reviewed) !! 2%nat = Some out
    /\ Payload.out_path out = "gear.c"
    /\ Payload.out_body out = "Thirteen would not mesh."
    /\ Reader.resolve (Payload.prToLLMPackage Samples.reviewed) out
       = Some "@@ -1,3 +1,4 @@".
Proof.
  exact (hunkRef_resolves Samples.reviewed 2
           (mkComment "gear.c" "Thirteen would not mesh." (Some "@@ -1,3 +1,4 @@"))
           eq_refl).
Defined.

(** ** Text chunks and blocks *)

Section ChunkFacts.
Import Blocks.

Lemma length_slice0 (n : nat) (s : string) :
  String.length (JS.slice0 n s) = Nat.min n (String.length s).
Proof.
  revert s. induction n as [|n IH]; intros [|a s]; cbn; try reflexivity.
  now rewrite IH.
Qed.

Lemma richTextLoop_chunks (turns : nat) (s : string) (b : bool) :
  Forall (fun t => 1 <= String.length (content t) <= RICH_TEXT_LIMIT
                   /\ bold t = Some b)
         (richTextLoop turns s b).
Proof.
  revert s. induction turns as [|turns IH]; intros s; [constructor |].
  destruct s as [|a s]; [constructor |].
  cbn [richTextLoop]. constructor; [| apply IH].
  cbn [content bold]. split; [| reflexivity].
  rewrite length_slice0. unfold RICH_TEXT_LIMIT.
  cbn [String.length]. lia.
Qed.

Lemma richTextLoop_length (turns : nat) (s : string) (b : bool) :
  String.length s <= turns ->
  length (richTextLoop turns s b) = (String.length s + 1999) / 2000.
Proof.
  revert s. induction turns as [|turns IH]; intros s Hlen.
  - destruct s; [reflexivity | cbn in Hlen; lia].
  - destruct s as [|a s]; [reflexivity |].
    cbn [richTextLoop length]. rewrite IH.
    + rewrite length_sliceFrom. unfold RICH_TEXT_LIMIT.
      set (n := String.length (String a s)).
      assert (1 <= n) by (subst n; cbn; lia).
      destruct (le_lt_dec n 2000) as [Hle | Hgt].
      * replace (n - 2000) with 0 by lia.
        change ((0 + 1999) / 2000) with 0.
        apply (Nat.div_unique _ _ 1 (n - 1)); lia.
      * replace (n + 1999) with ((n - 2000 + 1999) + 1 * 2000) by lia.
        rewrite Nat.div_add by lia. lia.
    + rewrite length_sliceFrom. unfold RICH_TEXT_LIMIT. cbn [String.length] in *. lia.
Qed.

Lemma richText_nonempty (s : string) (b : bool) :
  s <> EmptyString -> richText s b <> [].
Proof. destruct s as [|a s]; [congruence | discriminate]. Qed.

Lemma lineBlocks_cases (line : string) :
  (trim line = EmptyString /\ lineBlocks line = [])
  \/ (trim line <> EmptyString
      /\ exists kind x, x <> EmptyString /\ lineBlocks line = [block kind x false]).
Proof.
  unfold lineBlocks. destruct (trim line) as [|a t] eqn:E; [now left |].
  right. split; [discriminate |].
  destruct (regexMatch headingRe (String a t)) as [c|] eqn:Eh.
  - apply headingRe_matches in Eh as (_ & x & _ & _ & _ & Hx & _ & _ & ->).
    now exists heading_2, x.
  - destruct (regexMatch bulletRe (String a t)) as [c|] eqn:Eb.
    + apply bulletRe_matches in Eb as (_ & _ & x & _ & _ & Hx & _ & ->).
      now exists bulleted_list_item, x.
    + now exists paragraph, (String a t).
Qed.

Lemma splitLines_crlf (s : string) :
  JS.occurs CR s = false ->
  splitLines (JS.replaceAll LF (String CR (String LF EmptyString)) s) = splitLines s.
Proof.
  induction s as [|a s IH]; intros H; [reflexivity |].
  cbn [JS.occurs] in H. apply orb_false_iff in H as [Ha Hs].
  specialize (IH Hs).
  cbn [JS.replaceAll]. destruct (Ascii.eqb a LF) eqn:El.
  - cbn [String.append splitLines].
    change (Ascii.eqb CR LF) with false. cbv iota.
    change (Ascii.eqb CR CR) with true. rewrite Ascii.eqb_refl. cbn [andb].
    rewrite IH, El. reflexivity.
  - cbn [splitLines]. rewrite El, Ha. cbn [andb].
    destruct s as [|b s]; [reflexivity |].
    rewrite <- IH.
    cbn [JS.replaceAll]. destruct (Ascii.eqb b LF); reflexivity.
Qed.

End ChunkFacts.

(** X9: [richText] cuts a text into chunks that concatenate to the text,
    each of 1 to 2000 characters and carrying the bold flag; their number
    is the length divided by 2000, rounded up, so the empty text has
    none. *)
Theorem richText_chunks (text : string) (b : bool) :
  fold_right String.append EmptyString (Blocks.content <$> Blocks.richText text b) = text
  /\ Forall (fun t => 1 <= String.length (Blocks.content t) <= Blocks.RICH_TEXT_LIMIT
                      /\ Blocks.bold t = Some b)
            (Blocks.richText text b)
  /\ length (Blocks.richText text b) = (String.length text + 1999) / 2000.
Proof.
  split; [apply richText_covers |].
  split; [apply richTextLoop_chunks |].
  apply richTextLoop_length. lia.
Qed.

(** X10: every block [markdownToNotionBlocks] produces has at least one
    text object, and each of its text objects holds between 1 and 2000
    characters. *)
Theorem markdownToNotionBlocks_within_limit (markdown : string) (b : Blocks.Block) :
  b ∈ Blocks.markdownToNotionBlocks markdown ->
  Blocks.rich_text b <> []
  /\ Forall (fun t => 1 <= String.length (Blocks.content t) <= 2000)
            (Blocks.rich_text b).
Proof.
  intros Hb. unfold Blocks.markdownToNotionBlocks in Hb.
  apply list_elem_of_In, in_flat_map in Hb as (line & _ & Hb).
  destruct (lineBlocks_cases line) as [[_ E] | (_ & kind & x & Hx & E)];
    rewrite E in Hb; [contradiction |].
  destruct Hb as [<- | []]. cbn [Blocks.block Blocks.rich_text]. split.
  - now apply richText_nonempty.
  - eapply Forall_impl; [apply richTextLoop_chunks |].
    intros t [H _]. exact H.
Qed.

Lemma markdownToNotionBlocks_within_limit_witness :
  Blocks.rich_text (Blocks.block Blocks.heading_2 "Problem" false) <> []
  /\ Forall (fun t => 1 <= String.length (Blocks.content t) <= 2000)
            (Blocks.rich_text (Blocks.block Blocks.heading_2 "Problem" false)).
Proof.
  apply (markdownToNotionBlocks_within_limit Samples.markdown).
  vm_compute. apply list_elem_of_here.
Defined.

(** X11: [markdownToNotionBlocks] produces exactly one block per line
    that is not blank, and nothing for blank lines. *)
Theorem markdownToNotionBlocks_count (markdown : string) :
  length (Blocks.markdownToNotionBlocks markdown)
  = length (filter (fun line => Blocks.trim line <> EmptyString)
                   (Blocks.splitLines markdown)).
Proof.
  unfold Blocks.markdownToNotionBlocks.
  induction (Blocks.splitLines markdown) as [|line lines IH]; [reflexivity |].
  cbn [flat_map]. rewrite length_app, IH.
  destruct (lineBlocks_cases line) as [[Ht E] | (Ht & kind & x & _ & E)]; rewrite E.
  - rewrite filter_cons_False by (intros H; now apply H). reflexivity.
  - rewrite filter_cons_True by exact Ht. reflexivity.
Qed.

(** X12: line endings do not matter: a markdown text without carriage
    returns gives the same blocks when every line feed is preceded by a
    carriage return. *)
Theorem markdownToNotionBlocks_crlf (markdown : string) :
  JS.occurs Blocks.CR markdown = false ->
  Blocks.markdownToNotionBlocks
    (JS.replaceAll Blocks.LF (String Blocks.CR (String Blocks.LF EmptyString)) markdown)
  = Blocks.markdownToNotionBlocks markdown.
Proof.
  intros H. unfold Blocks.markdownToNotionBlocks. now rewrite splitLines_crlf.
Qed.

Lemma markdownToNotionBlocks_crlf_witness :
  Blocks.markdownToNotionBlocks
    (JS.replaceAll Blocks.LF (String Blocks.CR (String Blocks.LF EmptyString))
                   Samples.twoLines)
  = Blocks.markdownToNotionBlocks Samples.twoLines.
Proof. exact (markdownToNotionBlocks_crlf Samples.twoLines eq_refl). Defined.

(** ** The appended blocks *)

Section TitleFacts.

Lemma occurs_replaceAll (c c' : ascii) (d s : string) :
  JS.occurs c d = false ->
  (c = c' \/ JS.occurs c s = false) ->
  JS.occurs c (JS.replaceAll c' d s) = false.
Proof.
  intros Hd Hs. induction s as [|a s IH]; [reflexivity |].
  cbn [JS.replaceAll]. destruct (Ascii.eqb a c') eqn:E.
  - rewrite occurs_append, Hd. cbn [orb]. apply IH.
    destruct Hs as [-> | Hs]; [now left |].
    cbn [JS.occurs] in Hs. apply orb_false_iff in Hs as [_ Hs]. now right.
  - cbn [JS.occurs]. destruct Hs as [-> | Hs].
    + rewrite E. cbn [orb]. apply IH. now left.
    + cbn [JS.occurs] in Hs. apply orb_false_iff in Hs as [Ha Hs].
      rewrite Ha. cbn [orb]. apply IH. now right.
Qed.

Lemma displayTitle_plain (stem : string) :
  JS.occurs "_" (Notion.displayTitle stem) = false
  /\ JS.occurs "-" (Notion.displayTitle stem) = false.
Proof.
  unfold Notion.displayTitle. split.
  - apply occurs_replaceAll; [reflexivity |]. right.
    apply occurs_replaceAll; [reflexivity | now left].
  - apply occurs_replaceAll; [reflexivity | now left].
Qed.

Lemma filter_parsed (bs : list Blocks.Block) :
  (forall b, b ∈ bs -> Blocks.isParsedKind b = true) ->
  filter (fun b => Blocks.isParsedKind b = false) bs = [].
Proof.
  induction bs as [|b bs IH]; intros H; [reflexivity |].
  rewrite filter_cons_False.
  - apply IH. intros b' Hb'. apply H. now apply list_elem_of_further.
  - rewrite (H b); [discriminate | apply list_elem_of_here].
Qed.

End TitleFacts.

(** X13: the blocks appended for a PR start with the heading that holds
    the display title and end with a divider, which is the only divider
    among them, whatever the summary contains; the display title holds
    neither an underscore nor a hyphen. *)
Theorem summaryBlocks_shape (stem summaryMarkdown : string) :
  let blocks := Notion.summaryBlocks stem summaryMarkdown in
  head blocks
  = Some (Blocks.mkBlock Blocks.heading_2
            [Blocks.mkText (Notion.displayTitle stem) None])
  /\ last blocks = Some (Blocks.mkBlock Blocks.divider [])
  /\ filter (fun b => Blocks.isParsedKind b = false) blocks
     = [Blocks.mkBlock Blocks.divider []]
  /\ JS.occurs "_" (Notion.displayTitle stem) = false
  /\ JS.occurs "-" (Notion.displayTitle stem) = false.
Proof.
  cbv zeta. unfold Notion.summaryBlocks.
  split; [reflexivity |].
  split; [now rewrite app_assoc, last_snoc |].
  split; [| apply displayTitle_plain].
  assert (filter (fun b => Blocks.isParsedKind b = false)
                 (Blocks.markdownToNotionBlocks summaryMarkdown) = []) as Hmid.
  { apply filter_parsed. intros b Hb. unfold Blocks.markdownToNotionBlocks in Hb.
    apply list_elem_of_In, in_flat_map in Hb as (line & _ & Hb).
    apply (lineBlocks_kinds line). now apply list_elem_of_In. }
  rewrite !filter_app, Hmid. reflexivity.
Qed.

(** ** What a run reports and calls *)

Section AccountFacts.
Import Cache Sync Report.

Variable env : Env.
Variable pageId : string.
Variable n : nat.

Lemma count_app (p : Effect -> bool) (es1 es2 : list Effect) :
  count p (es1 ++ es2) = count p es1 + count p es2.
Proof. unfold count. now rewrite filter_app, length_app. Qed.

Lemma attempt_shape (stem : string) (pr : PullRequest) :
  let pkg := Payload.prToLLMPackage (Fetcher.enrichPR (octokit env) pr) in
  (exists message,
      attempt env pageId stem pr = ([EnrichCall pr; SummarizeCall pkg], Err message)
      /\ summarizePR env pkg = Err message)
  \/ (exists summary r,
        attempt env pageId stem pr
        = ([EnrichCall pr; SummarizeCall pkg;
            AppendCall (Notion.cleanId pageId) (Notion.summaryBlocks stem summary)], r)
        /\ summarizePR env pkg = Ok summary
        /\ r = blocks_children_append env (Notion.cleanId pageId)
                 (Notion.summaryBlocks stem summary)).
Proof.
  cbv zeta. unfold attempt.
  destruct (summarizePR env _) as [summary|message].
  - right. now exists summary, (blocks_children_append env (Notion.cleanId pageId)
                                  (Notion.summaryBlocks stem summary)).
  - left. now exists message.
Qed.

Lemma tally_app (es1 es2 : list Effect) (k1 k2 : nat) :
  Tally es1 k1 -> Tally es2 k2 -> Tally (es1 ++ es2) (k1 + k2).
Proof.
  intros [] []. split; rewrite !count_app; lia.
Qed.

Lemma iteration_tally (st : Machine) (i : nat) (pr : PullRequest) :
  exists es,
    trace (iteration env pageId n st i pr) = trace st ++ es
    /\ Tally es 1
    /\ sublist (enrichedPRs es) [pr].
Proof.
  destruct (iteration_cases env pageId n st i pr)
    as [(_ & _ & ->) | [(_ & calls & Ha & ->) | (_ & calls & message & Ha & ->)]].
  - eexists. split; [reflexivity |]. split; [split; vm_compute; lia |].
    apply sublist_nil_l.
  - eexists. split; [reflexivity |]. cbn [trace].
    destruct (attempt_shape (Stem.prToStem pr) pr)
      as [(m & Hs & _) | (summary & r & Hs & _ & _)];
      rewrite Hs in Ha; injection Ha as <- ?; [discriminate |].
    split; [split; vm_compute; lia | reflexivity].
  - eexists. split; [reflexivity |]. cbn [trace].
    destruct (attempt_shape (Stem.prToStem pr) pr)
      as [(m & Hs & _) | (summary & r & Hs & _ & _)];
      rewrite Hs in Ha; injection Ha as <- ?.
    + split; [split; vm_compute; lia | reflexivity].
    + split; [split; vm_compute; lia | reflexivity].
Qed.

Lemma loopFrom_tally (prs : list PullRequest) (i : nat) (st : Machine) :
  exists es,
    trace (loopFrom env pageId n i prs st) = trace st ++ es
    /\ Tally es (length prs)
    /\ sublist (enrichedPRs es) prs.
Proof.
  revert i st. induction prs as [|pr prs IH]; intros i st.
  - exists []. split; [now rewrite app_nil_r |]. split; [split; vm_compute; lia | constructor].
  - cbn [loopFrom].
    destruct (iteration_tally st i pr) as (es1 & E1 & T1 & S1).
    destruct (IH (S i) (iteration env pageId n st i pr)) as (es2 & E2 & T2 & S2).
    exists (es1 ++ es2). split; [now rewrite E2, E1, app_assoc |].
    split; [exact (tally_app _ _ 1 (length prs) T1 T2) |].
    rewrite enrichedPRs_app. change (pr :: prs) with ([pr] ++ prs).
    now apply sublist_app.
Qed.

End AccountFacts.

Section RunTallies.
Import Cache Sync Report.

Lemma finish_tally (env : Env) (pageId : string) (file : File)
      (prs : list PullRequest) :
  Tally (trace (finish env pageId file prs)) (length (selected env prs))
  /\ sublist (enrichedPRs (trace (finish env pageId file prs))) (selected env prs).
Proof.
  unfold finish, persist, saved. cbn [trace].
  destruct (loopFrom_tally env pageId (length (selected env prs)) (selected env prs) 0
              (enterLoop env file prs)) as (es & -> & T & S).
  split.
  - assert (Tally (trace (enterLoop env file prs)) 0) as T0
        by (split; vm_compute; lia).
    assert (Tally [ConsoleLog (Text "Done.");
                   ConsoleLog (Text ("Page: https://notion.so/"
                                       +:+ Notion.cleanId pageId))] 0) as T1
        by (split; vm_compute; lia).
    pose proof (tally_app _ _ _ 0 (tally_app _ _ 0 _ T0 T) T1) as H.
    now rewrite Nat.add_0_r in H.
  - rewrite !enrichedPRs_app. cbn. now rewrite app_nil_r.
Qed.

End RunTallies.

Section TurnFacts.
Import Cache Sync Report.

Variable env : Env.
Variable pageId : string.
Variable n : nat.

Lemma iteration_turn (st : Machine) (i : nat) (pr : PullRequest) :
  exists seg,
    trace (iteration env pageId n st i pr) = trace st ++ seg
    /\ Turn env pageId n i pr seg.
Proof.
  unfold iteration, attempt.
  destruct (truthy _ && negb _).
  - eexists. split; [reflexivity | constructor].
  - destruct (summarizePR env _) as [summary|message] eqn:Es.
    + destruct (blocks_children_append env _ _) as [[]|message] eqn:Ea;
        cbn [trace emit]; rewrite <- app_assoc; eexists; (split; [reflexivity |]).
      * now apply TurnAppended.
      * now apply TurnNotAppended.
    + cbn [trace emit]. rewrite <- app_assoc. eexists. split; [reflexivity |].
      now apply TurnNotSummarized.
Qed.

Lemma loopFrom_turns (prs : list PullRequest) (i : nat) (st : Machine) :
  exists segments,
    trace (loopFrom env pageId n i prs st) = trace st ++ concat segments
    /\ length segments = length prs
    /\ forall j pr, prs !! j = Some pr ->
         exists seg, segments !! j = Some seg /\ Turn env pageId n (i + j) pr seg.
Proof.
  revert i st. induction prs as [|pr prs IH]; intros i st.
  - exists []. split; [cbn; now rewrite app_nil_r |]. split; [reflexivity |].
    intros j q H. discriminate H.
  - cbn [loopFrom].
    destruct (iteration_turn st i pr) as (seg & E1 & T1).
    destruct (IH (S i) (iteration env pageId n st i pr)) as (segments & E2 & L & T2).
    exists (seg :: segments). split; [cbn [concat]; now rewrite E2, E1, app_assoc |].
    split; [cbn; now rewrite L |].
    intros [|j] q H; cbn in H.
    + injection H as <-. exists seg. rewrite Nat.add_0_r. now split.
    + destruct (T2 j q H) as (seg' & Hs & Ht). exists seg'.
      replace (i + S j) with (S i + j) by lia. now split.
Qed.

End TurnFacts.

(** X14: a complete run makes one turn per selected PR, in order, between
    the lines it prints before the loop and the two closing lines.  The
    turn of a PR is either the one line that reports it as cached, or the
    line that announces it, the call of [enrichPR] on this PR, the call of
    the summarizer on its payload and, when the summarizer answers, the
    append of its summary, closed by the line that reports this PR as
    appended or as FAILED.  So every selected PR is reported exactly once,
    and the PRs enriched and summarized are exactly those reported as
    appended or FAILED; an append is sent for every PR reported as
    appended and at most once per enriched PR. *)
Theorem runSync_accounts_for_every_pr (env : Sync.Env) (pageId : string)
        (file : Cache.File) (prs : list PullRequest) :
  let es := Sync.trace (Sync.finish env pageId file prs) in
  let chosen := Sync.selected env prs in
  (exists segments,
      es = Sync.trace (Sync.enterLoop env file prs) ++ concat segments
             ++ [Sync.ConsoleLog (Sync.Text "Done.");
                 Sync.ConsoleLog
                   (Sync.Text ("Page: https://notion.so/" +:+ Notion.cleanId pageId))]
      /\ length segments = length chosen
      /\ forall i pr, chosen !! i = Some pr ->
           exists seg, segments !! i = Some seg
                       /\ Report.Turn env pageId (length chosen) i pr seg)
  /\ Report.count Report.isCachedLine es + Report.count Report.isAppendedLine es
       + Report.count Report.isFailedLine es
     = length chosen
  /\ Report.count Report.isEnrich es
     = Report.count Report.isAppendedLine es + Report.count Report.isFailedLine es
  /\ Report.count Report.isSummarize es = Report.count Report.isEnrich es
  /\ Report.count Report.isAppendedLine es <= Report.count Sync.isAppend es
  /\ Report.count Sync.isAppend es <= Report.count Report.isEnrich es.
Proof.
  cbv zeta. split.
  - unfold Sync.finish, Sync.persist, Sync.saved. cbn [Sync.trace].
    destruct (loopFrom_turns env pageId (length (Sync.selected env prs))
                (Sync.selected env prs) 0 (Sync.enterLoop env file prs))
      as (segments & -> & L & T).
    exists segments. split; [now rewrite <- app_assoc |]. split; [exact L |].
    exact T.
  - destruct (finish_tally env pageId file prs) as [[] _]. auto.
Qed.

(** X15: the PRs a run enriches are, in order, among the selected ones,
    which are the first of the collected ones; with [--limit l] for a
    positive [l] there are [min l total] of them. *)
Theorem runSync_enriches_only_selected (env : Sync.Env) (pageId : string)
        (file : Cache.File) (prs : list PullRequest) :
  sublist (Sync.enrichedPRs (Sync.trace (Sync.finish env pageId file prs)))
          (Sync.selected env prs)
  /\ Sync.selected env prs `prefix_of` prs
  /\ forall l, Sync.limitArg env = Some l -> (0 < l)%N ->
               length (Sync.selected env prs) = Nat.min (N.to_nat l) (length prs).
Proof.
  split; [apply finish_tally |]. split.
  - unfold Sync.selected. apply prefix_take.
  - intros l Hl Hpos. unfold Sync.selected, Sync.chooseLimit. rewrite Hl.
    apply N.ltb_lt in Hpos. rewrite Hpos, length_take. lia.
Qed.

(** ** Cache entries across a run *)

Section EntryFacts.
Import Cache Sync.

Variable env : Env.
Variable pageId : string.
Variable n : nat.

Lemma iteration_entry (st : Machine) (i : nat) (pr : PullRequest)
      (k : string) (v : Marker) :
  image st !! k = Some v ->
  (image (iteration env pageId n st i pr) !! k = Some v
   \/ image (iteration env pageId n st i pr) !! k = Some (MBool true))
  /\ (force env = false -> truthy (Some v) = true ->
      image (iteration env pageId n st i pr) !! k = Some v).
Proof.
  intros Hk.
  destruct (iteration_cases env pageId n st i pr)
    as [(_ & _ & ->) | [(Hc & calls & _ & ->) | (_ & calls & message & _ & ->)]];
    cbn [image emit]; try (split; [now left | now intros]).
  destruct (decide (Stem.prToStem pr = k)) as [<- | Hne].
  - rewrite lookup_insert_eq. split; [now right |].
    intros Hf Hv. rewrite Hk, Hv, Hf in Hc. discriminate.
  - rewrite lookup_insert_ne by exact Hne. split; [now left | now intros].
Qed.

Lemma loopFrom_entry (prs : list PullRequest) (i : nat) (st : Machine)
      (k : string) (v : Marker) :
  image st !! k = Some v ->
  (image (loopFrom env pageId n i prs st) !! k = Some v
   \/ image (loopFrom env pageId n i prs st) !! k = Some (MBool true))
  /\ (force env = false -> truthy (Some v) = true ->
      image (loopFrom env pageId n i prs st) !! k = Some v).
Proof.
  revert i st v. induction prs as [|pr prs IH]; intros i st v Hk;
    [split; [now left | now intros] |].
  cbn [loopFrom].
  destruct (iteration_entry st i pr k v Hk) as [[H1 | H1] H2].
  - destruct (IH (S i) _ v H1) as [H3 H4]. split; [exact H3 | exact H4].
  - destruct (IH (S i) _ _ H1) as [[H3 | H3] H4].
    + split; [now right |]. intros Hf Hv. specialize (H2 Hf Hv).
      rewrite H2 in H1. injection H1 as ->. exact H3.
    + split; [now right |]. intros Hf Hv. specialize (H2 Hf Hv).
      rewrite H2 in H1. injection H1 as ->. exact H3.
Qed.

End EntryFacts.

(** X16: a run without [--force] removes nothing from the cache: every
    entry of the loaded file is in the saved file with its marker or with
    [true], and an entry whose marker is truthy keeps its marker. *)
Theorem runSync_keeps_cache_entries (env : Sync.Env) (pageId : string)
        (file : Cache.File) (prs : list PullRequest) (k : string) (v : Cache.Marker) :
  Sync.force env = false ->
  Cache.loadCache file !! k = Some v ->
  let after := Cache.loadCache (Sync.disk (Sync.finish env pageId file prs)) in
  (after !! k = Some v \/ after !! k = Some (Cache.MBool true))
  /\ (Cache.truthy (Some v) = true -> after !! k = Some v).
Proof.
  intros Hf Hk. cbv zeta. unfold Sync.finish, Sync.persist, Sync.saved.
  cbn [Sync.disk Cache.loadCache].
  assert (Sync.image (Sync.enterLoop env file prs) !! k = Some v) as H0.
  { unfold Sync.enterLoop. cbn [Sync.image]. now rewrite Hf. }
  destruct (loopFrom_entry env pageId (length (Sync.selected env prs))
              (Sync.selected env prs) 0 _ k v H0) as [H1 H2].
  split; [exact H1 | now apply H2].
Qed.

Lemma runSync_keeps_cache_entries_witness :
  Cache.loadCache
    (Sync.disk (Sync.finish Samples.envUp Samples.pageId Samples.staleFile
                            Samples.collected))
  !! "acme_gadgets_PR5_2023-01-01" = Some (Cache.MBool true).
Proof.
  exact (proj2 (runSync_keeps_cache_entries Samples.envUp Samples.pageId
                  Samples.staleFile Samples.collected
                  "acme_gadgets_PR5_2023-01-01" (Cache.MBool true)
                  eq_refl eq_refl) eq_refl).
Defined.

(** ** The diff facet *)

Section DiffFacts.
Import Fetcher Sync Variation.

Variable o : Octokit.
Variable d : string -> option string -> N -> result DiffData.

Lemma resolveItems_withDiff (items : list SearchItem) (acc : list PullRequest) :
  resolveItems (withDiff o d) items acc = resolveItems o items acc.
Proof.
  revert acc. induction items as [|x items IH]; intros acc; [reflexivity |].
  cbn [resolveItems]. change (getFull (withDiff o d) x) with (getFull o x).
  destruct (getFull o x); [apply IH | reflexivity].
Qed.

Lemma searchLoop_withDiff (fuel : nat) (login : string) (page : N)
      (acc : list PullRequest) :
  searchLoop fuel (withDiff o d) login page acc = searchLoop fuel o login page acc.
Proof.
  revert page acc. induction fuel as [|fuel IH]; intros page acc; [reflexivity |].
  cbn [searchLoop].
  change (search_issuesAndPullRequests (withDiff o d))
    with (search_issuesAndPullRequests o).
  destruct (search_issuesAndPullRequests o _ _ _) as [[|x items]|]; try reflexivity.
  rewrite resolveItems_withDiff.
  destruct (resolveItems o (x :: items) acc); [| reflexivity].
  destruct (_ <? _)%N; [reflexivity | apply IH].
Qed.

Lemma fetch_withDiff (fuel : nat) :
  fetchMergedPRsForUser fuel (withDiff o d) = fetchMergedPRsForUser fuel o.
Proof.
  unfold fetchMergedPRsForUser.
  change (users_getAuthenticated (withDiff o d)) with (users_getAuthenticated o).
  destruct (users_getAuthenticated o); [apply searchLoop_withDiff | reflexivity].
Qed.

Lemma payload_withDiff (pr : PullRequest) :
  Payload.prToLLMPackage (enrichPR (withDiff o d) pr)
  = Payload.prToLLMPackage (enrichPR o pr).
Proof. unfold enrichPR. now destruct (ownerRepo pr). Qed.

End DiffFacts.

Section DiffRun.
Import Fetcher Sync Variation.

Variable env : Env.
Variable d : string -> option string -> N -> result DiffData.

Lemma attempt_withDiff (pageId stem : string) (pr : PullRequest) :
  attempt (withOctokit env (withDiff (octokit env) d)) pageId stem pr = attempt env pageId stem pr.
Proof.
  unfold attempt. cbn [octokit withOctokit summarizePR blocks_children_append].
  now rewrite payload_withDiff.
Qed.

Lemma iteration_withDiff (pageId : string) (n : nat) (st : Machine) (i : nat)
      (pr : PullRequest) :
  iteration (withOctokit env (withDiff (octokit env) d)) pageId n st i pr = iteration env pageId n st i pr.
Proof.
  unfold iteration. rewrite attempt_withDiff. reflexivity.
Qed.

Lemma loopFrom_withDiff (pageId : string) (n : nat) (prs : list PullRequest)
      (i : nat) (st : Machine) :
  loopFrom (withOctokit env (withDiff (octokit env) d)) pageId n i prs st = loopFrom env pageId n i prs st.
Proof.
  revert i st. induction prs as [|pr prs IH]; intros i st; [reflexivity |].
  cbn [loopFrom]. now rewrite iteration_withDiff, IH.
Qed.

Lemma finish_withDiff (pageId : string) (file : Cache.File) (prs : list PullRequest) :
  finish (withOctokit env (withDiff (octokit env) d)) pageId file prs = finish env pageId file prs.
Proof.
  unfold finish. rewrite loopFrom_withDiff. reflexivity.
Qed.

Lemma afterTurns_withDiff (pageId : string) (file : Cache.File)
      (prs : list PullRequest) (k : nat) :
  afterTurns (withOctokit env (withDiff (octokit env) d)) pageId file prs k
  = afterTurns env pageId file prs k.
Proof.
  unfold afterTurns. rewrite loopFrom_withDiff. reflexivity.
Qed.

End DiffRun.

(** X17: the diff that [getPRDiff] fetches is not used downstream: a run
    against a host that answers the diff requests in any other way ends
    in the same way, with the same calls to the summarizer and the note
    store, the same lines and the same cache. *)
Theorem diff_never_reaches_a_run (fuel : nat) (env : Sync.Env) (file : Cache.File)
        (d : string -> option string -> N -> result Fetcher.DiffData) :
  Sync.runSync fuel (Variation.withOctokit env (Variation.withDiff (Sync.octokit env) d))
               file
  = Sync.runSync fuel env file.
Proof.
  unfold Sync.runSync.
  cbn [Variation.withOctokit Sync.NOTION_API_KEY Sync.NOTION_PAGE_ID Sync.force
       Sync.octokit].
  rewrite fetch_withDiff.
  destruct (Sync.NOTION_API_KEY env) as [[|a k]|]; try reflexivity.
  destruct (Sync.NOTION_PAGE_ID env) as [[|b p]|]; try reflexivity.
  destruct (Fetcher.fetchMergedPRsForUser fuel (Sync.octokit env)) as [[prs|msg]|];
    try reflexivity.
  cbv zeta. rewrite afterTurns_withDiff. reflexivity.
Qed.

(** ** A summarizer without credentials *)

Section CredentialFacts.
Import Cache Sync.

Variable env : Env.
Variable pageId : string.
Variable n : nat.
Variable message : string.
Hypothesis summarizer_down : forall pkg, summarizePR env pkg = Err message.

Lemma iteration_summarizer_down (st : Machine) (i : nat) (pr : PullRequest) :
  image (iteration env pageId n st i pr) = image st
  /\ exists l,
      trace (iteration env pageId n st i pr)
      = trace st ++ l
      /\ Forall (fun e => isAppend e = false) l
      /\ forall line, ConsoleError line ∈ l ->
                      line = Failed i n (Stem.prToStem pr) message.
Proof.
  unfold iteration, attempt. rewrite summarizer_down.
  destruct (truthy _ && negb _); cbn [image emit trace].
  - split; [reflexivity |]. eexists. split; [reflexivity |].
    split; [repeat constructor |]. intros line H.
    apply list_elem_of_singleton in H. discriminate.
  - split; [reflexivity |]. eexists. split; [rewrite <- app_assoc; reflexivity |].
    split; [repeat constructor |]. intros line H.
    cbn in H. rewrite !elem_of_cons in H.
    destruct H as [H | [H | [H | [H | H]]]]; try discriminate.
    + now injection H.
    + now apply elem_of_nil in H.
Qed.

Lemma loopFrom_summarizer_down (prs : list PullRequest) (i : nat) (st : Machine) :
  image (loopFrom env pageId n i prs st) = image st
  /\ exists l,
      trace (loopFrom env pageId n i prs st) = trace st ++ l
      /\ Forall (fun e => isAppend e = false) l
      /\ forall line, ConsoleError line ∈ l ->
                      exists j stem, line = Failed j n stem message.
Proof.
  revert i st. induction prs as [|pr prs IH]; intros i st.
  - split; [reflexivity |]. exists []. split; [now rewrite app_nil_r |].
    split; [constructor |]. intros line H. now apply elem_of_nil in H.
  - cbn [loopFrom].
    destruct (iteration_summarizer_down st i pr) as (I1 & l1 & E1 & A1 & F1).
    destruct (IH (S i) (iteration env pageId n st i pr)) as (I2 & l2 & E2 & A2 & F2).
    split; [now rewrite I2 |]. exists (l1 ++ l2).
    split; [now rewrite E2, E1, app_assoc |].
    split; [now apply Forall_app |].
    intros line H. apply elem_of_app in H as [H | H].
    + exists i, (Stem.prToStem pr). now apply F1.
    + now apply F2.
Qed.

End CredentialFacts.

(** X18: without an API key and without a project for the summarizer
    (the Vertex flag alone does not count), a run from the collected PRs
    on still completes: it appends nothing, every failure it reports
    carries the configuration message, and the cache it saves is the one
    it started from. *)
Theorem runSync_without_credentials (env : Sync.Env) (genai : Summarizer.GenAIEnv)
        (g : Summarizer.Gemini) (pageId : string) (file : Cache.File)
        (prs : list PullRequest) :
  JS.truthy (JS.or (Summarizer.GEMINI_API_KEY genai) (Summarizer.GOOGLE_API_KEY genai))
  = false ->
  JS.truthy (Summarizer.GOOGLE_CLOUD_PROJECT genai) = false ->
  let run := Sync.finish (Summarizer.withSummarizer env genai g) pageId file prs in
  Sync.disk run
  = Cache.JsonObject (if Sync.force env then ∅ else Cache.loadCache file)
  /\ filter (fun e => Sync.isAppend e = true) (Sync.trace run) = []
  /\ forall line, Sync.ConsoleError line ∈ Sync.trace run ->
       exists i n stem, line = Sync.Failed i n stem Summarizer.configError.
Proof.
  intros Hkey Hproject. cbv zeta.
  set (env' := Summarizer.withSummarizer env genai g).
  assert (forall pkg, Sync.summarizePR env' pkg = Err Summarizer.configError) as Hdown.
  { intros pkg. subst env'. cbn [Summarizer.withSummarizer Sync.summarizePR].
    unfold Summarizer.summarizePR, Summarizer.getClient.
    destruct (JS.or _ _) as [[|a k]|]; try discriminate Hkey;
      rewrite Hproject, andb_false_r; reflexivity. }
  unfold Sync.finish, Sync.persist, Sync.saved.
  destruct (loopFrom_summarizer_down env' pageId
              (length (Sync.selected env' prs)) Summarizer.configError Hdown
              (Sync.selected env' prs) 0 (Sync.enterLoop env' file prs))
    as (I & l & E & A & F).
  cbn [Sync.disk Sync.trace]. rewrite I, E. split; [reflexivity |]. split.
  - rewrite !filter_app.
    assert (filter (fun e => Sync.isAppend e = true) l = []) as ->.
    { clear -A. induction A as [|e l He _ IH]; [reflexivity |].
      rewrite filter_cons_False by (rewrite He; discriminate). exact IH. }
    reflexivity.
  - intros line H. rewrite !elem_of_app in H. destruct H as [[H | H] | H].
    + cbn in H. rewrite !elem_of_cons in H.
      destruct H as [H | [H | [H | [H | H]]]]; try discriminate.
      now apply elem_of_nil in H.
    + destruct (F line H) as (j & stem & ->). now eexists j, _, stem.
    + rewrite !elem_of_cons in H. destruct H as [H | [H | H]]; try discriminate.
      now apply elem_of_nil in H.
Qed.

Lemma runSync_without_credentials_witness :
  filter (fun e => Sync.isAppend e = true)
         (Sync.trace
            (Sync.finish
               (Summarizer.withSummarizer Samples.envUp Samples.noCredentials
                                          Samples.gemini)
               Samples.pageId Samples.staleFile Samples.collected))
  = [].
Proof.
  exact (proj1 (proj2 (runSync_without_credentials Samples.envUp
                         Samples.noCredentials Samples.gemini Samples.pageId
                         Samples.staleFile Samples.collected eq_refl eq_refl))).
Defined.

(** ** How many PRs *)

Section NumeralFacts.
Import Fetcher Prompt Blocks.

Lemma digit_plain (a : ascii) :
  isDigit a = true ->
  isSpace a = false /\ Ascii.eqb a "-" = false /\ Ascii.eqb a "+" = false
  /\ lowerUnit a = a /\ Ascii.eqb a "a" = false.
Proof.
  intros H.
  assert (Ascii.eqb a "-" = false /\ Ascii.eqb a "+" = false /\ Ascii.eqb a "a" = false)
    as (H1 & H2 & H3).
  { repeat split; apply Ascii.eqb_neq; intros ->; discriminate H. }
  unfold isDigit in H. apply andb_true_iff in H as [Hlo Hhi].
  apply Nat.leb_le in Hlo, Hhi.
  repeat split; try assumption.
  - unfold isSpace. cbv zeta.
    destruct (Nat.leb_spec 9 (nat_of_ascii a)), (Nat.leb_spec (nat_of_ascii a) 13),
      (Nat.eqb_spec (nat_of_ascii a) 32), (Nat.eqb_spec (nat_of_ascii a) 160);
      cbn; try reflexivity; lia.
  - unfold lowerUnit. cbv zeta.
    destruct (Nat.leb_spec 65 (nat_of_ascii a)), (Nat.leb_spec 192 (nat_of_ascii a));
      cbn; try reflexivity; lia.
Qed.

Lemma numeral_digits (d : Decimal.uint) :
  Forall (fun a => isDigit a = true) (list_ascii_of_string (NilEmpty.string_of_uint d)).
Proof.
  induction d; cbn; constructor; (reflexivity || assumption).
Qed.

Lemma trimEnd_digits (s : string) :
  Forall (fun a => isDigit a = true) (list_ascii_of_string s) -> trimEnd s = s.
Proof.
  induction s as [|a s IH]; intros H; [reflexivity |].
  cbn in H. apply Forall_cons in H as [Ha Hs].
  cbn [trimEnd]. rewrite (IH Hs).
  destruct s; [| reflexivity].
  destruct (digit_plain a Ha) as (-> & _). reflexivity.
Qed.

Lemma toLowerCase_digits (s : string) :
  Forall (fun a => isDigit a = true) (list_ascii_of_string s) -> toLowerCase s = s.
Proof.
  induction s as [|a s IH]; intros H; [reflexivity |].
  cbn in H. apply Forall_cons in H as [Ha Hs].
  cbn [toLowerCase]. rewrite (IH Hs).
  destruct (digit_plain a Ha) as (_ & _ & _ & -> & _). reflexivity.
Qed.

Lemma parseInt_numberToString (n : N) :
  parseInt (JS.numberToString n) = Some (Z.of_N n).
Proof.
  unfold parseInt, JS.numberToString.
  pose proof (digitsValue_numeral (N.to_uint n) 0 EmptyString eq_refl) as Hv.
  rewrite append_empty_r in Hv.
  change (Pos.of_uint (N.to_uint n)) with (N.of_uint (N.to_uint n)) in Hv.
  rewrite DecimalN.Unsigned.of_to in Hv.
  destruct (to_uint_digit n) as (a & s & E & Ha). rewrite E in *.
  destruct (digit_plain a Ha) as (Hs & Hm & Hp & _).
  cbn [trimStart]. rewrite Hs, Hm, Hp. cbn [orb]. rewrite Ha, Hv. reflexivity.
Qed.


Lemma trim_numeral (n : N) : trim (JS.numberToString n) = JS.numberToString n.
Proof.
  unfold trim, JS.numberToString.
  destruct (to_uint_digit n) as (a & s & E & Ha).
  assert (trimStart (NilEmpty.string_of_uint (N.to_uint n))
          = NilEmpty.string_of_uint (N.to_uint n)) as ->.
  { rewrite E. cbn [trimStart]. now destruct (digit_plain a Ha) as (-> & _). }
  apply trimEnd_digits, numeral_digits.
Qed.


Lemma indexOf_absent (x : string) (argv : list string) :
  x ∉ argv -> indexOf x argv = None.
Proof.
  induction argv as [|a argv IH]; intros H; [reflexivity |].
  apply not_elem_of_cons in H as [Hne Hrest]. cbn [indexOf].
  assert (String.eqb a x = false) as -> by (apply String.eqb_neq; congruence).
  now rewrite (IH Hrest).
Qed.

Lemma sliceTo_min {A : Type} (l : N) (prs : list A) :
  sliceTo (Z.min (Z.of_N l) (Z.of_N (N.of_nat (length prs)))) prs
  = take (N.to_nat l) prs.
Proof.
  unfold sliceTo.
  destruct (Z.ltb_spec (Z.min (Z.of_N l) (Z.of_N (N.of_nat (length prs)))) 0); [lia |].
  destruct (Z.min_spec (Z.of_N l) (Z.of_N (N.of_nat (length prs))))
    as [[Hlt ->] | [Hge ->]].
  - f_equal. lia.
  - rewrite !take_ge by lia. reflexivity.
Qed.

Lemma askHowManyPRs_numeral (interactive : bool) (l total : N) :
  (0 < l)%N ->
  askHowManyPRs
    (mkTerminal interactive (Some (JS.numberToString l)) (JS.numberToString l)) total
  = Z.min (Z.of_N l) (Z.of_N total).
Proof.
  intros Hl. unfold askHowManyPRs. cbn [isTTY PR_LIMIT answer].
  destruct (to_uint_digit l) as (a & s & E & Ha).
  destruct interactive; cbn [negb].
  - assert (JS.orDefault (Some (JS.numberToString l)) "all" = JS.numberToString l) as ->.
    { unfold JS.numberToString. now rewrite E. }
    rewrite trim_numeral.
    assert (toLowerCase (JS.numberToString l) = JS.numberToString l) as ->
        by apply toLowerCase_digits, numeral_digits.
    rewrite parseInt_numberToString.
    unfold JS.numberToString. rewrite E.
    destruct (digit_plain a Ha) as (_ & _ & _ & _ & Hna).
    cbn [String.eqb]. rewrite Hna. cbn [orb].
    destruct (Z.ltb_spec 0 (Z.of_N l)); [reflexivity | lia].
  - pose proof (parseInt_numberToString l) as Hp.
    unfold JS.numberToString in *. rewrite E in *. rewrite Hp.
    destruct (Z.eqb_spec (Z.of_N l) 0); [lia | reflexivity].
Qed.

End NumeralFacts.

(** X19: at a terminal the prompt resolves to the total or to a number
    between 1 and the total, whatever is typed, and it does not read
    [PR_LIMIT]. *)
Theorem askHowManyPRs_interactive (answer : string) (limit : option string)
        (total : N) :
  let asked := Prompt.askHowManyPRs (Prompt.mkTerminal true limit answer) total in
  (Z.min 1 (Z.of_N total) <= asked <= Z.of_N total)%Z
  /\ asked = Prompt.askHowManyPRs (Prompt.mkTerminal true None answer) total.
Proof.
  cbv zeta. split; [| reflexivity].
  unfold Prompt.askHowManyPRs. cbn [Prompt.isTTY negb Prompt.answer].
  destruct (_ || _); [lia |].
  destruct (Prompt.parseInt _) as [z|]; [| lia].
  destruct (Z.ltb_spec 0 z); lia.
Qed.





(** X22: without [--limit], the decimal numeral of a positive [l] typed at
    the prompt, or exported as [PR_LIMIT] when there is no terminal, keeps
    the first [l] PRs. *)
Theorem typed_or_exported_number (l : N) (argv : list string) (interactive : bool)
        (prs : list PullRequest) :
  "--limit" ∉ argv -> (0 < l)%N ->
  Prompt.selected argv
    (Prompt.mkTerminal interactive (Some (JS.numberToString l)) (JS.numberToString l))
    prs
  = take (N.to_nat l) prs.
Proof.
  intros Hargv Hl. unfold Prompt.selected, Prompt.chooseLimit, Prompt.limitArg.
  rewrite indexOf_absent by exact Hargv.
  rewrite askHowManyPRs_numeral by exact Hl.
  apply sliceTo_min.
Qed.

Lemma typed_or_exported_number_witness :
  Prompt.selected ["node"; "sync.js"] (Prompt.mkTerminal false (Some "1") "1")
                  Samples.collected
  = [Samples.pr42].
Proof.
  apply (typed_or_exported_number 1 ["node"; "sync.js"] false Samples.collected);
    [| reflexivity].
  apply not_elem_of_cons. split; [discriminate |].
  apply not_elem_of_cons. split; [discriminate | apply not_elem_of_nil].
Defined.

(** ** One page per summary file *)

Section PageFacts.
Import Cache Pages.

Variable w : World.
Variable o : Options.

(** The ways a turn can end. *)
Lemma syncFile_cases (st : Progress) (file : string) :
  let stem := stripSuffix file in
  (exists cachedId,
      cache st !! stem = Some (MString cachedId) /\ cachedId <> EmptyString
      /\ syncFile w o st file
         = (mkProgress (cache st)
              (results st ++
               [mkSynced stem (Some cachedId)
                         ("https://notion.so/" +:+ Notion.cleanId cachedId) true])
              (requests st), Ok tt))
  \/ (truthy (cache st !! stem) = true
      /\ (forall s, cache st !! stem <> Some (MString s))
      /\ syncFile w o st file = (st, Err typeError))
  \/ (truthy (cache st !! stem) = false
      /\ exists e, readFile w file = Err e /\ syncFile w o st file = (st, Err e))
  \/ (truthy (cache st !! stem) = false
      /\ exists content e,
          readFile w file = Ok content
          /\ pages_create w (summaryRequest o (basename o file) content) = Err e
          /\ syncFile w o st file
             = (mkProgress (cache st) (results st)
                  (requests st ++ [summaryRequest o (basename o file) content]),
                Err e))
  \/ (truthy (cache st !! stem) = false
      /\ exists content page,
          readFile w file = Ok content
          /\ pages_create w (summaryRequest o (basename o file) content) = Ok page
          /\ syncFile w o st file
             = (mkProgress
                  (match page_id page with
                   | Some i => <[stem := MString i]> (cache st)
                   | None => delete stem (cache st)
                   end)
                  (results st ++
                   [mkSynced stem (page_id page)
                      (JS.orDefault (page_url page)
                         ("https://notion.so/" +:+ idText (page_id page))) false])
                  (requests st ++ [summaryRequest o (basename o file) content]),
                Ok tt)).
Proof.
  cbv zeta. unfold syncFile.
  destruct (truthy (cache st !! stripSuffix file)) eqn:Et.
  - destruct (cache st !! stripSuffix file) as [[b|s|k|]|] eqn:Ec;
      try (right; left; split; [reflexivity |];
           split; [intros s'; discriminate | reflexivity]).
    left. exists s. split; [reflexivity |]. split; [| reflexivity].
    intros ->. discriminate Et.
  - right. right.
    destruct (readFile w file) as [content|e] eqn:Er.
    + right. unfold createSummaryPageFromMarkdown, createPage.
      change (request (parentType o) (parentId o)
                (Notion.displayTitle (basename o file))
                (Blocks.markdownToNotionBlocks content) (titleProperty o))
        with (summaryRequest o (basename o file) content).
      destruct (pages_create w _) as [page|e] eqn:Ep.
      * right. split; [reflexivity |]. now exists content, page.
      * left. split; [reflexivity |]. now exists content, e.
    + left. split; [reflexivity |]. now exists e.
Qed.

Lemma syncFile_requests (st st' : Progress) (file : string) (r : result unit) :
  syncFile w o st file = (st', r) -> requests st `prefix_of` requests st'.
Proof.
  intros H.
  destruct (syncFile_cases st file)
    as [(c & _ & _ & E) | [(_ & _ & E) | [(_ & e & _ & E)
        | [(_ & c & e & _ & _ & E) | (_ & c & p & _ & _ & E)]]]];
    rewrite E in H; injection H as <- <-; cbn [requests];
    (reflexivity || now apply prefix_app_r).
Qed.

Lemma syncFiles_requests (files : list string) (st st' : Progress) (r : result unit) :
  syncFiles w o files st = (st', r) -> requests st `prefix_of` requests st'.
Proof.
  revert st. induction files as [|file files IH]; intros st H; cbn [syncFiles] in H.
  - now injection H as <- <-.
  - destruct (syncFile w o st file) as [st1 [[]|e]] eqn:E1.
    + etransitivity; [exact (syncFile_requests _ _ _ _ E1) | now apply IH].
    + injection H as <- <-. exact (syncFile_requests _ _ _ _ E1).
Qed.

(** A complete loop: one result per file, in order, and one request for
    every result that is not marked as cached. *)
Lemma syncFiles_results (files : list string) (st st' : Progress) :
  syncFiles w o files st = (st', Ok tt) ->
  exists rs qs,
    results st' = results st ++ rs
    /\ requests st' = requests st ++ qs
    /\ synced_stem <$> rs = stripSuffix <$> files
    /\ length qs = length (filter (fun r => cached r = false) rs).
Proof.
  revert st. induction files as [|file files IH]; intros st H; cbn [syncFiles] in H.
  - injection H as <-. exists [], []. now rewrite !app_nil_r.
  - destruct (syncFile w o st file) as [st1 [[]|e]] eqn:E1; [| discriminate].
    destruct (IH st1 H) as (rs & qs & Hr & Hq & Hs & Hl).
    destruct (syncFile_cases st file)
      as [(c & _ & _ & E) | [(_ & _ & E) | [(_ & e & _ & E)
          | [(_ & c & e & _ & _ & E) | (_ & c & p & _ & _ & E)]]]];
      rewrite E in E1; try discriminate; injection E1 as <-;
      cbn [results requests] in Hr, Hq; rewrite <- app_assoc in *.
    + eexists (_ :: rs), qs. split; [exact Hr |]. split; [exact Hq |].
      split; [cbn; now rewrite Hs |].
      rewrite filter_cons_False by (cbn; discriminate). exact Hl.
    + eexists (_ :: rs), (_ :: qs). split; [exact Hr |]. split; [exact Hq |].
      split; [cbn; now rewrite Hs |].
      rewrite filter_cons_True by reflexivity. cbn. now rewrite Hl.
Qed.

Section SecondRun.
Hypothesis created_ids :
  forall req page, pages_create w req = Ok page -> JS.truthy (page_id page) = true.

Lemma syncFiles_first (files : list string) (st st' : Progress) :
  syncFiles w o files st = (st', Ok tt) ->
  (forall k s, s <> EmptyString -> cache st !! k = Some (MString s) ->
               cache st' !! k = Some (MString s))
  /\ exists rs,
      results st' = results st ++ rs
      /\ Forall2 (fun file r =>
                    synced_stem r = stripSuffix file
                    /\ exists s, s <> EmptyString /\ synced_id r = Some s
                                 /\ cache st' !! stripSuffix file = Some (MString s))
                 files rs.
Proof.
  revert st. induction files as [|file files IH]; intros st H; cbn [syncFiles] in H.
  - injection H as <-. split; [auto |]. exists []. now rewrite app_nil_r.
  - destruct (syncFile w o st file) as [st1 [[]|e]] eqn:E1; [| discriminate].
    destruct (IH st1 H) as (Hkeep & rs & Hr & Hall).
    destruct (syncFile_cases st file)
      as [(c & Hc & Hne & E) | [(_ & _ & E) | [(_ & e & _ & E)
          | [(_ & c & e & _ & _ & E) | (Ht & c & p & _ & Hp & E)]]]];
      rewrite E in E1; try discriminate; injection E1 as <-;
      cbn [results cache] in Hr, Hkeep; rewrite <- app_assoc in Hr.
    + split; [exact Hkeep |]. eexists (_ :: rs). split; [exact Hr |].
      constructor; [| exact Hall]. split; [reflexivity |].
      exists c. split; [exact Hne |]. split; [reflexivity |]. now apply Hkeep.
    + pose proof (created_ids _ _ Hp) as Hid.
      destruct (page_id p) as [[|a i]|] eqn:Ei; try discriminate Hid.
      split.
      * intros k s Hs Hk. apply Hkeep; [exact Hs |].
        destruct (decide (stripSuffix file = k)) as [<- | Hk'].
        -- rewrite Hk in Ht. destruct s; [congruence | discriminate Ht].
        -- now rewrite lookup_insert_ne.
      * eexists (_ :: rs). split; [exact Hr |].
        constructor; [| exact Hall]. split; [reflexivity |].
        exists (String a i). split; [discriminate |]. split; [reflexivity |].
        apply Hkeep; [discriminate |]. now rewrite lookup_insert_eq.
Qed.

End SecondRun.

Lemma syncFiles_second (files : list string) (st : Progress) :
  (forall file, file ∈ files ->
     exists s, s <> EmptyString /\ cache st !! stripSuffix file = Some (MString s)) ->
  exists rs,
    syncFiles w o files st
    = (mkProgress (cache st) (results st ++ rs) (requests st), Ok tt)
    /\ Forall2 (fun file r =>
                  synced_stem r = stripSuffix file /\ cached r = true
                  /\ exists s, synced_id r = Some s
                               /\ cache st !! stripSuffix file = Some (MString s))
               files rs.
Proof.
  revert st. induction files as [|file files IH]; intros st H; cbn [syncFiles].
  - exists []. rewrite app_nil_r. now destruct st.
  - destruct (H file) as (s & Hs & Hc); [apply list_elem_of_here |].
    destruct (syncFile_cases st file)
      as [(c & Hc' & _ & E) | [(_ & Hn & _) | [(Ht & _) | [(Ht & _) | (Ht & _)]]]];
      try (now apply Hn in Hc);
      try (rewrite Hc in Ht; destruct s; [congruence | discriminate Ht]).
    rewrite E. rewrite Hc in Hc'. injection Hc' as <-.
    destruct (IH (mkProgress (cache st)
                    (results st ++
                     [mkSynced (stripSuffix file) (Some s)
                        ("https://notion.so/" +:+ Notion.cleanId s) true])
                    (requests st))) as (rs & -> & Hall).
    { intros f Hf. apply H. now apply list_elem_of_further. }
    cbn [cache results requests] in *. eexists (_ :: rs).
    split; [now rewrite <- app_assoc |].
    constructor; [| exact Hall]. split; [reflexivity |]. split; [reflexivity |].
    now exists s.
Qed.

(** A marker that is truthy and not a string stops the loop. *)
Lemma syncFiles_bad_marker (files : list string) (st : Progress) (f : string)
      (m : Marker) :
  f ∈ files ->
  cache st !! stripSuffix f = Some m -> truthy (Some m) = true ->
  (forall s, m <> MString s) ->
  exists st' e, syncFiles w o files st = (st', Err e).
Proof.
  revert st. induction files as [|file files IH]; intros st Hf Hm Ht Hs;
    [now apply elem_of_nil in Hf |].
  cbn [syncFiles].
  destruct (syncFile_cases st file)
    as [(c & Hc & _ & E) | [(_ & _ & E) | [(_ & e & _ & E)
        | [(_ & c & e & _ & _ & E) | (Hfalse & c & p & _ & _ & E)]]]];
    rewrite E; try (now eexists _, _).
  - apply IH with (st := mkProgress _ _ _); cbn [cache]; try assumption.
    apply elem_of_cons in Hf as [-> | Hf]; [| exact Hf].
    rewrite Hm in Hc. injection Hc as ->. now contradiction (Hs c).
  - assert (stripSuffix file <> stripSuffix f) as Hne.
    { intros Heq. rewrite Heq, Hm, Ht in Hfalse. discriminate. }
    apply IH with (st := mkProgress _ _ _); cbn [cache]; try assumption.
    + apply elem_of_cons in Hf as [-> | Hf]; [congruence | exact Hf].
    + destruct (page_id p);
        [now rewrite lookup_insert_ne | now rewrite lookup_delete_ne].
Qed.

End PageFacts.

Section PageRuns.
Import Cache Pages.

Lemma syncSummariesToNotion_ok (w : World) (o : Options) (file : File)
      (rs : list Synced) :
  exit (syncSummariesToNotion w o file) = Ok rs ->
  exists entries st',
    readdir w = Ok entries
    /\ syncFiles w o (summaryFiles entries)
         (mkProgress (if force o then ∅ else loadCache file) [] [])
       = (st', Ok tt)
    /\ syncSummariesToNotion w o file
       = mkOutcome (Ok (results st')) (JsonObject (cache st')) (requests st')
    /\ rs = results st'.
Proof.
  unfold syncSummariesToNotion. intros H.
  destruct (createNotionClient (apiKey o)); [| discriminate H].
  destruct (readdir w) as [entries|e]; [| discriminate H].
  destruct (syncFiles w o _ _) as [st' [[]|e]] eqn:E; [| discriminate H].
  destruct (saveCache (cache st') file) as [written|e] eqn:Ew; [| discriminate H].
  apply saveCache_written in Ew as ->.
  injection H as <-. now exists entries, st'.
Qed.

Lemma syncSummariesToNotion_err (w : World) (o : Options) (file : File) (e : string) :
  exit (syncSummariesToNotion w o file) = Err e ->
  disk (syncSummariesToNotion w o file) = file
  /\ (sent (syncSummariesToNotion w o file) = []
      \/ exists entries st' r,
          createNotionClient (apiKey o) = Ok tt
          /\ readdir w = Ok entries
          /\ syncFiles w o (summaryFiles entries)
               (mkProgress (if force o then ∅ else loadCache file) [] [])
             = (st', r)
          /\ sent (syncSummariesToNotion w o file) = requests st').
Proof.
  unfold syncSummariesToNotion. intros H.
  destruct (createNotionClient (apiKey o)) as [[]|e0]; [| split; [reflexivity | now left]].
  destruct (readdir w) as [entries|e0]; [| split; [reflexivity | now left]].
  destruct (syncFiles w o _ _) as [st' [[]|e0]] eqn:E.
  - destruct (saveCache (cache st') file) as [written|e0]; [discriminate H |].
    split; [reflexivity |]. right. now exists entries, st', (Ok tt).
  - split; [reflexivity |]. right. now exists entries, st', (Err e0).
Qed.

Lemma syncFiles_repeat (w1 w2 : World) (o : Options) (files : list string)
      (st st1 : Progress) (r1 : result unit) :
  (forall f, readFile w2 f = readFile w1 f) ->
  (forall req page, pages_create w1 req = Ok page -> pages_create w2 req = Ok page) ->
  syncFiles w1 o files st = (st1, r1) ->
  exists st2 r, syncFiles w2 o files st = (st2, r)
                /\ requests st1 `prefix_of` requests st2.
Proof.
  intros Hread Hcreate. revert st.
  induction files as [|file files IH]; intros st H; cbn [syncFiles] in *.
  { injection H as <- <-. now exists st, (Ok tt). }
  destruct (syncFile_cases w1 o st file)
    as [(c & Hc & Hne & E) | [(Ht & Hn & E) | [(Ht & e1 & Hr & E)
        | [(Ht & c & e1 & Hr & Hp & E) | (Ht & c & p & Hr & Hp & E)]]]];
    rewrite E in H.
  - assert (syncFile w2 o st file = syncFile w1 o st file) as ->.
    { rewrite E. unfold syncFile. rewrite Hc.
      destruct c; [congruence | reflexivity]. }
    rewrite E. now apply IH.
  - injection H as <- <-.
    assert (syncFile w2 o st file = (st, Err typeError)) as ->.
    { unfold syncFile. rewrite Ht.
      destruct (cache st !! stripSuffix file) as [[| s | |]|] eqn:Ec;
        try reflexivity. now contradiction (Hn s). }
    now exists st, (Err typeError).
  - injection H as <- <-.
    assert (syncFile w2 o st file = (st, Err e1)) as ->.
    { unfold syncFile. now rewrite Ht, Hread, Hr. }
    now exists st, (Err e1).
  - injection H as <- <-. cbn [requests].
    destruct (syncFile_cases w2 o st file)
      as [(c' & Hc' & Hne' & E') | [(Ht' & _) | [(_ & e' & Hr' & _)
          | [(_ & c' & e' & Hr' & _ & E') | (_ & c' & p' & Hr' & _ & E')]]]];
      try (rewrite Hc' in Ht; destruct c'; [congruence | discriminate Ht]);
      try congruence;
      rewrite Hread, Hr in Hr'; try discriminate Hr';
      injection Hr' as <-; rewrite E'.
    + eexists _, _. split; [reflexivity | reflexivity].
    + destruct (syncFiles w2 o files _) as [st2 r] eqn:E2.
      exists st2, r. split; [reflexivity |].
      apply syncFiles_requests in E2. exact E2.
  - assert (syncFile w2 o st file = syncFile w1 o st file) as ->.
    { rewrite E. unfold syncFile. rewrite Ht, Hread, Hr.
      unfold createSummaryPageFromMarkdown, createPage.
      change (request (parentType o) (parentId o)
                (Notion.displayTitle (basename o file))
                (Blocks.markdownToNotionBlocks c) (titleProperty o))
        with (summaryRequest o (basename o file) c).
      now rewrite (Hcreate _ _ Hp). }
    rewrite E. now apply IH.
Qed.

End PageRuns.

(** X23: creating pages is idempotent.  When [syncSummariesToNotion]
    completes without [force] and the store gives every page a non-empty
    id, a second call on the same folder sends no request, leaves the
    cache file as it is, and reports every summary as cached under the id
    of the first call. *)
Theorem syncSummariesToNotion_second_run (w : Pages.World) (o : Pages.Options)
        (file : Cache.File) (rs1 : list Pages.Synced) :
  Pages.force o = false ->
  (forall req page,
      Pages.pages_create w req = Ok page -> JS.truthy (Pages.page_id page) = true) ->
  Pages.exit (Pages.syncSummariesToNotion w o file) = Ok rs1 ->
  let first := Pages.syncSummariesToNotion w o file in
  let second := Pages.syncSummariesToNotion w o (Pages.disk first) in
  Pages.sent second = []
  /\ Pages.disk second = Pages.disk first
  /\ exists rs2,
      Pages.exit second = Ok rs2
      /\ Forall2 (fun r1 r2 =>
                    Pages.synced_stem r2 = Pages.synced_stem r1
                    /\ Pages.synced_id r2 = Pages.synced_id r1
                    /\ Pages.cached r2 = true)
                 rs1 rs2.
Proof.
  intros Hforce Hids Hexit. cbv zeta.
  destruct (syncSummariesToNotion_ok w o file rs1 Hexit)
    as (entries & st1 & Hdir & Hloop & -> & ->).
  cbn [Pages.disk].
  destruct (syncFiles_first w o Hids _ _ _ Hloop) as (_ & rs & Hrs & Hall).
  cbn [Pages.results app] in Hrs. subst rs.
  destruct (syncFiles_second w o (Pages.summaryFiles entries)
              (Pages.mkProgress (Pages.cache st1) [] [])) as (rs2 & Hloop2 & Hall2).
  { intros f Hf. cbn [Pages.cache].
    clear -Hall Hf. induction Hall as [|x r l l' (_ & s & Hs & _ & Hc) _ IH];
      [now apply elem_of_nil in Hf |].
    apply elem_of_cons in Hf as [-> | Hf]; [now exists s | now apply IH]. }
  unfold Pages.syncSummariesToNotion.
  assert (Pages.createNotionClient (Pages.apiKey o) = Ok tt) as ->.
  { revert Hexit. unfold Pages.syncSummariesToNotion.
    destruct (Pages.createNotionClient (Pages.apiKey o)) as [[]|]; [reflexivity | discriminate]. }
  rewrite Hdir, Hforce. cbn [Cache.loadCache]. rewrite Hloop2.
  cbn [Pages.sent Pages.disk Pages.exit Pages.cache Pages.results Pages.requests app].
  split; [reflexivity |]. split; [reflexivity |].
  exists rs2. split; [reflexivity |].
  clear -Hall Hall2. revert rs2 Hall2.
  induction Hall as [|x r l l' (Hs1 & s & _ & Hi1 & Hc1) _ IH]; intros rs2 Hall2.
  - apply Forall2_nil_inv_l in Hall2 as ->. constructor.
  - apply Forall2_cons_inv_l in Hall2
      as (r2 & l2 & (Hs2 & Hcached & s2 & Hi2 & Hc2) & Hrest & ->).
    constructor; [| now apply IH].
    cbn [Pages.cache] in Hc2. rewrite Hc1 in Hc2. injection Hc2 as <-.
    repeat split; congruence.
Qed.

Lemma syncSummariesToNotion_second_run_witness :
  Pages.sent
    (Pages.syncSummariesToNotion Samples.notebook Samples.pageOptions
       (Pages.disk (Pages.syncSummariesToNotion Samples.notebook
                      Samples.pageOptions Cache.NoFile)))
  = [].
Proof.
  refine (proj1 (syncSummariesToNotion_second_run Samples.notebook
                   Samples.pageOptions Cache.NoFile _ eq_refl _ eq_refl)).
  intros req page H. injection H as <-. reflexivity.
Defined.

(** X24: [syncSummariesToNotion] saves the cache only when it completes.
    A call that fails leaves the cache file untouched, so the next call
    sends again every request the failed one had sent, whether or not its
    page had been created. *)
Theorem failed_page_sync_repeats_requests (w1 w2 : Pages.World) (o : Pages.Options)
        (file : Cache.File) (e : string) :
  Pages.readdir w2 = Pages.readdir w1 ->
  (forall f, Pages.readFile w2 f = Pages.readFile w1 f) ->
  (forall req page,
      Pages.pages_create w1 req = Ok page -> Pages.pages_create w2 req = Ok page) ->
  Pages.exit (Pages.syncSummariesToNotion w1 o file) = Err e ->
  let first := Pages.syncSummariesToNotion w1 o file in
  Pages.disk first = file
  /\ Pages.sent first
     `prefix_of` Pages.sent (Pages.syncSummariesToNotion w2 o (Pages.disk first)).
Proof.
  intros Hdir Hread Hcreate Hexit. cbv zeta.
  destruct (syncSummariesToNotion_err w1 o file e Hexit)
    as (Hdisk & [Hsent | (entries & st1 & r1 & Hkey & Hd & Hloop & Hsent)]);
    rewrite Hdisk, Hsent; (split; [reflexivity |]); [apply prefix_nil |].
  destruct (syncFiles_repeat w1 w2 o _ _ _ _ Hread Hcreate Hloop)
    as (st2 & r & Hloop2 & Hprefix).
  unfold Pages.syncSummariesToNotion. rewrite Hkey, Hdir, Hd, Hloop2.
  destruct r as [[]|]; [destruct (Cache.saveCache _ _) |]; exact Hprefix.
Qed.

Lemma failed_page_sync_repeats_requests_witness :
  Pages.disk (Pages.syncSummariesToNotion Samples.notebookDown Samples.pageOptions
                                          Cache.NoFile)
  = Cache.NoFile
  /\ Pages.sent (Pages.syncSummariesToNotion Samples.notebookDown
                                             Samples.pageOptions Cache.NoFile)
     `prefix_of`
     Pages.sent
       (Pages.syncSummariesToNotion Samples.notebook Samples.pageOptions
          (Pages.disk (Pages.syncSummariesToNotion Samples.notebookDown
                         Samples.pageOptions Cache.NoFile))).
Proof.
  apply (failed_page_sync_repeats_requests Samples.notebookDown Samples.notebook
           Samples.pageOptions Cache.NoFile "validation_error");
    try reflexivity.
  intros req page H. discriminate H.
Defined.

(** X25: a completed [syncSummariesToNotion] reports one result per
    entry of the folder that ends in [_summary.md], in folder order, under
    the entry name without that ending; entries of other names are
    ignored, and one page is requested for each result that is not marked
    as cached. *)
Theorem syncSummariesToNotion_results (w : Pages.World) (o : Pages.Options)
        (file : Cache.File) (entries : list string) (rs : list Pages.Synced) :
  Pages.readdir w = Ok entries ->
  Pages.exit (Pages.syncSummariesToNotion w o file) = Ok rs ->
  Pages.synced_stem <$> rs = Pages.stripSuffix <$> Pages.summaryFiles entries
  /\ length (Pages.sent (Pages.syncSummariesToNotion w o file))
     = length (filter (fun r => Pages.cached r = false) rs).
Proof.
  intros Hdir Hexit.
  destruct (syncSummariesToNotion_ok w o file rs Hexit)
    as (entries' & st1 & Hdir' & Hloop & -> & ->).
  rewrite Hdir in Hdir'. injection Hdir' as <-.
  destruct (syncFiles_results w o _ _ _ Hloop) as (rs & qs & Hr & Hq & Hs & Hl).
  cbn [Pages.results Pages.requests app Pages.sent] in *. now subst.
Qed.

Lemma syncSummariesToNotion_results_witness :
  exists rs,
    Pages.exit (Pages.syncSummariesToNotion Samples.notebook Samples.pageOptions
                                            Cache.NoFile) = Ok rs
    /\ Pages.synced_stem <$> rs = [Samples.stem42; Samples.stem43].
Proof.
  eexists. split; [reflexivity |].
  exact (proj1 (syncSummariesToNotion_results Samples.notebook Samples.pageOptions
                  Cache.NoFile Samples.summariesDir _ eq_refl eq_refl)).
Defined.

(** X26: the two users of the cache file do not agree on its markers.
    When the cache holds for a summary of the folder a truthy marker that
    is not a string, such as the [true] that [runSync] records, a call of
    [syncSummariesToNotion] without [force] fails and leaves the cache
    file as it is. *)
Theorem page_sync_rejects_other_markers (w : Pages.World) (o : Pages.Options)
        (file : Cache.File) (entries : list string) (f : string) (m : Cache.Marker) :
  JS.truthy (Pages.apiKey o) = true ->
  Pages.force o = false ->
  Pages.readdir w = Ok entries ->
  f ∈ Pages.summaryFiles entries ->
  Cache.loadCache file !! Pages.stripSuffix f = Some m ->
  Cache.truthy (Some m) = true ->
  (forall s, m <> Cache.MString s) ->
  exists e,
    Pages.exit (Pages.syncSummariesToNotion w o file) = Err e
    /\ Pages.disk (Pages.syncSummariesToNotion w o file) = file.
Proof.
  intros Hkey Hforce Hdir Hf Hm Ht Hs.
  unfold Pages.syncSummariesToNotion, Pages.createNotionClient.
  rewrite Hkey, Hdir, Hforce.
  destruct (syncFiles_bad_marker w o (Pages.summaryFiles entries)
              (Pages.mkProgress (Cache.loadCache file) [] []) f m Hf Hm Ht Hs)
    as (st' & e & ->).
  now exists e.
Qed.

Lemma page_sync_rejects_other_markers_witness :
  exists e,
    Pages.exit (Pages.syncSummariesToNotion Samples.notebook Samples.pageOptions
                                            (Sync.disk Samples.firstRun)) = Err e
    /\ Pages.disk (Pages.syncSummariesToNotion Samples.notebook Samples.pageOptions
                                               (Sync.disk Samples.firstRun))
       = Sync.disk Samples.firstRun.
Proof.
  apply (page_sync_rejects_other_markers Samples.notebook Samples.pageOptions
           (Sync.disk Samples.firstRun) Samples.summariesDir
           (Samples.stem42 +:+ "_summary.md") (Cache.MBool true));
    try reflexivity.
  - vm_compute. apply list_elem_of_here.
  - intros s. discriminate.
Defined.

(** ** Device-flow login *)

Section LoginFacts.
Import Auth.

Lemma pollLoop_first_token (w : World) (clientId : string) (code : option string)
      (file : option string) (token : string) (k fuel start : nat) :
  (forall j, start <= j < start + k ->
             pollForDeviceToken w j clientId code = Ok None) ->
  pollForDeviceToken w (start + k) clientId code = Ok (Some token) ->
  writeTokenFile w token = Ok tt ->
  k < fuel ->
  pollLoop fuel w clientId code file start
  = Some (mkLogin (Ok token) (Some token) (S (start + k))).
Proof.
  revert fuel start. induction k as [|k IH]; intros fuel start Hwait Htoken Hwrite Hfuel;
    (destruct fuel as [|fuel]; [lia |]); cbn [pollLoop].
  - rewrite Nat.add_0_r in *. now rewrite Htoken, Hwrite.
  - rewrite (Hwait start) by lia.
    replace (start + S k) with (S start + k) in * by lia.
    apply IH; try assumption; [| lia].
    intros j Hj. apply Hwait. lia.
Qed.

Lemma pollForDeviceToken_token (w : World) (k : nat) (clientId : string)
      (code : option string) (token : string) :
  pollForDeviceToken w k clientId code = Ok (Some token) -> token <> EmptyString.
Proof.
  unfold pollForDeviceToken.
  destruct (post_token w k clientId code) as [data|]; [| discriminate].
  destruct (token_error data) as [[|a s]|].
  - destruct (access_token data) as [[|b t]|]; try discriminate.
    intros H. injection H as <-. discriminate.
  - destruct (_ || _); discriminate.
  - destruct (access_token data) as [[|b t]|]; try discriminate.
    intros H. injection H as <-. discriminate.
Qed.

Lemma pollLoop_file (fuel : nat) (w : World) (clientId : string)
      (code : option string) (file : option string) (start : nat) (login : Login) :
  pollLoop fuel w clientId code file start = Some login ->
  match outcome login with
  | Ok token => tokenFile login = Some token /\ token <> EmptyString
  | Err _ => tokenFile login = file
  end.
Proof.
  revert start. induction fuel as [|fuel IH]; intros start H; [discriminate |].
  cbn [pollLoop] in H.
  destruct (pollForDeviceToken w start clientId code) as [[token|]|e] eqn:E.
  - destruct (writeTokenFile w token); injection H as <-; cbn; [| reflexivity].
    split; [reflexivity |]. now apply pollForDeviceToken_token in E.
  - now apply IH in H.
  - now injection H as <-.
Qed.

End LoginFacts.

(** X27: the device-flow login polls until the first answer that carries
    a token: when the polls before number [k] answer
    [authorization_pending] or [slow_down] and poll [k] carries a token
    that can be written, the login returns that token after [k + 1] polls
    and the token file holds it. *)
Theorem runDeviceFlowLogin_first_token (w : Auth.World) (clientId : string)
        (code : Auth.DeviceCode) (file : option string) (token : string)
        (k fuel : nat) :
  clientId <> EmptyString ->
  Auth.requestDeviceCode w clientId (Some Auth.defaultScope) = Ok code ->
  (forall j, j < k ->
     Auth.pollForDeviceToken w j clientId (Auth.deviceCode code) = Ok None) ->
  Auth.pollForDeviceToken w k clientId (Auth.deviceCode code) = Ok (Some token) ->
  Auth.writeTokenFile w token = Ok tt ->
  k < fuel ->
  Auth.runDeviceFlowLogin fuel w (Some clientId) file
  = Some (Auth.mkLogin (Ok token) (Some token) (S k)).
Proof.
  intros Hid Hcode Hwait Htoken Hwrite Hfuel.
  unfold Auth.runDeviceFlowLogin, Auth.getGitHubOAuthConfig.
  destruct clientId as [|a s]; [congruence |]. rewrite Hcode.
  apply (pollLoop_first_token w (String a s) _ file token k fuel 0); try assumption.
  intros j Hj. apply Hwait. lia.
Qed.

Lemma runDeviceFlowLogin_first_token_witness :
  Auth.runDeviceFlowLogin 5 Samples.github (Some "Iv1.abc") None
  = Some (Auth.mkLogin (Ok "gho_token") (Some "gho_token") 3).
Proof.
  apply (runDeviceFlowLogin_first_token Samples.github "Iv1.abc"
           Samples.deviceCode None "gho_token" 2 5);
    try reflexivity; try lia; [discriminate |].
  intros j Hj. destruct j as [|[|j]]; [reflexivity | reflexivity | lia].
Defined.

(** X28: the token file changes only when the login succeeds: a login
    that returns a token has written exactly that token, which is not
    empty and is what [getToken] reads back (trimmed) when [GITHUB_TOKEN]
    is not set; a login that fails leaves the file as it was. *)
Theorem token_file_follows_the_login (fuel : nat) (w : Auth.World)
        (GITHUB_CLIENT_ID file : option string) (login : Auth.Login) :
  Auth.runDeviceFlowLogin fuel w GITHUB_CLIENT_ID file = Some login ->
  match Auth.outcome login with
  | Ok token =>
      Auth.tokenFile login = Some token
      /\ token <> EmptyString
      /\ Auth.getToken None (Auth.tokenFile login) = Some (Blocks.trim token)
  | Err _ => Auth.tokenFile login = file
  end.
Proof.
  unfold Auth.runDeviceFlowLogin. intros H.
  destruct (Auth.getGitHubOAuthConfig GITHUB_CLIENT_ID) as [[clientId scope]|e];
    [| now injection H as <-].
  destruct (Auth.requestDeviceCode w clientId (Some scope)) as [code|e];
    [| now injection H as <-].
  apply pollLoop_file in H.
  destruct (Auth.outcome login); [| exact H].
  destruct H as [-> Hne]. now repeat split.
Qed.

Lemma token_file_follows_the_login_witness :
  Some "gho_token" = Some "gho_token"
  /\ "gho_token" <> EmptyString
  /\ Auth.getToken None (Some "gho_token") = Some "gho_token".
Proof.
  exact (token_file_follows_the_login 5 Samples.github (Some "Iv1.abc") None
           (Auth.mkLogin (Ok "gho_token") (Some "gho_token") 3) eq_refl).
Defined.

(** ** The export script *)

Section ExportFacts.
Import ExportScript.

Lemma append_cancel_r (a b s : string) : a +:+ s = b +:+ s -> a = b.
Proof.
  revert b. induction a as [|x a IH]; intros [|y b] H.
  - reflexivity.
  - apply (f_equal String.length) in H. cbn in H. rewrite length_append in H. lia.
  - apply (f_equal String.length) in H. cbn in H. rewrite length_append in H. lia.
  - cbn in H. injection H as -> H. f_equal. now apply IH.
Qed.

Variable w : World.
Variable octokit : Fetcher.Octokit.

Lemma exportAll_untouched (prs : list PullRequest) (out : Folder) (name : string) :
  (forall q, q ∈ prs -> payloadName (Stem.prToStem q) <> name) ->
  files (exportAll w octokit prs out) !! name = files out !! name.
Proof.
  revert out. induction prs as [|q prs IH]; intros out H; [reflexivity |].
  unfold exportAll in *. cbn [fold_left]. rewrite IH.
  - unfold exportPR. destruct (writeFile w _ _); cbn [files]; [| reflexivity].
    apply lookup_insert_ne, H, list_elem_of_here.
  - intros q' Hq'. apply H. now apply list_elem_of_further.
Qed.

End ExportFacts.

(** X29: the export script writes one file per stem: when the collected
    PRs have pairwise different stems, every PR whose write succeeds has
    its own payload in the file named by its stem and [.json], whether or
    not the writes of other PRs fail. *)
Theorem export_writes_each_payload (w : ExportScript.World) (octokit : Fetcher.Octokit)
        (prs : list PullRequest) (out : ExportScript.Folder) (pr : PullRequest) :
  NoDup (Stem.prToStem <$> prs) -> pr ∈ prs ->
  ExportScript.writeFile w (ExportScript.payloadName (Stem.prToStem pr))
                         (ExportScript.payloadOf w octokit pr) = Ok tt ->
  ExportScript.files (ExportScript.exportAll w octokit prs out)
    !! ExportScript.payloadName (Stem.prToStem pr)
  = Some (ExportScript.payloadOf w octokit pr).
Proof.
  revert out. induction prs as [|q prs IH]; intros out Hnd Hin Hw;
    [now apply elem_of_nil in Hin |].
  cbn [fmap list_fmap] in Hnd. apply NoDup_cons in Hnd as [Hq Hnd].
  unfold ExportScript.exportAll in *. cbn [fold_left].
  apply elem_of_cons in Hin as [-> | Hin]; [| now apply IH].
  fold (ExportScript.exportAll w octokit prs (ExportScript.exportPR w octokit out q)).
  rewrite exportAll_untouched.
  - unfold ExportScript.exportPR. rewrite Hw. cbn [ExportScript.files].
    apply lookup_insert_eq.
  - intros q' Hq' Heq. apply append_cancel_r in Heq. apply Hq.
    rewrite <- Heq. apply list_elem_of_fmap. now exists q'.
Qed.

Lemma export_writes_each_payload_witness :
  ExportScript.files
    (ExportScript.exportAll Samples.exportWorld Samples.busyHost Samples.collected
       (ExportScript.mkFolder ∅ []))
  !! "acme_widgets_PR42_2024-03-05.json" = Some "Add gears".
Proof.
  apply (export_writes_each_payload Samples.exportWorld Samples.busyHost
           Samples.collected (ExportScript.mkFolder ∅ []) Samples.pr42);
    [| apply list_elem_of_here | reflexivity].
  apply NoDup_cons. split; [| apply NoDup_singleton].
  intros H. apply list_elem_of_singleton in H. discriminate H.
Defined.
